(** * Ought: the arbitrage scanner and executor

    A shallow embedding of [scanner/core/scanner.py],
    [scanner/core/executor.py] and [scanner/utils/config.py].  Python
    integers are [Z]; Python floats are
    IEEE-754 binary64 values, modelled by the [spec_float] operations of the
    standard library at precision 53 and exponent bound 1024 (round to
    nearest, ties to even); exceptions are an explicit [result] type; the
    RPC node, the signer and the clock are passed in as the answers they
    give during one call. *)

From Stdlib Require Import ZArith List Bool String Lia Reals Lra Psatz.
From Stdlib Require Import Floats.SpecFloat.
From Stdlib Require Import Ascii Permutation Sorted.
Import ListNotations.
Open Scope Z_scope.

(** ** Python exceptions and results *)

Inductive exn : Type :=
| OverflowError
| ZeroDivisionError
| ValueError
| KeyError
| IndexError
| RpcError (connection_like : bool).

Inductive result (A : Type) : Type :=
| Ok (a : A)
| Raise (e : exn).

Arguments Ok {A} a.
Arguments Raise {A} e.

Definition bind {A B : Type} (c : result A) (k : A -> result B) : result B :=
  match c with
  | Ok a => k a
  | Raise e => Raise e
  end.

Notation "x <- c ;; k" := (bind c (fun x => k))
  (at level 61, c at next level, right associativity).

(** ** binary64 arithmetic *)

Definition prec : Z := 53.
Definition emax : Z := 1024.

Definition float : Type := spec_float.

Definition Z2SF (z : Z) : float := binary_normalize prec emax z 0 false.
Definition fmul : float -> float -> float := SFmul prec emax.
Definition fadd : float -> float -> float := SFadd prec emax.
Definition fsub : float -> float -> float := SFsub prec emax.
Definition fdiv : float -> float -> float := SFdiv prec emax.
Definition fltb : float -> float -> bool := SFltb.

(** [float(z)] for a Python int: correctly rounded, [OverflowError] when the
    rounded value is not finite. *)
Definition float_of_int (z : Z) : result float :=
  match Z2SF z with
  | S754_infinity _ => Raise OverflowError
  | f => Ok f
  end.

(** [int(f)]: truncation toward zero; infinities and NaN raise. *)
Definition int_of_float (f : float) : result Z :=
  match f with
  | S754_zero _ => Ok 0
  | S754_finite s m e =>
      let a := match e with
               | Z0 => Zpos m
               | Zpos _ => Zpos m * 2 ^ e
               | Zneg _ => Zpos m / 2 ^ (- e)
               end in
      Ok (if s then - a else a)
  | S754_infinity _ => Raise OverflowError
  | S754_nan => Raise ValueError
  end.

(** [a / b] on Python floats. *)
Definition truediv (a b : float) : result float :=
  match b with
  | S754_zero _ => Raise ZeroDivisionError
  | _ => Ok (fdiv a b)
  end.

(** Float literals of the source: [1.0], [1e18], [0.003], [0.0025], [1.5],
    [1.15].  A decimal literal denotes the double nearest to it, which the
    correctly rounded quotient of two exactly representable integers
    gives. *)
Definition f_1 : float := Eval vm_compute in Z2SF 1.
Definition f_1e18 : float := Eval vm_compute in Z2SF (10 ^ 18).
Definition f_0_003 : float := Eval vm_compute in fdiv (Z2SF 3) (Z2SF 1000).
Definition f_0_0025 : float := Eval vm_compute in fdiv (Z2SF 25) (Z2SF 10000).
Definition f_1_5 : float := Eval vm_compute in fdiv (Z2SF 3) (Z2SF 2).
Definition f_1_15 : float := Eval vm_compute in fdiv (Z2SF 115) (Z2SF 100).
Definition f_0_2 : float := Eval vm_compute in fdiv (Z2SF 2) (Z2SF 10).

(** ** Scanner: data *)

(** [bytes] values the scanner puts in [swap_data]: [b''] or
    [Web3.keccak(text=...).hex().encode()], kept symbolic. *)
Inductive swap_bytes : Type :=
| b_empty
| keccak_hex (text : string).

(** A number stored under a pool's ['fee'] key: a float for V2 pools, an
    int fee tier for V3 pools. *)
Inductive py_number : Type :=
| NInt (z : Z)
| NFloat (f : float).

(** A pool dict; a key that may be missing is an [option]. *)
Record pool : Type := {
  address : option string;
  token0 : option string;
  token1 : option string;
  reserve0 : option Z;
  reserve1 : option Z;
  tvl : Z;
  fee : option py_number
}.

(** An entry of [dex_configs]; a key that an entry may lack is an
    [option]: V3 has ['fees'] and no ['fee'], the others ['fee'] and no
    ['fees']. *)
Record dex_config : Type := {
  router : string;
  factory : string;
  dex_fee : option float;
  fees : option (list Z)
}.

Record ArbitrageRoute : Type := {
  token : string;
  amount_in : Z;
  dex_routers : list string;
  swap_data : list swap_bytes;
  expected_profit : Z;
  gas_cost : Z;
  net_profit : Z;
  timestamp : Z
}.

Record Config : Type := {
  min_profit_threshold : Z;
  max_gas_price_gwei : Z;
  use_gpu : bool;
  chain_id : Z;
  rpc_urls : list string
}.

(** [asyncio.Queue(maxsize)]: FIFO; [maxsize <= 0] means unbounded. *)
Record Queue (A : Type) : Type := {
  maxsize : Z;
  items : list A
}.

Arguments maxsize {A} q.
Arguments items {A} q.

Definition Queue_new {A : Type} (maxsize : Z) : Queue A :=
  {| maxsize := maxsize; items := [] |}.

Definition qsize {A : Type} (q : Queue A) : Z := Z.of_nat (List.length (items q)).

Definition full {A : Type} (q : Queue A) : bool :=
  if maxsize q <=? 0 then false else maxsize q <=? qsize q.

(** [await q.put(x)]: [None] when the queue is full and the caller
    suspends. *)
Definition put {A : Type} (q : Queue A) (x : A) : option (Queue A) :=
  if full q then None
  else Some {| maxsize := maxsize q; items := items q ++ [x] |}.

(** [await q.get()]: [None] when the queue is empty and the caller
    suspends. *)
Definition get {A : Type} (q : Queue A) : option (A * Queue A) :=
  match items q with
  | [] => None
  | x :: rest => Some (x, {| maxsize := maxsize q; items := rest |})
  end.

(** What the imports at the top of [scanner.py] found: whether
    [import cupy] succeeded ([GPU_AVAILABLE]), and what the installed NumPy
    answers to [x > n] for a float64 scalar [x] and a Python int [n] that
    does not fit int64, which differs between NumPy versions. *)
Record imports : Type := {
  GPU_AVAILABLE : bool;
  float64_gt_big_int : float -> Z -> result bool
}.

Record ArbitrageScanner : Type := {
  config : Config;
  gpu_available : bool;
  numpy_gt_big_int : float -> Z -> result bool;
  dex_configs : list (string * dex_config);
  tokens : list string;
  profitable_routes : Queue ArbitrageRoute
}.

Definition uniswap_v2 : dex_config :=
  {| router := "0x4752ba5DBc23f44D87826276BF6Fd6b1C372aD24";
     factory := "0x8909Dc15e40173Ff4699343b6eB8132c65e18eC6";
     dex_fee := Some f_0_003; fees := None |}.
Definition uniswap_v3 : dex_config :=
  {| router := "0x2626664c2603336E57B271c5C0b26F421741e481";
     factory := "0x33128a8fC17869897dcE68Ed026d694621f6FDfD";
     dex_fee := None; fees := Some [500; 3000; 10000] |}.
Definition sushiswap : dex_config :=
  {| router := "0x6BDED42c6DA8FBf0d2bA55B2fa120C5e0c8D7891";
     factory := "0x71524B4f93c58fcbF659783284E38825f0622859";
     dex_fee := Some f_0_003; fees := None |}.
Definition aerodrome : dex_config :=
  {| router := "0xcF77a3Ba9A5CA399B7c97c74d54e5b1Beb874E43";
     factory := "0x420DD381b31aEf6683db6B902084cB0FFECe40Da";
     dex_fee := Some f_0_003; fees := None |}.
Definition baseswap : dex_config :=
  {| router := "0x327Df1E6de05895d2ab08513aaDD9313Fe505d86";
     factory := "0xFDa619b6d20975be80A10332cD39b9a4b0FAa8BB";
     dex_fee := Some f_0_0025; fees := None |}.

Definition default_dex_configs : list (string * dex_config) :=
  [("uniswap_v2", uniswap_v2); ("uniswap_v3", uniswap_v3);
   ("sushiswap", sushiswap); ("aerodrome", aerodrome); ("baseswap", baseswap)]%string.

Definition default_tokens : list string :=
  ["0x4200000000000000000000000000000000000006";
   "0xd9aAEc86B65D86f6A7B5B1b0c42FFA531710b6CA";
   "0x833589fCD6eDb6E08f4c7C32D4f71b54bdA02913";
   "0x50c5725949A6F0c72E6C4a641F24049A917DB0Cb"]%string.

(** [ArbitrageScanner.__init__] in a module whose imports found
    [found]: the queue is [asyncio.Queue()], whose default [maxsize] is
    0. *)
Definition ArbitrageScanner_init (cfg : Config) (found : imports)
    (token_list : list string) : ArbitrageScanner :=
  {| config := cfg;
     gpu_available := GPU_AVAILABLE found;
     numpy_gt_big_int := float64_gt_big_int found;
     dex_configs := default_dex_configs;
     tokens := match token_list with [] => default_tokens | _ => token_list end;
     profitable_routes := Queue_new 0 |}.

Definition scanner_use_gpu (s : ArbitrageScanner) : bool :=
  use_gpu (config s) && gpu_available s.

(** ** Scanner: swap output *)

Definition dflt {A : Type} (o : option A) (d : A) : A :=
  match o with Some a => a | None => d end.

(** [_calculate_swap_output(amount_in, reserve_in, reserve_out, fee)]. *)
Definition _calculate_swap_output (amount_in reserve_in reserve_out : Z) (fee : float)
  : result Z :=
  if (reserve_in =? 0) || (reserve_out =? 0) then Ok 0
  else
    x <- float_of_int amount_in ;;
    let amount_in_with_fee := fmul x (fsub f_1 fee) in
    r_out <- float_of_int reserve_out ;;
    let numerator := fmul amount_in_with_fee r_out in
    r_in <- float_of_int reserve_in ;;
    let denominator := fadd r_in amount_in_with_fee in
    q <- truediv numerator denominator ;;
    int_of_float q.

(** [_calculate_swap_gpu]: the same expression on float64 array elements,
    where nothing raises and no reserve is tested against zero. *)
Definition _calculate_swap_gpu (amount_in reserve_in reserve_out fee : float) : float :=
  let amount_in_with_fee := fmul amount_in (fsub f_1 fee) in
  let numerator := fmul amount_in_with_fee reserve_out in
  let denominator := fadd reserve_in amount_in_with_fee in
  fdiv numerator denominator.

(** The formula the specification prescribes: integer arithmetic with the
    fee as an exact rational, floor division, 0 when a reserve is 0. *)
Definition amm_out_spec (amount_in reserve_in reserve_out fee_num fee_den : Z) : Z :=
  if (reserve_in =? 0) || (reserve_out =? 0) then 0
  else
    let amount_in_eff := amount_in * fee_num in
    (amount_in_eff * reserve_out) / (reserve_in * fee_den + amount_in_eff).

(** ** Scanner: route search *)

Definition opt_string_eqb (a b : option string) : bool :=
  match a, b with
  | Some x, Some y => String.eqb x y
  | None, None => true
  | _, _ => false
  end.

(** [d[name]] on a dict kept as an association list. *)
Fixpoint getitem {A : Type} (d : list (string * A)) (name : string) : result A :=
  match d with
  | [] => Raise KeyError
  | (k, v) :: rest => if String.eqb k name then Ok v else getitem rest name
  end.

(** [dex_config['fee']]. *)
Definition getitem_fee (c : dex_config) : result float :=
  match dex_fee c with
  | Some f => Ok f
  | None => Raise KeyError
  end.

Definition _encode_swap_data (p : pool) : swap_bytes :=
  keccak_hex (dflt (address p) EmptyString).

(** [_check_arbitrage_opportunity]; [now] is the reading of
    [int(time.time())]. *)
Definition _check_arbitrage_opportunity (now : Z) (tok : string) (pool1 pool2 : pool)
    (dex1_config dex2_config : dex_config) : result (option ArbitrageRoute) :=
  let amount_in := 10 ^ 18 in
  first <-
    (if opt_string_eqb (Some tok) (token0 pool1) then
       f <- getitem_fee dex1_config ;;
       out <- _calculate_swap_output amount_in
                (dflt (reserve0 pool1) 0) (dflt (reserve1 pool1) 0) f ;;
       Ok (out, token1 pool1)
     else
       f <- getitem_fee dex1_config ;;
       out <- _calculate_swap_output amount_in
                (dflt (reserve1 pool1) 0) (dflt (reserve0 pool1) 0) f ;;
       Ok (out, token0 pool1)) ;;
  let amount_out1 := fst first in
  let intermediate_token := snd first in
  amount_out2 <-
    (if opt_string_eqb intermediate_token (token0 pool2) then
       _calculate_swap_output amount_out1
         (dflt (reserve0 pool2) 0) (dflt (reserve1 pool2) 0)
         (dflt (dex_fee dex2_config) f_0_003)
     else
       _calculate_swap_output amount_out1
         (dflt (reserve1 pool2) 0) (dflt (reserve0 pool2) 0)
         (dflt (dex_fee dex2_config) f_0_003)) ;;
  let profit := amount_out2 - amount_in in
  let gas_cost := 150000 * 20 in
  let net_profit := profit - gas_cost in
  if 0 <? net_profit then
    Ok (Some {| token := tok;
                amount_in := amount_in;
                dex_routers := [router dex1_config; router dex2_config];
                swap_data := [_encode_swap_data pool1; _encode_swap_data pool2];
                expected_profit := profit;
                gas_cost := gas_cost;
                net_profit := net_profit;
                timestamp := now |})
  else Ok None.

(** A [for] loop that appends to one list and stops at the first
    exception. *)
Fixpoint for_each {A B : Type} (l : list A) (body : A -> result (list B))
  : result (list B) :=
  match l with
  | [] => Ok []
  | a :: rest =>
      out <- body a ;;
      more <- for_each rest body ;;
      Ok (out ++ more)
  end.

Definition token_in_pool (tok : string) (p : pool) : bool :=
  opt_string_eqb (Some tok) (token0 p) || opt_string_eqb (Some tok) (token1 p).

(** [_calculate_routes_cpu].  The code reads [int(time.time())] anew for
    every route it builds; one search is taken to finish within the
    second in which it started, so that all its readings are [now]. *)
Definition _calculate_routes_cpu (s : ArbitrageScanner) (now : Z)
    (pools : list (string * list pool)) : result (list ArbitrageRoute) :=
  for_each (tokens s) (fun tok =>
    for_each pools (fun d1 =>
      for_each pools (fun d2 =>
        if String.eqb (fst d1) (fst d2) then Ok []
        else
          for_each (snd d1) (fun pool1 =>
            if negb (token_in_pool tok pool1) then Ok []
            else
              for_each (snd d2) (fun pool2 =>
                c1 <- getitem (dex_configs s) (fst d1) ;;
                c2 <- getitem (dex_configs s) (fst d2) ;;
                route <- _check_arbitrage_opportunity now tok pool1 pool2 c1 c2 ;;
                match route with
                | Some r => if 0 <? net_profit r then Ok [r] else Ok []
                | None => Ok []
                end))))).

(** Conversion of one number of [pool_data] to float64. *)
Definition number_to_float (n : py_number) : result float :=
  match n with
  | NInt z => float_of_int z
  | NFloat f => Ok f
  end.

(** One row of [pool_array]: reserve0, reserve1, fee. *)
Definition pool_row (p : pool) : result (float * float * float) :=
  r0 <- float_of_int (dflt (reserve0 p) 0) ;;
  r1 <- float_of_int (dflt (reserve1 p) 0) ;;
  f <- number_to_float (dflt (fee p) (NFloat f_0_003)) ;;
  Ok (r0, r1, f).

Fixpoint pool_rows (ps : list pool) : result (list (float * float * float)) :=
  match ps with
  | [] => Ok []
  | p :: rest =>
      row <- pool_row p ;;
      rows <- pool_rows rest ;;
      Ok (row :: rows)
  end.

(** [profits[i][j]] as the first pair of loops leaves it: the two-swap
    profit for [i <> j], the initial [0.0] on the diagonal. *)
Definition gpu_profit (rows : list (float * float * float)) (i j : nat) : float :=
  if Nat.eqb i j then S754_zero false
  else
    let '(ri0, ri1, fi) := nth i rows (S754_zero false, S754_zero false, S754_zero false) in
    let '(rj0, rj1, fj) := nth j rows (S754_zero false, S754_zero false, S754_zero false) in
    let amount_out1 := _calculate_swap_gpu f_1e18 ri0 ri1 fi in
    let amount_out2 := _calculate_swap_gpu amount_out1 rj1 rj0 fj in
    fsub amount_out2 f_1e18.

(** [profits_cpu[i][j] > self.config.min_profit_threshold]: a float64
    scalar against a Python int.  An int that fits int64 is converted to
    float64 and the two are compared as float64 values, under every
    NumPy; for a larger int the answer is the one of the installed
    NumPy. *)
Definition float_gt_int (big : float -> Z -> result bool) (p : float) (z : Z)
  : result bool :=
  if (- 2 ^ 63 <=? z) && (z <? 2 ^ 63) then
    t <- float_of_int z ;;
    Ok (fltb t p)
  else big p z.

(** [lst[i]]. *)
Definition getidx {A : Type} (l : list A) (i : nat) : result A :=
  match nth_error l i with
  | Some a => Ok a
  | None => Raise IndexError
  end.

(** The route the second pair of loops builds for one cell of the
    matrix, [now] being the reading of [int(time.time())] for that
    route. *)
Definition gpu_route (s : ArbitrageScanner) (now : Z) (p : float)
  : result ArbitrageRoute :=
  tok <- getidx (tokens s) 0 ;;
  d0 <- getidx (map snd (dex_configs s)) 0 ;;
  d1 <- getidx (map snd (dex_configs s)) 1 ;;
  ep <- int_of_float p ;;
  np <- int_of_float (fsub p (Z2SF 2000000)) ;;
  Ok {| token := tok;
        amount_in := 10 ^ 18;
        dex_routers := [router d0; router d1];
        swap_data := [b_empty; b_empty];
        expected_profit := ep;
        gas_cost := 100000 * 20;
        net_profit := np;
        timestamp := now |}.

Definition all_pools (pools : list (string * list pool)) : list pool :=
  flat_map snd pools.

(** [_calculate_routes_gpu] when CuPy was imported; as on the CPU path,
    the clock readings of one search are all taken to be [now]. *)
Definition _calculate_routes_gpu_accel (s : ArbitrageScanner) (now : Z)
    (pools : list (string * list pool)) : result (list ArbitrageRoute) :=
  rows <- pool_rows (all_pools pools) ;;
  let n_pools := List.length rows in
  for_each (seq 0 n_pools) (fun i =>
    for_each (seq 0 n_pools) (fun j =>
      above <- float_gt_int (numpy_gt_big_int s) (gpu_profit rows i j)
                 (min_profit_threshold (config s)) ;;
      if above then
        r <- gpu_route s now (gpu_profit rows i j) ;;
        Ok [r]
      else Ok [])).

Definition _calculate_routes_gpu (s : ArbitrageScanner) (now : Z)
    (pools : list (string * list pool)) : result (list ArbitrageRoute) :=
  if negb (gpu_available s) then _calculate_routes_cpu s now pools
  else _calculate_routes_gpu_accel s now pools.

Definition calculate_arbitrage_routes (s : ArbitrageScanner) (now : Z)
    (pools : list (string * list pool)) : result (list ArbitrageRoute) :=
  if scanner_use_gpu s then _calculate_routes_gpu s now pools
  else _calculate_routes_cpu s now pools.

(** The routes [analyze_block] keeps. *)
Definition profitable (s : ArbitrageScanner) (routes : list ArbitrageRoute)
  : list ArbitrageRoute :=
  filter (fun r => min_profit_threshold (config s) <? net_profit r) routes.

(** [for route in profitable: await self.profitable_routes.put(route)];
    [None] when a [put] would suspend. *)
Fixpoint put_all {A : Type} (q : Queue A) (l : list A) : option (Queue A) :=
  match l with
  | [] => Some q
  | x :: rest =>
      match put q x with
      | Some q' => put_all q' rest
      | None => None
      end
  end.

(** [analyze_block] after [fetch_top_pools] has returned [pools]: an
    exception of the route search leaves the method before anything is
    published. *)
Definition analyze_block (s : ArbitrageScanner) (now : Z)
    (pools : list (string * list pool)) : result (option ArbitrageScanner) :=
  routes <- calculate_arbitrage_routes s now pools ;;
  match put_all (profitable_routes s) (profitable s routes) with
  | Some q =>
      Ok (Some {| config := config s;
                  gpu_available := gpu_available s;
                  numpy_gt_big_int := numpy_gt_big_int s;
                  dex_configs := dex_configs s;
                  tokens := tokens s;
                  profitable_routes := q |})
  | None => Ok None
  end.

(** The routes one [analyze_block] hands to [put], in order. *)
Definition emitted (s : ArbitrageScanner) (now : Z)
    (pools : list (string * list pool)) : list ArbitrageRoute :=
  match calculate_arbitrage_routes s now pools with
  | Ok routes => profitable s routes
  | Raise _ => []
  end.

(** ** Executor: data *)

Inductive level : Type := DEBUG | INFO | WARNING | ERROR | CRITICAL.

Record block : Type := {
  number : Z;
  baseFeePerGas : option Z
}.

(** The dict [build_transaction] returns for [executeArbitrage]. *)
Record transaction : Type := {
  tx_route : ArbitrageRoute;
  tx_nonce : Z;
  tx_gas : Z;
  maxFeePerGas : Z;
  maxPriorityFeePerGas : Z;
  tx_chainId : Z
}.

(** The replacement transfer [emergency_stop] builds. *)
Record cancel_transaction : Type := {
  cancel_nonce : Z;
  cancel_gas : Z;
  cancel_maxFeePerGas : Z;
  cancel_maxPriorityFeePerGas : Z
}.

(** What the node and the signer answer during one call of the executor.
    [balanceOf_call] stands for the whole inner [try] of the token check
    (checksum conversion, contract object, [balanceOf(...).call()]). *)
Record rpc : Type := {
  get_block_latest : result block;
  eth_gas_price : result Z;
  balanceOf_call : ArbitrageRoute -> result Z;
  contract_estimate_gas : ArbitrageRoute -> result Z;
  build_transaction : transaction -> result unit;
  eth_estimate_gas : transaction -> result Z;
  sign_transaction : transaction -> result string;
  send_raw_transaction : string -> result string
}.

Record pending_tx : Type := {
  pending_route : ArbitrageRoute;
  pending_timestamp : float;
  pending_nonce : Z
}.

(** The executor's state.  [sent] is not an attribute of the class: it
    keeps, oldest first, the raw transactions for which
    [send_raw_transaction] returned a hash, that is, the ones the node
    accepted; a call that raised adds nothing to it. *)
Record ArbitrageExecutor : Type := {
  exec_config : Config;
  current_rpc_index : nat;
  nonce : Z;
  pending_txs : list (string * pending_tx);
  executing : bool;
  sent : list string;
  log : list level
}.

Definition max_gas_price (x : ArbitrageExecutor) : Z :=
  max_gas_price_gwei (exec_config x) * 10 ^ 9.

Definition set_log (x : ArbitrageExecutor) (l : list level) : ArbitrageExecutor :=
  {| exec_config := exec_config x; current_rpc_index := current_rpc_index x;
     nonce := nonce x; pending_txs := pending_txs x; executing := executing x;
     sent := sent x; log := l |}.

Definition logger (x : ArbitrageExecutor) (lv : level) : ArbitrageExecutor :=
  set_log x (log x ++ [lv]).

(** ** Executor: gas price *)

(** [int(base_fee * 1.5)]. *)
Definition eip1559_price (base_fee : Z) : result Z :=
  b <- float_of_int base_fee ;;
  int_of_float (fmul b f_1_5).

(** The body of the [try] in [get_gas_price]. *)
Definition get_gas_price_try (w : rpc) (x : ArbitrageExecutor) : result Z :=
  latest_block <- get_block_latest w ;;
  let base_fee := dflt (baseFeePerGas latest_block) 0 in
  gas_price <- (if negb (base_fee =? 0) then eip1559_price base_fee
                else eth_gas_price w) ;;
  Ok (Z.min gas_price (max_gas_price x)).

(** [get_gas_price]: the value and the executor with its log. *)
Definition get_gas_price (w : rpc) (x : ArbitrageExecutor) : Z * ArbitrageExecutor :=
  match get_gas_price_try w x with
  | Ok p => (p, x)
  | Raise _ => (Z.min (30 * 10 ^ 9) (max_gas_price x), logger x WARNING)
  end.

(** ** Executor: validation *)

(** [time.time() - route.timestamp > 30]. *)
Definition route_too_old (now : float) (r : ArbitrageRoute) : result bool :=
  t <- float_of_int (timestamp r) ;;
  Ok (fltb (Z2SF 30) (fsub now t)).

(** The simulation [try] of [validate_route]. *)
Definition validate_simulation (w : rpc) (x : ArbitrageExecutor) (r : ArbitrageRoute)
  : bool * ArbitrageExecutor :=
  match contract_estimate_gas w r with
  | Ok estimated_gas =>
      if 800000 <? estimated_gas then (false, logger x DEBUG) else (true, x)
  | Raise _ => (false, logger x DEBUG)
  end.

(** [validate_route]; [now] is the reading of [time.time()]. *)
Definition validate_route (w : rpc) (now : float) (x : ArbitrageExecutor)
    (r : ArbitrageRoute) : bool * ArbitrageExecutor :=
  if net_profit r <? min_profit_threshold (exec_config x) then (false, logger x DEBUG)
  else
    match route_too_old now r with
    | Raise _ => (false, logger x ERROR)
    | Ok true => (false, logger x DEBUG)
    | Ok false =>
        match balanceOf_call w r with
        | Raise _ => (false, logger x DEBUG)
        | Ok _ => validate_simulation w x r
        end
    end.

(** ** Executor: submission *)

(** [switch_rpc]: the index moves on; a failure of the new endpoint is
    logged and swallowed. *)
Definition switch_rpc (w : rpc) (x : ArbitrageExecutor) : ArbitrageExecutor :=
  let n := List.length (rpc_urls (exec_config x)) in
  let x1 :=
    {| exec_config := exec_config x;
       current_rpc_index := Nat.modulo (current_rpc_index x + 1) n;
       nonce := nonce x; pending_txs := pending_txs x; executing := executing x;
       sent := sent x; log := log x ++ [WARNING] |} in
  match get_block_latest w with
  | Ok _ => logger x1 INFO
  | Raise _ => logger x1 ERROR
  end.

(** The [except] of [execute_arbitrage]. *)
Definition execute_failed (w : rpc) (x : ArbitrageExecutor) (e : exn)
  : option string * ArbitrageExecutor :=
  let x1 := logger x ERROR in
  match e with
  | RpcError true => (None, switch_rpc w x1)
  | _ => (None, x1)
  end.

(** [tx['gas']] after the inner [try]: [int(gas_estimate * 1.15)], or the
    600000 the transaction was built with when estimation raises. *)
Definition refine_gas (w : rpc) (x : ArbitrageExecutor) (tx : transaction)
  : transaction * ArbitrageExecutor :=
  match (g <- eth_estimate_gas w tx ;;
         gf <- float_of_int g ;;
         int_of_float (fmul gf f_1_15)) with
  | Ok gas =>
      ({| tx_route := tx_route tx; tx_nonce := tx_nonce tx; tx_gas := gas;
          maxFeePerGas := maxFeePerGas tx;
          maxPriorityFeePerGas := maxPriorityFeePerGas tx;
          tx_chainId := tx_chainId tx |}, x)
  | Raise _ => (tx, logger x WARNING)
  end.

(** [execute_arbitrage] up to the gas check: the gas price, the built
    transaction and its refined gas limit. *)
Definition prepare_transaction (w : rpc) (x : ArbitrageExecutor) (r : ArbitrageRoute)
  : result transaction * ArbitrageExecutor :=
  let '(gas_price, x1) := get_gas_price w x in
  let tx0 :=
    {| tx_route := r; tx_nonce := nonce x1; tx_gas := 600000;
       maxFeePerGas := gas_price;
       maxPriorityFeePerGas := Z.min (2 * 10 ^ 9) (gas_price / 10);
       tx_chainId := chain_id (exec_config x1) |} in
  match build_transaction w tx0 with
  | Raise e => (Raise e, x1)
  | Ok _ => let '(tx, x2) := refine_gas w x1 tx0 in (Ok tx, x2)
  end.

(** [execute_arbitrage]. *)
Definition execute_arbitrage (w : rpc) (x : ArbitrageExecutor) (r : ArbitrageRoute)
  : option string * ArbitrageExecutor :=
  match prepare_transaction w x r with
  | (Raise e, x1) => execute_failed w x1 e
  | (Ok tx, x2) =>
      let gas_cost := tx_gas tx * maxFeePerGas tx in
      if expected_profit r <=? gas_cost then (None, logger x2 DEBUG)
      else
        match sign_transaction w tx with
        | Raise e => execute_failed w x2 e
        | Ok signed_tx =>
            match send_raw_transaction w signed_tx with
            | Raise e => execute_failed w x2 e
            | Ok tx_hash =>
                (Some tx_hash,
                 {| exec_config := exec_config x2;
                    current_rpc_index := current_rpc_index x2;
                    nonce := nonce x2 + 1;
                    pending_txs := pending_txs x2;
                    executing := executing x2;
                    sent := sent x2 ++ [signed_tx];
                    log := log x2 |})
            end
        end
  end.

(** [pending_txs[tx_hash] = {...}] on a dict kept as an association
    list. *)
Fixpoint setitem {A : Type} (d : list (string * A)) (k : string) (v : A)
  : list (string * A) :=
  match d with
  | [] => [(k, v)]
  | (k', v') :: rest =>
      if String.eqb k' k then (k, v) :: rest else (k', v') :: setitem rest k v
  end.

Definition bytes_truthy (b : string) : bool :=
  match b with
  | EmptyString => false
  | _ => true
  end.

(** One turn of the loop of [execute_routes] after [scanner_queue.get()]
    has delivered [r]. *)
Definition execute_routes_step (w : rpc) (now : float) (x : ArbitrageExecutor)
    (r : ArbitrageRoute) : ArbitrageExecutor :=
  let '(valid, x1) := validate_route w now x r in
  if negb valid then logger x1 DEBUG
  else
    let '(tx_hash, x2) := execute_arbitrage w x1 r in
    match tx_hash with
    | Some h =>
        if bytes_truthy h then
          let x3 := logger x2 INFO in
          {| exec_config := exec_config x3;
             current_rpc_index := current_rpc_index x3;
             nonce := nonce x3;
             pending_txs :=
               setitem (pending_txs x3) h
                 {| pending_route := r; pending_timestamp := now;
                    pending_nonce := nonce x3 - 1 |};
             executing := executing x3;
             sent := sent x3;
             log := log x3 |}
        else x2
    | None => x2
    end.

(** [int(self.max_gas_price * 1.5)] and [int(self.max_gas_price * 0.2)]. *)
Definition scaled_cap (x : ArbitrageExecutor) (factor : float) : result Z :=
  c <- float_of_int (max_gas_price x) ;;
  int_of_float (fmul c factor).

(** The transaction [emergency_stop] builds for one pending entry. *)
Definition cancel_tx_for (x : ArbitrageExecutor) (p : pending_tx)
  : result cancel_transaction :=
  fee_cap <- scaled_cap x f_1_5 ;;
  tip_cap <- scaled_cap x f_0_2 ;;
  Ok {| cancel_nonce := pending_nonce p; cancel_gas := 21000;
        cancel_maxFeePerGas := fee_cap; cancel_maxPriorityFeePerGas := tip_cap |}.

(** ** Scanner: fetching pools *)

(** What the pair contract answers inside the [try] of one turn of the
    loop of [fetch_v2_pools]: [allPairs(i)], [getReserves()], [token0()]
    and [token1()]. *)
Record pair_data : Type := {
  pair_address : string;
  pair_reserve0 : Z;
  pair_reserve1 : Z;
  pair_token0 : string;
  pair_token1 : string
}.

(** The chain as the scanner reads it: for a factory address the answer
    of [allPairsLength().call()], and for a factory and an index the
    answers of the four calls on the pair, or the exception the first
    failing one raises. *)
Record chain : Type := {
  allPairsLength : string -> result Z;
  pair_at : string -> Z -> result pair_data
}.

(** [range(start, stop)]. *)
Definition range (start stop : Z) : list Z :=
  map (fun k => start + Z.of_nat k) (seq 0 (Z.to_nat (stop - start))).

(** The body of the [try] in the loop of [fetch_v2_pools]: the dict
    appended for pair [i]. *)
Definition v2_pool_entry (w : chain) (c : dex_config) (i : Z) : result pool :=
  d <- pair_at w (factory c) i ;;
  let tvl := pair_reserve0 d + pair_reserve1 d in
  f <- getitem_fee c ;;
  Ok {| address := Some (pair_address d);
        token0 := Some (pair_token0 d);
        token1 := Some (pair_token1 d);
        reserve0 := Some (pair_reserve0 d);
        reserve1 := Some (pair_reserve1 d);
        tvl := tvl;
        fee := Some (NFloat f) |}.

(** A loop whose body is wrapped in [try: ... except Exception: continue]. *)
Fixpoint collect_ok {A B : Type} (body : A -> result B) (l : list A) : list B :=
  match l with
  | [] => []
  | a :: rest =>
      match body a with
      | Ok b => b :: collect_ok body rest
      | Raise _ => collect_ok body rest
      end
  end.

(** [pools.sort(key=lambda x: x['tvl'], reverse=True)]: the stable sort by
    descending [tvl], pools of equal [tvl] keeping their order. *)
Fixpoint insert_by_tvl (p : pool) (l : list pool) : list pool :=
  match l with
  | [] => [p]
  | q :: rest => if tvl p <? tvl q then q :: insert_by_tvl p rest else p :: q :: rest
  end.

Definition sort_by_tvl (l : list pool) : list pool :=
  fold_right insert_by_tvl [] l.

(** The indices [fetch_v2_pools] queries when the factory holds
    [total_pairs] pairs. *)
Definition v2_sample_indices (total_pairs : Z) : list Z :=
  let sample_size := Z.min 100 total_pairs in
  let start_idx := Z.max 0 (total_pairs - sample_size) in
  range start_idx (Z.min (start_idx + 20) total_pairs).

(** [fetch_v2_pools]. *)
Definition fetch_v2_pools (w : chain) (c : dex_config) : result (list pool) :=
  total_pairs <- allPairsLength w (factory c) ;;
  let pools := collect_ok (v2_pool_entry w c) (v2_sample_indices total_pairs) in
  Ok (firstn 20 (sort_by_tvl pools)).

(** A pool dict of [fetch_v3_pools]: no address and no reserves. *)
Definition v3_pool (t0 t1 : string) (fee_tier : Z) : pool :=
  {| address := None; token0 := Some t0; token1 := Some t1;
     reserve0 := None; reserve1 := None; tvl := 1000000;
     fee := Some (NInt fee_tier) |}.

(** [dex_config['fees']]. *)
Definition getitem_fees (c : dex_config) : result (list Z) :=
  match fees c with
  | Some l => Ok l
  | None => Raise KeyError
  end.

(** [fetch_v3_pools]: the three pairs are built first, the ['fees'] key
    is read when the loop reaches its first pair. *)
Definition fetch_v3_pools (s : ArbitrageScanner) (c : dex_config) : result (list pool) :=
  t0 <- getidx (tokens s) 0 ;;
  t1 <- getidx (tokens s) 1 ;;
  t2 <- getidx (tokens s) 2 ;;
  let common_pairs := [(t0, t1); (t0, t2); (t1, t2)] in
  pools <- for_each common_pairs (fun pr =>
             tiers <- getitem_fees c ;;
             Ok (map (fun fee_tier => v3_pool (fst pr) (snd pr) fee_tier) tiers)) ;;
  Ok (firstn 20 pools).

(** One turn of the loop of [fetch_top_pools]: an exception of the fetch
    leaves the empty list under the name. *)
Definition fetch_dex_pools (w : chain) (s : ArbitrageScanner) (dex_name : string)
    (c : dex_config) : list pool :=
  match (if String.eqb dex_name "uniswap_v3" then fetch_v3_pools s c
         else fetch_v2_pools w c) with
  | Ok l => l
  | Raise _ => []
  end.

(** [fetch_top_pools]. *)
Definition fetch_top_pools (w : chain) (s : ArbitrageScanner) : list (string * list pool) :=
  fold_left (fun pools d => setitem pools (fst d) (fetch_dex_pools w s (fst d) (snd d)))
    (dex_configs s) [].

(** One turn of the inner loop of [scan_blocks]: [analyze_block] on the
    pools it fetches; the flag tells whether the [except] logged an
    error. *)
Definition scan_blocks_step (w : chain) (s : ArbitrageScanner) (now : Z)
  : option ArbitrageScanner * bool :=
  match analyze_block s now (fetch_top_pools w s) with
  | Ok s' => (s', false)
  | Raise _ => (Some s, true)
  end.

(** The [for] loop of [scan_blocks] over the new blocks of one poll, with
    one clock reading per block: an exception of [analyze_block] leaves
    the loop for the [except] clause, and a [put] that suspends does not
    return. *)
Fixpoint scan_new_entries (w : chain) (s : ArbitrageScanner) (clock : list Z)
  : option ArbitrageScanner * bool :=
  match clock with
  | [] => (Some s, false)
  | now :: rest =>
      match scan_blocks_step w s now with
      | (Some s', false) => scan_new_entries w s' rest
      | stopped => stopped
      end
  end.

(** ** Executor: nonce synchronisation *)

Definition set_nonce (x : ArbitrageExecutor) (n : Z) : ArbitrageExecutor :=
  {| exec_config := exec_config x; current_rpc_index := current_rpc_index x;
     nonce := n; pending_txs := pending_txs x; executing := executing x;
     sent := sent x; log := log x |}.

(** One turn of the loop of [update_nonce_periodically] after the sleep;
    [count] is the answer of [get_transaction_count]. *)
Definition update_nonce_step (count : result Z) (x : ArbitrageExecutor)
  : ArbitrageExecutor :=
  match count with
  | Ok actual_nonce =>
      if negb (actual_nonce =? nonce x) then set_nonce (logger x INFO) actual_nonce
      else x
  | Raise _ => logger x ERROR
  end.

(** ** Executor: monitoring *)

(** A transaction receipt: the keys the executor reads, and what
    [ArbitrageExecuted().process_receipt(receipt)] gives for it, as the
    [profit] argument of each parsed log. *)
Record receipt : Type := {
  status : option Z;
  gasUsed : option Z;
  effectiveGasPrice : option Z;
  ArbitrageExecuted_profit : result (list Z)
}.

(** What the node and the libraries answer during one pass of
    [monitor_transactions]: the receipt of a hash, and the formatting of a
    wei amount by [from_wei(..., 'ether')] in the log line. *)
Record monitor_node : Type := {
  get_transaction_receipt : string -> result receipt;
  from_wei_ether : Z -> result unit
}.

(** [calculate_actual_profit]. *)
Definition calculate_actual_profit (x : ArbitrageExecutor) (rc : receipt)
  : Z * ArbitrageExecutor :=
  match gasUsed rc, effectiveGasPrice rc with
  | Some gas_used, Some gas_price =>
      let gas_cost := gas_used * gas_price in
      match ArbitrageExecuted_profit rc with
      | Ok (gross_profit :: _) => (gross_profit - gas_cost, x)
      | Ok [] => (- gas_cost, x)
      | Raise _ => (- gas_cost, logger x DEBUG)
      end
  | _, _ => (0, logger x ERROR)
  end.

(** The outcome of one pending entry in a pass of
    [monitor_transactions]: whether its hash joins [completed_txs], the
    token a withdrawal task is created for, and the executor with its
    log. *)
Record entry_outcome : Type := {
  completed : bool;
  withdrawal : option string;
  after : ArbitrageExecutor
}.

(** The [except] of the inner [try]: the entry is given up when older
    than 300 seconds. *)
Definition still_pending (current_time : float) (x : ArbitrageExecutor) (d : pending_tx)
  : entry_outcome :=
  if fltb (Z2SF 300) (fsub current_time (pending_timestamp d))
  then {| completed := true; withdrawal := None; after := logger x WARNING |}
  else {| completed := false; withdrawal := None; after := x |}.

(** The inner [try] of [monitor_transactions] for one entry. *)
Definition monitor_entry (w : monitor_node) (current_time : float)
    (x : ArbitrageExecutor) (tx_hash : string) (d : pending_tx) : entry_outcome :=
  match get_transaction_receipt w tx_hash with
  | Raise _ => still_pending current_time x d
  | Ok rc =>
      match status rc with
      | None => still_pending current_time x d
      | Some st =>
          if st =? 1 then
            let '(profit, x1) := calculate_actual_profit x rc in
            match from_wei_ether w profit with
            | Raise _ => still_pending current_time x1 d
            | Ok _ =>
                {| completed := true;
                   withdrawal := Some (token (pending_route d));
                   after := logger x1 INFO |}
            end
          else {| completed := true; withdrawal := None; after := logger x WARNING |}
      end
  end.

(** The loop over [list(self.pending_txs.items())]: the hashes collected
    in [completed_txs], the withdrawal tasks created, the executor. *)
Fixpoint monitor_entries (w : monitor_node) (current_time : float)
    (x : ArbitrageExecutor) (entries : list (string * pending_tx))
  : list string * list string * ArbitrageExecutor :=
  match entries with
  | [] => ([], [], x)
  | (tx_hash, d) :: rest =>
      let o := monitor_entry w current_time x tx_hash d in
      let '(done, tasks, x') := monitor_entries w current_time (after o) rest in
      ((if completed o then tx_hash :: done else done),
       (match withdrawal o with Some t => t :: tasks | None => tasks end),
       x')
  end.

(** [del d[k]]. *)
Fixpoint delitem {A : Type} (d : list (string * A)) (k : string)
  : result (list (string * A)) :=
  match d with
  | [] => Raise KeyError
  | (k', v) :: rest =>
      if String.eqb k' k then Ok rest
      else
        r <- delitem rest k ;;
        Ok ((k', v) :: r)
  end.

(** [for tx_hash in completed_txs: del self.pending_txs[tx_hash]]: the
    dict as the loop leaves it, and whether it ran to its end. *)
Fixpoint delete_completed {A : Type} (d : list (string * A)) (keys : list string)
  : list (string * A) * bool :=
  match keys with
  | [] => (d, true)
  | k :: rest =>
      match delitem d k with
      | Ok d' => delete_completed d' rest
      | Raise _ => (d, false)
      end
  end.

Definition set_pending_txs (x : ArbitrageExecutor) (d : list (string * pending_tx))
  : ArbitrageExecutor :=
  {| exec_config := exec_config x; current_rpc_index := current_rpc_index x;
     nonce := nonce x; pending_txs := d; executing := executing x;
     sent := sent x; log := log x |}.

(** One pass of the loop of [monitor_transactions]: the withdrawal tasks
    it creates and the executor it leaves. *)
Definition monitor_transactions_step (w : monitor_node) (current_time : float)
    (x : ArbitrageExecutor) : list string * ArbitrageExecutor :=
  let '(done, tasks, x1) := monitor_entries w current_time x (pending_txs x) in
  let '(d, finished) := delete_completed (pending_txs x1) done in
  let x2 := set_pending_txs x1 d in
  (tasks, if finished then x2 else logger x2 ERROR).

(** ** Executor: withdrawal *)

(** The dict [withdraw_profits] passes to [build_transaction]. *)
Record withdraw_transaction : Type := {
  wd_token : string;
  wd_nonce : Z;
  wd_gas : Z;
  wd_maxFeePerGas : Z;
  wd_maxPriorityFeePerGas : Z;
  wd_chainId : Z
}.

(** What the node and the signer answer during [withdraw_profits]: the
    token check up to [balanceOf(...).call()], the formatting of the
    balance in the log line, the call object [emergencyWithdraw(token)],
    [build_transaction], signing and sending. *)
Record withdraw_node : Type := {
  token_balance : string -> result Z;
  format_balance : Z -> result unit;
  emergencyWithdraw : string -> result unit;
  build_withdrawal : withdraw_transaction -> result unit;
  sign_withdrawal : withdraw_transaction -> result string;
  send_withdrawal : string -> result string
}.

(** [withdraw_profits] after its sleep: the transaction it submitted, if
    any, and the executor. *)
Definition withdraw_profits (w : rpc) (n : withdraw_node) (x : ArbitrageExecutor)
    (tok : string) : option withdraw_transaction * ArbitrageExecutor :=
  match token_balance n tok with
  | Raise _ => (None, logger x ERROR)
  | Ok balance =>
      if 1000 <? balance then
        match format_balance n balance with
        | Raise _ => (None, logger x ERROR)
        | Ok _ =>
            let x1 := logger x INFO in
            match emergencyWithdraw n tok with
            | Raise _ => (None, logger x1 ERROR)
            | Ok _ =>
                let '(gas_price, x2) := get_gas_price w x1 in
                let tx :=
                  {| wd_token := tok; wd_nonce := nonce x1; wd_gas := 150000;
                     wd_maxFeePerGas := gas_price;
                     wd_maxPriorityFeePerGas := 2 * 10 ^ 9;
                     wd_chainId := chain_id (exec_config x1) |} in
                match build_withdrawal n tx with
                | Raise _ => (None, logger x2 ERROR)
                | Ok _ =>
                    match sign_withdrawal n tx with
                    | Raise _ => (None, logger x2 ERROR)
                    | Ok signed_tx =>
                        match send_withdrawal n signed_tx with
                        | Raise _ => (None, logger x2 ERROR)
                        | Ok _ =>
                            (Some tx,
                             logger
                               {| exec_config := exec_config x2;
                                  current_rpc_index := current_rpc_index x2;
                                  nonce := nonce x2 + 1;
                                  pending_txs := pending_txs x2;
                                  executing := executing x2;
                                  sent := sent x2 ++ [signed_tx];
                                  log := log x2 |} INFO)
                        end
                    end
                end
            end
        end
      else (None, x)
  end.

(** ** Executor: emergency stop *)

(** What the signer and the node answer to the replacement transactions of
    [emergency_stop]. *)
Record stop_node : Type := {
  sign_cancel : cancel_transaction -> result string;
  send_cancel : string -> result string
}.

(** The body of the loop of [emergency_stop] for one pending entry: the
    replacement transaction and its signed form, or the exception that
    ends the loop. *)
Definition cancel_attempt (n : stop_node) (x : ArbitrageExecutor) (d : pending_tx)
  : result (cancel_transaction * string) :=
  cancel_tx <- cancel_tx_for x d ;;
  signed_cancel <- sign_cancel n cancel_tx ;;
  _ <- send_cancel n signed_cancel ;;
  Ok (cancel_tx, signed_cancel).

(** The loop of [emergency_stop] over [self.pending_txs.items()]: it ends
    at the first exception.  The replacement transactions handed to the
    node, whether the loop ran to its end, the executor. *)
Fixpoint cancel_pending (n : stop_node) (x : ArbitrageExecutor)
    (entries : list (string * pending_tx))
  : list cancel_transaction * bool * ArbitrageExecutor :=
  match entries with
  | [] => ([], true, x)
  | (_, d) :: rest =>
      match cancel_attempt n x d with
      | Raise _ => ([], false, x)
      | Ok (cancel_tx, signed_cancel) =>
          let x1 :=
            logger
              {| exec_config := exec_config x; current_rpc_index := current_rpc_index x;
                 nonce := nonce x; pending_txs := pending_txs x;
                 executing := executing x; sent := sent x ++ [signed_cancel];
                 log := log x |} INFO in
          let '(more, finished, x2) := cancel_pending n x1 rest in
          (cancel_tx :: more, finished, x2)
      end
  end.

(** [emergency_stop]. *)
Definition emergency_stop (n : stop_node) (x : ArbitrageExecutor)
  : list cancel_transaction * ArbitrageExecutor :=
  let x0 := logger x CRITICAL in
  let x1 :=
    {| exec_config := exec_config x0; current_rpc_index := current_rpc_index x0;
       nonce := nonce x0; pending_txs := pending_txs x0; executing := false;
       sent := sent x0; log := log x0 |} in
  let '(cancels, finished, x2) := cancel_pending n x1 (pending_txs x1) in
  (cancels, if finished then x2 else logger x2 ERROR).

(** What the monitoring pass and [emergency_stop] leave alone. *)
Definition same_ledger_but_sent (x y : ArbitrageExecutor) : Prop :=
  nonce y = nonce x /\ pending_txs y = pending_txs x /\
  executing y = executing x /\ exec_config y = exec_config x.

(** ** Configuration *)

(** [os.getenv(key, default)] on the environment kept as an association
    list. *)
Definition getenv (environ : list (string * string)) (key default : string) : string :=
  match getitem environ key with
  | Ok v => v
  | Raise _ => default
  end.

(** [s.split(",")]. *)
Fixpoint split_comma (s : string) : list string :=
  match s with
  | EmptyString => [EmptyString]
  | String c rest =>
      if Ascii.eqb c ","%char then EmptyString :: split_comma rest
      else
        match split_comma rest with
        | piece :: pieces => String c piece :: pieces
        | [] => [String c EmptyString]
        end
  end.

(** The attributes of [Config] that [validate], the scanner's token list
    and the executor's endpoint list are read from. *)
Record Settings : Type := {
  settings_rpc_urls : list string;
  private_key : string;
  contract_address : string;
  token_list : list string
}.

Definition is_empty (s : string) : bool :=
  match s with
  | EmptyString => true
  | _ => false
  end.

(** [Config.__init__], for these attributes. *)
Definition Settings_init (environ : list (string * string)) : Settings :=
  {| settings_rpc_urls := split_comma (getenv environ "RPC_URLS" EmptyString);
     private_key := getenv environ "PRIVATE_KEY" EmptyString;
     contract_address := getenv environ "CONTRACT_ADDRESS" EmptyString;
     token_list :=
       let token_list_env := getenv environ "TOKEN_LIST" EmptyString in
       if is_empty token_list_env then default_tokens else split_comma token_list_env |}.

(** [Config.validate]. *)
Definition validate (c : Settings) : result bool :=
  if match settings_rpc_urls c with
     | [] => true
     | url :: _ => is_empty url
     end
  then Raise ValueError
  else if is_empty (private_key c) then Raise ValueError
  else if is_empty (contract_address c) then Raise ValueError
  else Ok true.

(** [self.tokens = config.token_list or [...]] of
    [ArbitrageScanner.__init__], with the configuration read from the
    environment. *)
Definition scanner_of_environ (cfg : Config) (found : imports)
    (environ : list (string * string)) : ArbitrageScanner :=
  ArbitrageScanner_init cfg found (token_list (Settings_init environ)).

(** What [execute_arbitrage] and [validate_route] may change besides the
    log and the endpoint index. *)
Definition same_ledger (x y : ArbitrageExecutor) : Prop :=
  nonce y = nonce x /\ pending_txs y = pending_txs x /\ sent y = sent x /\
  exec_config y = exec_config x.

(** The list a [result] carries, empty for an exception. *)
Definition routes_of (res : result (list ArbitrageRoute)) : list ArbitrageRoute :=
  match res with
  | Ok l => l
  | Raise _ => []
  end.

(** Whether the second pair of loops of the accelerator path builds a
    route for the cell [(i, j)] of the profit matrix. *)
Definition cell_above (s : ArbitrageScanner) (rows : list (float * float * float))
    (ij : nat * nat) : bool :=
  match float_gt_int (numpy_gt_big_int s) (gpu_profit rows (fst ij) (snd ij))
          (min_profit_threshold (config s)) with
  | Ok true => true
  | _ => false
  end.

(** ** Concrete inputs used by the examples *)

Definition WETH : string := "0x4200000000000000000000000000000000000006".
Definition USDC : string := "0x833589fCD6eDb6E08f4c7C32D4f71b54bdA02913".

Definition v2_pool (a t0 t1 : string) (r0 r1 : Z) : pool :=
  {| address := Some a; token0 := Some t0; token1 := Some t1;
     reserve0 := Some r0; reserve1 := Some r1; tvl := r0 + r1;
     fee := Some (NFloat f_0_003) |}.

(** 1 WETH buys about 1992 USDC in [pool_A]; WETH is cheaper in
    [pool_B]; [pool_Z] has an empty WETH side. *)
Definition pool_A : pool := v2_pool "0xA" WETH USDC (10 ^ 21) (2 * 10 ^ 24).
Definition pool_B : pool := v2_pool "0xB" USDC WETH (2 * 10 ^ 24) (2 * 10 ^ 21).
Definition pool_Z : pool := v2_pool "0xZ" WETH USDC 0 (4 * 10 ^ 24).
Definition pool_C : pool := v2_pool "0xC" WETH USDC (10 ^ 21) (2 * 10 ^ 24).

Definition default_config : Config :=
  {| min_profit_threshold := 10 ^ 16; max_gas_price_gwei := 100; use_gpu := false;
     chain_id := 8453; rpc_urls := ["https://rpc.example"%string] |}.

Definition gpu_config (threshold : Z) : Config :=
  {| min_profit_threshold := threshold; max_gas_price_gwei := 100; use_gpu := true;
     chain_id := 8453; rpc_urls := ["https://rpc.example"%string] |}.

(** NumPy 2: the Python int is converted to float64 whatever its size. *)
Definition numpy2_gt (p : float) (z : Z) : result bool :=
  t <- float_of_int z ;;
  Ok (fltb t p).

Definition without_cupy : imports :=
  {| GPU_AVAILABLE := false; float64_gt_big_int := numpy2_gt |}.
Definition with_cupy : imports :=
  {| GPU_AVAILABLE := true; float64_gt_big_int := numpy2_gt |}.

Definition cpu_scanner : ArbitrageScanner :=
  ArbitrageScanner_init default_config without_cupy [].
Definition gpu_scanner (threshold : Z) : ArbitrageScanner :=
  ArbitrageScanner_init (gpu_config threshold) with_cupy [].

(** The same with [TOKEN_LIST] holding the two tokens WETH and USDC. *)
Definition two_token_gpu_scanner (threshold : Z) : ArbitrageScanner :=
  ArbitrageScanner_init (gpu_config threshold) with_cupy [WETH; USDC].

Definition two_dex_pools : list (string * list pool) :=
  [("uniswap_v2"%string, [pool_A]); ("sushiswap"%string, [pool_B])].

Definition stale_route (t : Z) : ArbitrageRoute :=
  {| token := WETH; amount_in := 10 ^ 18; dex_routers := []; swap_data := [];
     expected_profit := 5 * 10 ^ 14; gas_cost := 3000000;
     net_profit := 10 ^ 17; timestamp := t |}.

(** A scanner configured with the two tokens WETH and USDC
    ([TOKEN_LIST] of two addresses), on the CPU path. *)
Definition two_token_scanner : ArbitrageScanner :=
  ArbitrageScanner_init default_config without_cupy [WETH; USDC].

Definition executor_0 : ArbitrageExecutor :=
  {| exec_config := default_config; current_rpc_index := 0; nonce := 42;
     pending_txs := []; executing := true; sent := []; log := [] |}.

(** A node without EIP-1559 base fee, gas price 1 gwei, whose gas
    estimation of the built transaction fails. *)
Definition node_legacy : rpc :=
  {| get_block_latest := Ok {| number := 1; baseFeePerGas := None |};
     eth_gas_price := Ok (10 ^ 9);
     balanceOf_call := fun _ => Ok 0;
     contract_estimate_gas := fun _ => Ok 300000;
     build_transaction := fun _ => Ok tt;
     eth_estimate_gas := fun _ => Raise (RpcError false);
     sign_transaction := fun _ => Ok "0xsigned"%string;
     send_raw_transaction := fun _ => Ok "0xhash"%string |}.

Definition sample_pending : pending_tx :=
  {| pending_route := stale_route 0; pending_timestamp := Z2SF 0; pending_nonce := 41 |}.

(** The route the accelerator path builds from [pool_Z] and [pool_C]. *)
Definition route_through_empty_pool : ArbitrageRoute :=
  {| token := WETH; amount_in := 10 ^ 18;
     dex_routers := [router uniswap_v2; router uniswap_v3];
     swap_data := [b_empty; b_empty];
     expected_profit := 664998663994656030720; gas_cost := 2000000;
     net_profit := 664998663994654064640; timestamp := 7 |}.

(** The route the CPU path finds through [pool_A] and back through
    [pool_B]. *)
Definition route_A_then_B : ArbitrageRoute :=
  {| token := WETH; amount_in := 10 ^ 18;
     dex_routers := [router uniswap_v2; router sushiswap];
     swap_data := [keccak_hex "0xA"; keccak_hex "0xB"];
     expected_profit := 984067703346028544; gas_cost := 3000000;
     net_profit := 984067703343028544; timestamp := 7 |}.

(** A chain on which every factory holds 150 pairs; pair [i] holds [i]
    WETH and [2 i] USDC, and the calls on the pairs with an index
    divisible by 7 fail. *)
Definition sample_chain : chain :=
  {| allPairsLength := fun _ => Ok 150;
     pair_at := fun _ i =>
       if i mod 7 =? 0 then Raise (RpcError false)
       else Ok {| pair_address := "0xpair"; pair_reserve0 := i; pair_reserve1 := 2 * i;
                  pair_token0 := WETH; pair_token1 := USDC |} |}.

(** An executor with three endpoints, currently on the second. *)
Definition executor_3_endpoints : ArbitrageExecutor :=
  {| exec_config :=
       {| min_profit_threshold := 10 ^ 16; max_gas_price_gwei := 100; use_gpu := false;
          chain_id := 8453;
          rpc_urls := ["https://a.example"; "https://b.example"; "https://c.example"]%string |};
     current_rpc_index := 1; nonce := 42; pending_txs := []; executing := true;
     sent := []; log := [] |}.

(** A route whose expected profit covers the default gas limit at
    1 gwei. *)
Definition good_route (t : Z) : ArbitrageRoute :=
  {| token := WETH; amount_in := 10 ^ 18; dex_routers := []; swap_data := [];
     expected_profit := 10 ^ 17; gas_cost := 3000000;
     net_profit := 10 ^ 17 - 3000000; timestamp := t |}.

(** The entry the execution loop records for [good_route 0] at time 10. *)
Definition good_pending : pending_tx :=
  {| pending_route := good_route 0; pending_timestamp := Z2SF 10; pending_nonce := 42 |}.

(** A node that holds 5000 units of every token for the contract and
    accepts the withdrawal. *)
Definition node_withdraw : withdraw_node :=
  {| token_balance := fun _ => Ok 5000;
     format_balance := fun _ => Ok tt;
     emergencyWithdraw := fun _ => Ok tt;
     build_withdrawal := fun _ => Ok tt;
     sign_withdrawal := fun _ => Ok "0xsignedwithdrawal"%string;
     send_withdrawal := fun _ => Ok "0xwithdrawalhash"%string |}.

(** The withdrawal [executor_0] builds on [node_legacy]. *)
Definition sample_withdrawal : withdraw_transaction :=
  {| wd_token := WETH; wd_nonce := 42; wd_gas := 150000;
     wd_maxFeePerGas := 10 ^ 9; wd_maxPriorityFeePerGas := 2 * 10 ^ 9;
     wd_chainId := 8453 |}.

(** A signer and node that accept every replacement transaction. *)
Definition node_stop : stop_node :=
  {| sign_cancel := fun _ => Ok "0xsignedcancel"%string;
     send_cancel := fun _ => Ok "0xcancelhash"%string |}.

Definition executor_with_pending : ArbitrageExecutor :=
  {| exec_config := default_config; current_rpc_index := 0; nonce := 42;
     pending_txs := [("0xhash"%string, sample_pending)]; executing := true;
     sent := []; log := [] |}.

(** A node that has no receipt yet for any hash. *)
Definition node_no_receipts : monitor_node :=
  {| get_transaction_receipt := fun _ => Raise (RpcError false);
     from_wei_ether := fun _ => Ok tt |}.

(** An environment with two endpoints, a key and a contract address. *)
Definition sample_environ : list (string * string) :=
  [("RPC_URLS", "https://a.example,https://b.example");
   ("PRIVATE_KEY", "0xkey"); ("CONTRACT_ADDRESS", "0xcontract")]%string.

(** The transaction [executor_0] prepares for [good_route 0] on
    [node_legacy]. *)
Definition sample_transaction : transaction :=
  {| tx_route := good_route 0; tx_nonce := 42; tx_gas := 600000;
     maxFeePerGas := 10 ^ 9; maxPriorityFeePerGas := 10 ^ 8; tx_chainId := 8453 |}.

(** The answers of a pair contract that make the pool [p] of a V2-style
    DEX. *)
Definition pair_of (p : pool) : pair_data :=
  {| pair_address := dflt (address p) EmptyString;
     pair_reserve0 := dflt (reserve0 p) 0; pair_reserve1 := dflt (reserve1 p) 0;
     pair_token0 := dflt (token0 p) EmptyString;
     pair_token1 := dflt (token1 p) EmptyString |}.

(** A chain on which the uniswap_v2 factory holds the one pair of [p1],
    the sushiswap factory the one pair of [p2], and the other factories
    hold no pair. *)
Definition chain_of (p1 p2 : pool) : chain :=
  {| allPairsLength := fun f =>
       if String.eqb f (factory uniswap_v2) then Ok 1
       else if String.eqb f (factory sushiswap) then Ok 1
       else Ok 0;
     pair_at := fun f _ =>
       if String.eqb f (factory uniswap_v2) then Ok (pair_of p1) else Ok (pair_of p2) |}.

Definition chain_A_B : chain := chain_of pool_A pool_B.
Definition chain_Z_C : chain := chain_of pool_Z pool_C.

(** The two-token scanner after it has analysed 128 blocks of
    [chain_A_B], at the clock readings 0 to 127, with no route taken from
    the channel, and after it has analysed one more block. *)
Definition scanner_with_backlog : ArbitrageScanner :=
  match fst (scan_new_entries chain_A_B two_token_scanner (range 0 128)) with
  | Some s => s
  | None => two_token_scanner
  end.

Definition scanner_after_next_block : ArbitrageScanner :=
  match fst (scan_blocks_step chain_A_B scanner_with_backlog 128) with
  | Some s => s
  | None => scanner_with_backlog
  end.

(** ** Rounding to nearest even, as arithmetic on [Z] and [R] *)

(** The integer nearest to [N / D], ties to the even one. *)
Definition rne (N D : Z) : Z :=
  let q := N / D in
  match 2 * (N mod D) ?= D with
  | Lt => q
  | Gt => q + 1
  | Eq => if Z.even q then q else q + 1
  end.

(** The shift record [mrs] brackets [N / D]: its mantissa is the floor,
    its round bit tells whether the rest reaches one half, its sticky bit
    whether anything lies beyond the round bit. *)
Definition brk (N D : Z) (mrs : shr_record) : Prop :=
  shr_m mrs = N / D /\
  shr_r mrs = (D <=? 2 * (N mod D)) /\
  shr_s mrs = negb ((2 * N) mod D =? 0).

(** The double with the rounded mantissa [m] at exponent [E]: a mantissa
    that rounded up to [2^53] moves to the next binade, an exponent out of
    range gives infinity. *)
Definition mkf (m E : Z) : spec_float :=
  match m with
  | Z0 => S754_zero false
  | Zpos p =>
      if m =? 2 ^ 53 then
        (if E + 1 <=? emax - prec then S754_finite false (2 ^ 52)%positive (E + 1)
         else S754_infinity false)
      else if E <=? emax - prec then S754_finite false p E else S754_infinity false
  | Zneg _ => S754_nan
  end.

(** [2^e] as a real number. *)
Definition bpow (e : Z) : R := powerRZ 2 e.

(** The real value of a finite double (0 for the others). *)
Definition F2R (f : spec_float) : R :=
  match f with
  | S754_finite s m e => (IZR (cond_Zopp s (Zpos m)) * bpow e)%R
  | _ => 0%R
  end.

(** The value with [+inf] placed at [2^1024], above every finite
    double. *)
Definition xval (f : spec_float) : R :=
  match f with
  | S754_infinity false => bpow 1024
  | _ => F2R f
  end.

(** [r] is the positive real [v] rounded to binary64, to nearest with
    ties to even: [v = w * 2^E] at the exponent [E] of its binade (or the
    subnormal one), and [r] is made of the integer [m] nearest to [w]. *)
Definition rounds (v : R) (r : spec_float) : Prop :=
  exists (m E : Z) (w : R),
    (v = w * bpow E)%R /\ -1074 <= E /\
    (w < IZR (2 ^ 53))%R /\ (-1074 < E -> (IZR (2 ^ 52) <= w)%R) /\
    (IZR m - / 2 <= w <= IZR m + / 2)%R /\
    ((w = IZR m - / 2 \/ w = IZR m + / 2)%R -> Z.even m = true) /\
    r = mkf m E.

(** Zero or a positive finite double in canonical form. *)
Definition nonneg_fin (f : spec_float) : bool :=
  match f with
  | S754_zero _ => true
  | S754_finite false m e => bounded prec emax m e
  | _ => false
  end.

(** The same or [+inf]. *)
Definition nonneg_ext (f : spec_float) : bool :=
  match f with
  | S754_infinity false => true
  | _ => nonneg_fin f
  end.

(** A positive finite double in canonical form. *)
Definition pos_fin (f : spec_float) : bool :=
  match f with
  | S754_finite false m e => bounded prec emax m e
  | _ => false
  end.

(** Rounding of a real that may be 0. *)
Definition rounds0 (v : R) (r : spec_float) : Prop :=
  (v = 0%R /\ exists s, r = S754_zero s) \/ ((0 < v)%R /\ rounds v r).

(** [_calculate_swap_output] from [numerator] on, with
    [a = amount_in_with_fee] and the reserves already converted. *)
Definition swap_tail (a r_in r_out : float) : result Z :=
  q <- truediv (fmul a r_out) (fadd r_in a) ;;
  int_of_float q.

(** One rounding step changes a normal value by a factor of at most
    [1 + 2^-52]. *)
Definition one_plus_eta : R := (1 + / IZR (2 ^ 52))%R.

(** [a] and [b] are within [k] rounding steps of each other. *)
Definition near (k : nat) (a b : R) : Prop :=
  (b <= a * one_plus_eta ^ k /\ a <= b * one_plus_eta ^ k)%R.

(** The double [2^k]. *)
Definition pow2f (k : Z) : spec_float := S754_finite false (2 ^ 52) (k - 52).

(** The fees of [dex_configs], each with the rational [fee_num / fee_den]
    that [1 - fee] stands for. *)
Definition configured_fee (f : float) (fee_num fee_den : Z) : Prop :=
  (f = f_0_003 /\ fee_num = 997 /\ fee_den = 1000) \/
  (f = f_0_0025 /\ fee_num = 9975 /\ fee_den = 10000).

(** * Properties *)

(** ** binary64 operations round correctly *)

Lemma digits2_pos_size p : digits2_pos p = Pos.size p.
Proof. induction p; simpl; congruence. Qed.

Lemma Zdigits2_bounds m : 0 < m -> 2 ^ (Zdigits2 m - 1) <= m < 2 ^ Zdigits2 m.
Proof.
  destruct m as [|p|p]; try lia. intros _. simpl Zdigits2.
  rewrite digits2_pos_size.
  pose proof (Pos.size_gt p) as Hgt. pose proof (Pos.size_le p) as Hle.
  split.
  - assert (H : (2 ^ Z.pos (Pos.size p) <= 2 * Z.pos p)).
    { change 2 with (Z.pos 2). rewrite <- Pos2Z.inj_pow. lia. }
    replace (Z.pos (Pos.size p)) with (Z.succ (Z.pos (Pos.size p) - 1)) in H by lia.
    rewrite Z.pow_succ_r in H by lia. lia.
  - change 2 with (Z.pos 2). rewrite <- Pos2Z.inj_pow. lia.
Qed.

Lemma brk_shr_1 N D mrs :
  0 <= N -> 0 < D -> brk N D mrs -> brk N (D * 2) (shr_1 mrs).
Proof.
  intros HN HD [Hm [Hr Hs]].
  destruct mrs as [m r s]. cbn [shr_m shr_r shr_s] in Hm, Hr, Hs.
  assert (Hdd : N / (D * 2) = (N / D) / 2) by (rewrite Z.div_div by lia; reflexivity).
  assert (Hmm : N mod (D * 2) = N mod D + D * ((N / D) mod 2)) by (apply Z.rem_mul_r; lia).
  assert (H2 : (2 * N) mod (D * 2) = 2 * (N mod D)).
  { rewrite (Z.mul_comm D 2). rewrite Z.mul_mod_distr_l by lia. reflexivity. }
  pose proof (Z.mod_pos_bound N D HD) as Hb.
  pose proof (Z.div_pos N D HN HD) as Hq.
  assert (Hs' : orb r s = negb ((2 * N) mod (D * 2) =? 0)).
  { rewrite H2, Hr, Hs.
    assert (H2N : (2 * N) mod D = (2 * (N mod D)) mod D)
      by (rewrite Zmult_mod_idemp_r; reflexivity).
    rewrite H2N.
    destruct (Z.leb_spec D (2 * (N mod D))) as [Hle|Hlt]; cbn [orb].
    - symmetry. apply negb_true_iff. apply Z.eqb_neq. lia.
    - rewrite Z.mod_small by lia. reflexivity. }
  assert (Hodd : forall b : bool, (N / D) mod 2 = (if b then 1 else 0) ->
                 b = (D * 2 <=? 2 * (N mod (D * 2)))).
  { intros b Hbb. rewrite Hmm, Hbb.
    destruct b; [symmetry; apply Z.leb_le | symmetry; apply Z.leb_gt]; nia. }
  unfold brk, shr_1.
  destruct m as [|[p|p|]|p]; simpl shr_m; simpl shr_r; simpl shr_s; try lia.
  - repeat split; try assumption.
    + rewrite Hdd, <- Hm. reflexivity.
    + apply (Hodd false). rewrite <- Hm. reflexivity.
  - repeat split; try assumption.
    + rewrite Hdd, <- Hm. rewrite Pos2Z.inj_xI.
      apply Z.div_unique with 1; lia.
    + apply (Hodd true). rewrite <- Hm. rewrite Pos2Z.inj_xI.
      symmetry. apply Z.mod_unique with (Z.pos p); lia.
  - repeat split; try assumption.
    + rewrite Hdd, <- Hm. rewrite Pos2Z.inj_xO.
      apply Z.div_unique with 0; lia.
    + apply (Hodd false). rewrite <- Hm. rewrite Pos2Z.inj_xO.
      symmetry. apply Z.mod_unique with (Z.pos p); lia.
  - repeat split; try assumption.
    + rewrite Hdd, <- Hm. reflexivity.
    + apply (Hodd true). rewrite <- Hm. reflexivity.
Qed.

Lemma pow2_xO p : 2 ^ Z.pos p~0 = 2 ^ Z.pos p * 2 ^ Z.pos p.
Proof. rewrite <- Z.pow_add_r by lia. f_equal. lia. Qed.

Lemma pow2_xI p : 2 ^ Z.pos p~1 = 2 * (2 ^ Z.pos p * 2 ^ Z.pos p).
Proof.
  rewrite <- Z.pow_add_r by lia. rewrite <- Z.pow_succ_r by lia. f_equal. lia.
Qed.

Lemma brk_iter_pos p : forall N D mrs,
  0 <= N -> 0 < D -> brk N D mrs -> brk N (D * 2 ^ Z.pos p) (iter_pos shr_1 p mrs).
Proof.
  induction p as [p IH|p IH|]; intros N D mrs HN HD H; simpl iter_pos.
  - assert (HP : 0 < 2 ^ Z.pos p) by (apply Z.pow_pos_nonneg; lia).
    assert (H1 := brk_shr_1 _ _ _ HN HD H).
    assert (HD2 : 0 < D * 2) by lia.
    assert (H2 := IH _ _ _ HN HD2 H1).
    assert (HD3 : 0 < D * 2 * 2 ^ Z.pos p) by nia.
    assert (H3 := IH _ _ _ HN HD3 H2).
    replace (D * 2 ^ Z.pos p~1) with (D * 2 * 2 ^ Z.pos p * 2 ^ Z.pos p); [assumption|].
    rewrite pow2_xI. ring.
  - assert (HP : 0 < 2 ^ Z.pos p) by (apply Z.pow_pos_nonneg; lia).
    assert (H2 := IH _ _ _ HN HD H).
    assert (HD3 : 0 < D * 2 ^ Z.pos p) by nia.
    assert (H3 := IH _ _ _ HN HD3 H2).
    replace (D * 2 ^ Z.pos p~0) with (D * 2 ^ Z.pos p * 2 ^ Z.pos p); [assumption|].
    rewrite pow2_xO. ring.
  - change (2 ^ 1) with 2. apply brk_shr_1; assumption.
Qed.

Lemma brk_round N D mrs :
  0 <= N -> 0 < D -> brk N D mrs ->
  round_nearest_even (shr_m mrs) (loc_of_shr_record mrs) = rne N D.
Proof.
  intros HN HD [Hm [Hr Hs]]. destruct mrs as [m r s]. cbn [shr_m shr_r shr_s] in *.
  unfold rne. rewrite <- Hm.
  pose proof (Z.mod_pos_bound N D HD) as Hb.
  assert (H2 : (2 * N) mod D = (2 * (N mod D)) mod D).
  { rewrite Zmult_mod_idemp_r. reflexivity. }
  rewrite H2 in Hs.
  destruct (Z.compare_spec (2 * (N mod D)) D) as [He|Hl|Hg].
  - assert (Hr' : r = true) by (rewrite Hr; apply Z.leb_le; lia).
    assert (Hs' : s = false).
    { rewrite Hs. rewrite He. rewrite Z.mod_same by lia. reflexivity. }
    rewrite Hr', Hs'. reflexivity.
  - assert (Hr' : r = false) by (rewrite Hr; apply Z.leb_gt; lia). rewrite Hr'.
    destruct s; reflexivity.
  - assert (Hr' : r = true) by (rewrite Hr; apply Z.leb_le; lia).
    assert (Hs' : s = true).
    { rewrite Hs. replace (2 * (N mod D)) with ((2 * (N mod D) - D) + 1 * D) by ring.
      rewrite Z.mod_add by lia. rewrite Z.mod_small by lia.
      destruct (Z.eqb_spec (2 * (N mod D) - D) 0); [lia | reflexivity]. }
    rewrite Hr', Hs'. reflexivity.
Qed.

Lemma rne_bounds N D : 0 < D ->
  2 * N - D <= 2 * D * rne N D <= 2 * N + D.
Proof.
  intros HD. unfold rne.
  pose proof (Z.mod_pos_bound N D HD) as Hb.
  pose proof (Z.div_mod N D ltac:(lia)) as Hdm.
  destruct (Z.compare_spec (2 * (N mod D)) D); [destruct (Z.even (N / D))|..]; nia.
Qed.

Lemma rne_tie_even N D : 0 < D ->
  (2 * D * rne N D = 2 * N - D \/ 2 * D * rne N D = 2 * N + D) -> Z.even (rne N D) = true.
Proof.
  intros HD. unfold rne.
  pose proof (Z.mod_pos_bound N D HD) as Hb.
  pose proof (Z.div_mod N D ltac:(lia)) as Hdm.
  destruct (Z.compare_spec (2 * (N mod D)) D) as [He|Hl|Hg].
  - destruct (Z.even (N / D)) eqn:Hev; intros _; [assumption|].
    rewrite Z.even_add, Hev. reflexivity.
  - intros [H|H]; exfalso; nia.
  - intros [H|H]; exfalso; nia.
Qed.

Lemma fexp_eq e : fexp prec emax e = Z.max (e - 53) (-1074).
Proof. reflexivity. Qed.

Lemma pow2_pos k : 0 <= k -> 0 < 2 ^ k.
Proof. intros. apply Z.pow_pos_nonneg; lia. Qed.

Lemma Zdigits2_le m k : 0 <= m < 2 ^ k -> 0 <= k -> Zdigits2 m <= k.
Proof.
  intros [H0 H1] Hk. destruct (Z.eq_dec m 0) as [->|Hne]; [simpl; lia|].
  destruct (Zdigits2_bounds m ltac:(lia)) as [Hlo _].
  destruct (Z_le_gt_dec (Zdigits2 m) k) as [|Hgt]; [assumption|exfalso].
  assert (2 ^ k <= 2 ^ (Zdigits2 m - 1)) by (apply Z.pow_le_mono_r; lia).
  lia.
Qed.

Lemma Zdigits2_nonneg m : 0 <= Zdigits2 m.
Proof. destruct m; simpl; lia. Qed.

Lemma shr_brk N D mrs e n :
  0 <= N -> 0 < D -> 0 <= n -> brk N D mrs ->
  brk N (D * 2 ^ n) (fst (shr mrs e n)) /\ snd (shr mrs e n) = e + n.
Proof.
  intros HN HD Hn H. unfold shr. destruct n as [|p|p]; try lia; cbn [fst snd].
  - rewrite Z.mul_1_r. split; [assumption|lia].
  - split; [apply brk_iter_pos; assumption|reflexivity].
Qed.

Lemma rne_range N D B : 0 < D -> 0 <= N < D * B -> 0 <= rne N D <= B.
Proof.
  intros HD [H0 H1]. pose proof (rne_bounds N D HD) as Hb. nia.
Qed.

Lemma round_aux_mkf N D m e l :
  0 <= N -> 0 < D -> brk N D (shr_record_of_loc m l) ->
  e <= fexp prec emax (Zdigits2 m + e) ->
  binary_round_aux prec emax false m e l =
  mkf (rne N (D * 2 ^ (fexp prec emax (Zdigits2 m + e) - e))) (fexp prec emax (Zdigits2 m + e)).
Proof.
  intros HN HD Hb Hk.
  set (E := fexp prec emax (Zdigits2 m + e)) in *.
  assert (HE : -1074 <= E) by (unfold E; rewrite fexp_eq; lia).
  assert (Hm : m = N / D) by (destruct Hb as [Hb _]; destruct l as [|[]]; exact Hb).
  assert (Hm0 : 0 <= m) by (rewrite Hm; apply Z.div_pos; lia).
  set (k := E - e) in *.
  assert (HP : 0 < 2 ^ k) by (apply pow2_pos; lia).
  unfold binary_round_aux, shr_fexp. fold E. fold k.
  destruct (shr_brk N D (shr_record_of_loc m l) e k HN HD ltac:(lia) Hb) as [Hb1 He1].
  destruct (shr (shr_record_of_loc m l) e k) as [mrs' e'] eqn:Hshr. cbn [fst snd] in Hb1, He1.
  assert (HD' : 0 < D * 2 ^ k) by nia.
  rewrite (brk_round N (D * 2 ^ k) mrs' HN HD' Hb1).
  set (m1 := rne N (D * 2 ^ k)).
  assert (He' : e' = E) by (unfold k in He1; lia). clear Hshr He1. rewrite He'. clear He' e'.
  assert (Hm1 : 0 <= m1 <= 2 ^ 53).
  { apply rne_range; [assumption|]. split; [assumption|].
    pose proof (Z.mod_pos_bound N D HD) as Hmod.
    pose proof (Z.div_mod N D ltac:(lia)) as Hdm. rewrite <- Hm in Hdm.
    assert (Hmk : m + 1 <= 2 ^ (k + 53)).
    { destruct (Z.eq_dec m 0) as [->|Hne].
      - assert (0 < 2 ^ (k + 53)) by (apply pow2_pos; lia). lia.
      - destruct (Zdigits2_bounds m ltac:(lia)) as [_ Hhi].
        assert (2 ^ Zdigits2 m <= 2 ^ (k + 53)).
        { apply Z.pow_le_mono_r; [lia|]. unfold k, E. rewrite fexp_eq. lia. }
        lia. }
    rewrite Z.pow_add_r in Hmk by lia. nia. }
  destruct (Z.eq_dec m1 (2 ^ 53)) as [Heq|Hne].
  - rewrite Heq. change (Zdigits2 (2 ^ 53)) with 54.
    replace (fexp prec emax (54 + E) - E) with 1 by (rewrite fexp_eq; lia).
    reflexivity.
  - assert (Hd1 : Zdigits2 m1 <= 53) by (apply Zdigits2_le; lia).
    assert (Hn : fexp prec emax (Zdigits2 m1 + E) - E <= 0) by (rewrite fexp_eq; lia).
    unfold shr. 
    destruct (fexp prec emax (Zdigits2 m1 + E) - E) as [|p|p] eqn:Hz; try lia.
    + cbn [shr_record_of_loc shr_m]. unfold mkf.
      destruct m1 as [|p1|p1]; try lia; [reflexivity|].
      destruct (Z.eqb_spec (Z.pos p1) (2 ^ 53)); [contradiction|reflexivity].
    + cbn [shr_record_of_loc shr_m]. unfold mkf.
      destruct m1 as [|p1|p1]; try lia; [reflexivity|].
      destruct (Z.eqb_spec (Z.pos p1) (2 ^ 53)); [contradiction|reflexivity].
Qed.

Lemma bpow_pos e : (0 < bpow e)%R.
Proof. apply powerRZ_lt. lra. Qed.

Lemma bpow_add a b : (bpow (a + b) = bpow a * bpow b)%R.
Proof. apply powerRZ_add. lra. Qed.

Lemma bpow_IZR k : 0 <= k -> bpow k = IZR (2 ^ k).
Proof.
  intros Hk. unfold bpow. rewrite <- (Z2Nat.id k Hk) at 1.
  rewrite <- pow_powerRZ. rewrite pow_IZR. rewrite Z2Nat.id by assumption. reflexivity.
Qed.

Lemma bpow_le a b : a <= b -> (bpow a <= bpow b)%R.
Proof.
  intros H. replace b with (a + (b - a)) by ring. rewrite bpow_add.
  rewrite (bpow_IZR (b - a)) by lia.
  assert (1 <= 2 ^ (b - a)) by (pose proof (pow2_pos (b - a) ltac:(lia)); lia).
  apply IZR_le in H0. pose proof (bpow_pos a). nra.
Qed.

Lemma bpow_lt a b : a < b -> (2 * bpow a <= bpow b)%R.
Proof.
  intros H. replace b with (a + 1 + (b - a - 1)) by ring. rewrite !bpow_add.
  rewrite (bpow_IZR (b - a - 1)) by lia. rewrite (bpow_IZR 1) by lia.
  assert (1 <= 2 ^ (b - a - 1)) by (pose proof (pow2_pos (b - a - 1) ltac:(lia)); lia).
  apply IZR_le in H0. pose proof (bpow_pos a). change (2 ^ 1) with 2. nra.
Qed.

Lemma round_aux_rounds N D m e l :
  0 <= N -> 0 < D -> brk N D (shr_record_of_loc m l) ->
  e <= fexp prec emax (Zdigits2 m + e) ->
  rounds (IZR N / IZR D * bpow e) (binary_round_aux prec emax false m e l).
Proof.
  intros HN HD Hb Hk.
  rewrite (round_aux_mkf N D m e l HN HD Hb Hk).
  set (E := fexp prec emax (Zdigits2 m + e)) in *.
  assert (HE : -1074 <= E) by (unfold E; rewrite fexp_eq; lia).
  assert (Hm : m = N / D) by (destruct Hb as [Hb _]; destruct l as [|[]]; exact Hb).
  assert (Hm0 : 0 <= m) by (rewrite Hm; apply Z.div_pos; lia).
  set (k := E - e) in *.
  assert (HP : 0 < 2 ^ k) by (apply pow2_pos; lia).
  assert (HD' : 0 < D * 2 ^ k) by nia.
  pose proof (Z.mod_pos_bound N D HD) as Hmod.
  pose proof (Z.div_mod N D ltac:(lia)) as Hdm. rewrite <- Hm in Hdm.
  set (w := (IZR N / IZR (D * 2 ^ k))%R).
  assert (HDr : (0 < IZR D)%R) by (apply IZR_lt; assumption).
  assert (HD'r : (0 < IZR (D * 2 ^ k))%R) by (apply IZR_lt; assumption).
  assert (Hw : (w * IZR (D * 2 ^ k) = IZR N)%R) by (unfold w; field; lra).
  exists (rne N (D * 2 ^ k)), E, w.
  split; [|split; [assumption|split; [|split; [|split; [|split; [|reflexivity]]]]]].
  - replace E with (e + k) at 1 by (unfold k; ring).
    rewrite bpow_add, (bpow_IZR k) by lia.
    unfold w. rewrite mult_IZR. rewrite mult_IZR in HD'r.
    assert (HPr : (0 < IZR (2 ^ k))%R) by (apply IZR_lt; assumption).
    field. lra.
  - assert (Hmk : m + 1 <= 2 ^ (k + 53)).
    { destruct (Z.eq_dec m 0) as [->|Hne].
      - assert (0 < 2 ^ (k + 53)) by (apply pow2_pos; lia). lia.
      - destruct (Zdigits2_bounds m ltac:(lia)) as [_ Hhi].
        assert (2 ^ Zdigits2 m <= 2 ^ (k + 53)).
        { apply Z.pow_le_mono_r; [lia|]. unfold k, E. rewrite fexp_eq. lia. }
        lia. }
    rewrite Z.pow_add_r in Hmk by lia.
    assert (HZ : N < D * 2 ^ k * 2 ^ 53) by nia.
    apply IZR_lt in HZ. rewrite (mult_IZR (D * 2 ^ k)) in HZ. nra.
  - intros HEn.
    assert (Hd : E = Zdigits2 m + e - 53) by (unfold E in *; rewrite fexp_eq in *; lia).
    assert (Hmpos : 0 < m).
    { destruct (Z.eq_dec m 0) as [Hz|Hz]; [|lia]. rewrite Hz in Hd. simpl in Hd. lia. }
    destruct (Zdigits2_bounds m Hmpos) as [Hlo _].
    replace (Zdigits2 m - 1) with (k + 52) in Hlo by (unfold k; lia).
    rewrite Z.pow_add_r in Hlo by lia.
    assert (HZ : D * 2 ^ k * 2 ^ 52 <= N) by nia.
    apply IZR_le in HZ. rewrite (mult_IZR (D * 2 ^ k)) in HZ. nra.
  - pose proof (rne_bounds N (D * 2 ^ k) HD') as [B1 B2].
    fold w. set (P := D * 2 ^ k) in *. clearbody w P.
    apply IZR_le in B1, B2.
    rewrite minus_IZR in B1. rewrite plus_IZR in B2.
    rewrite !mult_IZR in B1, B2.
    split; nra.
  - intros Ht. apply rne_tie_even; [assumption|].
    set (P := D * 2 ^ k) in *. clearbody w P.
    destruct Ht as [Ht|Ht]; [right|left]; apply eq_IZR;
      rewrite ?minus_IZR, ?plus_IZR, !mult_IZR; rewrite <- Hw, Ht; field.
Qed.

Lemma rounds_m_bounds v m E w :
  (0 <= v)%R -> (v = w * bpow E)%R -> (w < IZR (2 ^ 53))%R ->
  (-1074 < E -> (IZR (2 ^ 52) <= w)%R) ->
  (IZR m - / 2 <= w <= IZR m + / 2)%R ->
  (0 <= w)%R /\ 0 <= m <= 2 ^ 53 /\ (-1074 < E -> 2 ^ 52 <= m).
Proof.
  intros Hv Hvw Hw Hn [H1 H2].
  pose proof (bpow_pos E) as HB.
  assert (Hw0 : (0 <= w)%R) by nra.
  split; [assumption|]. split; [split|].
  - apply le_IZR. assert (IZR m > -1)%R by lra.
    destruct (Z_le_gt_dec 0 m) as [H0|H0]; [apply IZR_le; assumption|].
    assert (m <= -1) by lia. apply IZR_le in H3. lra.
  - destruct (Z_le_gt_dec m (2 ^ 53)) as [H0|H0]; [assumption|].
    assert (2 ^ 53 + 1 <= m) by lia. apply IZR_le in H. rewrite plus_IZR in H. lra.
  - intros HE. specialize (Hn HE).
    destruct (Z_le_gt_dec (2 ^ 52) m) as [H0|H0]; [assumption|].
    assert (m <= 2 ^ 52 - 1) by lia. apply IZR_le in H. rewrite minus_IZR in H. lra.
Qed.

Lemma bpow_plus_IZR E k : 0 <= k -> (bpow (E + k) = IZR (2 ^ k) * bpow E)%R.
Proof. intros. rewrite bpow_add, (bpow_IZR k) by assumption. ring. Qed.

Lemma xval_mkf m E :
  -1074 <= E -> 0 <= m <= 2 ^ 53 -> (-1074 < E -> 2 ^ 52 <= m) ->
  xval (mkf m E) = Rmin (IZR m * bpow E) (bpow 1024) /\ nonneg_ext (mkf m E) = true.
Proof.
  intros HE [Hm0 Hm1] Hn. pose proof (bpow_pos E) as HB.
  unfold mkf. destruct m as [|p|p]; try lia.
  - split; [|reflexivity]. simpl. rewrite Rmin_left; [ring|].
    pose proof (bpow_pos 1024). lra.
  - destruct (Z.eqb_spec (Z.pos p) (2 ^ 53)) as [Heq|Hne].
    + rewrite Heq. destruct (Z.leb_spec (E + 1) (emax - prec)) as [Hle|Hgt].
      * split.
        -- cbn [xval F2R cond_Zopp]. rewrite Rmin_left.
           ++ rewrite (bpow_plus_IZR E 1) by lia. change (2 ^ 1) with 2.
              change (Z.pos (2 ^ 52)) with (2 ^ 52).
              replace (IZR (2 ^ 53)) with (IZR (2 ^ 52) * 2)%R; [ring|].
              rewrite <- mult_IZR. reflexivity.
           ++ rewrite <- (bpow_plus_IZR E 53) by lia. apply bpow_le.
              unfold emax, prec in Hle. lia.
        -- cbn [nonneg_ext nonneg_fin]. unfold bounded, canonical_mantissa.
           change (Z.pos (digits2_pos (2 ^ 52))) with 53. rewrite fexp_eq.
           apply andb_true_intro. split; [apply Z.eqb_eq; lia|apply Z.leb_le; lia].
      * split; [|reflexivity]. cbn [xval]. rewrite Rmin_right; [reflexivity|].
        rewrite <- (bpow_plus_IZR E 53) by lia. apply bpow_le.
        unfold emax, prec in Hgt. lia.
    + assert (Hlt : Z.pos p < 2 ^ 53) by lia.
      destruct (Z.leb_spec E (emax - prec)) as [Hle|Hgt].
      * split.
        -- cbn [xval F2R cond_Zopp]. rewrite Rmin_left; [reflexivity|].
           apply IZR_lt in Hlt.
           assert (bpow (E + 53) <= bpow 1024)%R by (apply bpow_le; unfold emax, prec in Hle; lia).
           rewrite (bpow_plus_IZR E 53) in H by lia. nra.
        -- cbn [nonneg_ext nonneg_fin]. unfold bounded, canonical_mantissa.
           apply andb_true_intro. split; [|apply Z.leb_le; assumption].
           apply Z.eqb_eq. rewrite fexp_eq.
           assert (Hd : Zdigits2 (Z.pos p) <= 53) by (apply Zdigits2_le; lia).
           cbn [Zdigits2] in Hd.
           destruct (Z_le_gt_dec E (-1074)) as [HEl|HEg]; [lia|].
           specialize (Hn ltac:(lia)).
           destruct (Zdigits2_bounds (Z.pos p) ltac:(lia)) as [_ Hhi]. cbn [Zdigits2] in Hhi.
           assert (53 <= Z.pos (digits2_pos p)).
           { destruct (Z_le_gt_dec 53 (Z.pos (digits2_pos p))) as [|Hg]; [assumption|exfalso].
             assert (2 ^ Z.pos (digits2_pos p) <= 2 ^ 52) by (apply Z.pow_le_mono_r; lia). lia. }
           lia.
      * split; [|reflexivity]. cbn [xval]. rewrite Rmin_right; [reflexivity|].
        specialize (Hn ltac:(unfold emax, prec in Hgt; lia)).
        apply IZR_le in Hn.
        assert (bpow 1024 <= bpow (E + 52))%R by (apply bpow_le; unfold emax, prec in Hgt; lia).
        rewrite (bpow_plus_IZR E 52) in H by lia. nra.
Qed.

Lemma rounds_nonneg_ext v r : (0 <= v)%R -> rounds v r -> nonneg_ext r = true.
Proof.
  intros Hv (m & E & w & Hvw & HE & Hw & Hn & Hr & _ & ->).
  destruct (rounds_m_bounds v m E w Hv Hvw Hw Hn Hr) as (_ & Hm & Hm2).
  apply xval_mkf; assumption.
Qed.

Lemma rounds_mono v v' r r' :
  (0 <= v <= v')%R -> rounds v r -> rounds v' r' -> (xval r <= xval r')%R.
Proof.
  intros [Hv Hvv'] (m & E & w & Hvw & HE & Hw & Hn & Hr & Ht & ->)
         (m' & E' & w' & Hvw' & HE' & Hw' & Hn' & Hr' & Ht' & ->).
  destruct (rounds_m_bounds v m E w Hv Hvw Hw Hn Hr) as (Hw0 & Hm & Hm2).
  destruct (rounds_m_bounds v' m' E' w' ltac:(lra) Hvw' Hw' Hn' Hr') as (Hw0' & Hm' & Hm2').
  destruct (xval_mkf m E HE Hm Hm2) as [-> _].
  destruct (xval_mkf m' E' HE' Hm' Hm2') as [-> _].
  apply Rle_min_compat_r.
  pose proof (bpow_pos E) as HB. pose proof (bpow_pos E') as HB'.
  destruct (Z.lt_trichotomy E E') as [Hlt|[Heq|Hgt]].
  - pose proof (bpow_lt E E' Hlt) as Hb2.
    specialize (Hm2' ltac:(lia)).
    destruct Hm as [_ Hm]. apply IZR_le in Hm, Hm2'.
    replace (IZR (2 ^ 53)) with (2 * IZR (2 ^ 52))%R in Hm
      by (rewrite <- mult_IZR; reflexivity).
    assert (0 < IZR (2 ^ 52))%R by (apply IZR_lt; reflexivity).
    nra.
  - subst E'. assert (Hww : (w <= w')%R) by nra.
    assert (Hmm : m <= m').
    { destruct (Z_le_gt_dec m m') as [|Hg]; [assumption|exfalso].
      assert (Hs : m' + 1 <= m) by lia. apply IZR_le in Hs. rewrite plus_IZR in Hs.
      assert (w = IZR m - / 2)%R by lra. assert (w' = IZR m' + / 2)%R by lra.
      specialize (Ht (or_introl H)). specialize (Ht' (or_intror H0)).
      assert (m = m' + 1).
      { apply eq_IZR. rewrite plus_IZR. lra. }
      subst m. rewrite Z.even_add, Ht' in Ht. discriminate. }
    apply IZR_le in Hmm. nra.
  - exfalso. pose proof (bpow_lt E' E ltac:(lia)) as Hb2.
    specialize (Hn ltac:(lia)).
    replace (IZR (2 ^ 53)) with (2 * IZR (2 ^ 52))%R in Hw'
      by (rewrite <- mult_IZR; reflexivity).
    assert (0 < IZR (2 ^ 52))%R by (apply IZR_lt; reflexivity).
    nra.
Qed.

Lemma iter_xO_val m d : Z.pos (Pos.iter xO m d) = Z.pos m * 2 ^ Z.pos d.
Proof.
  induction d as [|d IH] using Pos.peano_ind.
  - simpl. lia.
  - rewrite Pos.iter_succ. rewrite Pos2Z.inj_xO, IH.
    rewrite Pos2Z.inj_succ. rewrite Z.pow_succ_r by lia. ring.
Qed.

Lemma iter_xO_digits m d :
  Z.pos (digits2_pos (Pos.iter xO m d)) = Z.pos (digits2_pos m) + Z.pos d.
Proof.
  induction d as [|d IH] using Pos.peano_ind.
  - simpl. lia.
  - rewrite Pos.iter_succ. cbn [digits2_pos]. rewrite Pos2Z.inj_succ, IH. lia.
Qed.

Lemma shl_align_spec mx ex ex' :
  let mz := fst (shl_align mx ex ex') in
  let ez := snd (shl_align mx ex ex') in
  ez = Z.min ex ex' /\ Z.pos mz = Z.pos mx * 2 ^ (ex - ez) /\
  Z.pos (digits2_pos mz) + ez = Z.pos (digits2_pos mx) + ex.
Proof.
  unfold shl_align. destruct (ex' - ex) as [|d|d] eqn:Hd; cbn [fst snd].
  - replace (Z.min ex ex') with ex by lia. rewrite Z.sub_diag. repeat split; lia.
  - replace (Z.min ex ex') with ex by lia. rewrite Z.sub_diag. repeat split; lia.
  - replace (Z.min ex ex') with ex' by lia. split; [reflexivity|].
    replace (ex - ex') with (Z.pos d) by lia.
    rewrite iter_xO_val, iter_xO_digits. split; lia.
Qed.

Lemma brk_exact N : brk N 1 (shr_record_of_loc N loc_Exact).
Proof.
  unfold brk. cbn [shr_record_of_loc shr_m shr_r shr_s].
  rewrite Z.div_1_r, !Z.mod_1_r. repeat split.
Qed.

Lemma binary_round_rounds m e :
  rounds (IZR (Z.pos m) * bpow e) (binary_round prec emax false m e).
Proof.
  unfold binary_round.
  pose proof (shl_align_spec m e (fexp prec emax (Z.pos (digits2_pos m) + e))) as H.
  destruct (shl_align m e (fexp prec emax (Z.pos (digits2_pos m) + e))) as [mz ez].
  cbn [fst snd] in H. destruct H as (Hez & Hmz & Hdg).
  assert (Hk : ez <= fexp prec emax (Zdigits2 (Z.pos mz) + ez)).
  { cbn [Zdigits2]. rewrite Hdg. lia. }
  pose proof (round_aux_rounds (Z.pos mz) 1 (Z.pos mz) ez loc_Exact
                ltac:(lia) ltac:(lia) (brk_exact _) Hk) as HR.
  replace (IZR (Z.pos m) * bpow e)%R with (IZR (Z.pos mz) / IZR 1 * bpow ez)%R; [exact HR|].
  rewrite Hmz, mult_IZR. replace e with (ez + (e - ez)) at 2 by ring.
  rewrite bpow_add, (bpow_IZR (e - ez)) by lia. field.
Qed.

Lemma Z2SF_rounds z : 0 < z -> rounds (IZR z) (Z2SF z).
Proof.
  intros Hz. destruct z as [|p|p]; try lia. unfold Z2SF, binary_normalize.
  replace (IZR (Z.pos p)) with (IZR (Z.pos p) * bpow 0)%R by (unfold bpow; simpl; ring).
  apply binary_round_rounds.
Qed.

Lemma fadd_rounds x y :
  pos_fin x = true -> pos_fin y = true -> rounds (F2R x + F2R y) (fadd x y).
Proof.
  destruct x as [| | |[] mx ex]; try discriminate.
  destruct y as [| | |[] my ey]; try discriminate. intros _ _.
  unfold fadd, SFadd. cbn [cond_Zopp F2R].
  pose proof (shl_align_spec mx ex (Z.min ex ey)) as Hx.
  pose proof (shl_align_spec my ey (Z.min ex ey)) as Hy.
  cbn zeta in Hx, Hy. destruct Hx as (Hxe & Hxm & _). destruct Hy as (Hye & Hym & _).
  set (ez := Z.min ex ey) in *.
  rewrite <- Pos2Z.inj_add. unfold binary_normalize.
  match goal with |- rounds ?v (binary_round _ _ _ ?m ?e) =>
    replace v with (IZR (Z.pos m) * bpow e)%R; [apply binary_round_rounds|] end.
  rewrite Pos2Z.inj_add, plus_IZR, Hxm, Hym, !mult_IZR.
  replace (snd (shl_align mx ex ez)) with ez by lia.
  replace (snd (shl_align my ey ez)) with ez by lia.
  replace ex with (ez + (ex - ez)) at 2 by ring.
  replace ey with (ez + (ey - ez)) at 2 by ring.
  rewrite !bpow_add, (bpow_IZR (ex - ez)), (bpow_IZR (ey - ez)) by lia. ring.
Qed.

Lemma bounded_canonical m e :
  bounded prec emax m e = true ->
  e = Z.max (Z.pos (digits2_pos m) + e - 53) (-1074) /\ e <= 971.
Proof.
  unfold bounded, canonical_mantissa. rewrite fexp_eq. intros H.
  apply andb_prop in H. destruct H as [H1 H2].
  apply Z.eqb_eq in H1. apply Z.leb_le in H2. unfold emax, prec in H2. lia.
Qed.

Lemma digits_mul_ge a b :
  Z.pos (digits2_pos a) + Z.pos (digits2_pos b) - 1 <= Z.pos (digits2_pos (a * b)).
Proof.
  destruct (Zdigits2_bounds (Z.pos a) ltac:(lia)) as [Ha _].
  destruct (Zdigits2_bounds (Z.pos b) ltac:(lia)) as [Hb _].
  destruct (Zdigits2_bounds (Z.pos (a * b)) ltac:(lia)) as [_ Hab].
  cbn [Zdigits2] in *. rewrite Pos2Z.inj_mul in Hab.
  set (da := Z.pos (digits2_pos a)) in *. set (db := Z.pos (digits2_pos b)) in *.
  set (dab := Z.pos (digits2_pos (a * b))) in *.
  destruct (Z_le_gt_dec (da + db - 1) dab) as [|Hg]; [assumption|exfalso].
  assert (H : 2 ^ dab <= 2 ^ (da - 1 + (db - 1))) by (apply Z.pow_le_mono_r; lia).
  rewrite Z.pow_add_r in H by lia.
  assert (0 < 2 ^ (da - 1)) by (apply pow2_pos; lia).
  assert (0 < 2 ^ (db - 1)) by (apply pow2_pos; lia).
  nia.
Qed.

Lemma fmul_rounds x y :
  pos_fin x = true -> pos_fin y = true -> rounds (F2R x * F2R y) (fmul x y).
Proof.
  destruct x as [| | |[] mx ex]; try discriminate.
  destruct y as [| | |[] my ey]; try discriminate. cbn [pos_fin]. intros Hx Hy.
  apply bounded_canonical in Hx, Hy. destruct Hx as [Hx _]. destruct Hy as [Hy _].
  unfold fmul, SFmul. cbn [xorb F2R cond_Zopp].
  pose proof (digits_mul_ge mx my) as Hd.
  assert (Hk : ex + ey <= fexp prec emax (Zdigits2 (Z.pos (mx * my)) + (ex + ey))).
  { rewrite fexp_eq. cbn [Zdigits2]. lia. }
  pose proof (round_aux_rounds (Z.pos (mx * my)) 1 (Z.pos (mx * my)) (ex + ey) loc_Exact
                ltac:(lia) ltac:(lia) (brk_exact _) Hk) as HR.
  replace (IZR (Z.pos mx) * bpow ex * (IZR (Z.pos my) * bpow ey))%R
    with (IZR (Z.pos (mx * my)) / IZR 1 * bpow (ex + ey))%R; [exact HR|].
  rewrite Pos2Z.inj_mul, mult_IZR, bpow_add. field.
Qed.

Lemma brk_new_location N D :
  0 <= N -> 0 < D -> brk N D (shr_record_of_loc (N / D) (new_location D (N mod D))).
Proof.
  intros HN HD. pose proof (Z.mod_pos_bound N D HD) as Hb.
  assert (H2 : (2 * N) mod D = (2 * (N mod D)) mod D)
    by (rewrite Zmult_mod_idemp_r; reflexivity).
  assert (Hloc : new_location D (N mod D) =
                 if N mod D =? 0 then loc_Exact
                 else loc_Inexact (2 * (N mod D) ?= D)).
  { unfold new_location, new_location_even, new_location_odd.
    destruct (Z.even D) eqn:Hev; [reflexivity|].
    destruct (N mod D =? 0); [reflexivity|]. f_equal.
    destruct (Z.compare_spec (2 * (N mod D) + 1) D) as [He|Hl|Hg].
    - symmetry. apply Z.compare_lt_iff. lia.
    - symmetry. apply Z.compare_lt_iff. lia.
    - symmetry. apply Z.compare_gt_iff.
      assert (D <> 2 * (N mod D)).
      { intros Heq. rewrite Heq in Hev. rewrite Z.even_mul in Hev. discriminate. }
      lia. }
  rewrite Hloc. unfold brk.
  destruct (Z.eqb_spec (N mod D) 0) as [Hz|Hnz].
  - cbn [shr_record_of_loc shr_m shr_r shr_s]. rewrite H2, Hz.
    split; [reflexivity|split].
    + symmetry. apply Z.leb_gt. lia.
    + rewrite Z.mod_0_l by lia. reflexivity.
  - destruct (Z.compare_spec (2 * (N mod D)) D) as [He|Hl|Hg];
      cbn [shr_record_of_loc shr_m shr_r shr_s]; rewrite H2; (split; [reflexivity|split]).
    + symmetry. apply Z.leb_le. lia.
    + rewrite He, Z.mod_same by lia. reflexivity.
    + symmetry. apply Z.leb_gt. lia.
    + rewrite Z.mod_small by lia. symmetry. apply negb_true_iff. apply Z.eqb_neq. lia.
    + symmetry. apply Z.leb_le. lia.
    + replace (2 * (N mod D)) with ((2 * (N mod D) - D) + 1 * D) by ring.
      rewrite Z.mod_add by lia. rewrite Z.mod_small by lia.
      symmetry. apply negb_true_iff. apply Z.eqb_neq. lia.
Qed.

Lemma fdiv_rounds x y :
  pos_fin x = true -> pos_fin y = true -> rounds (F2R x / F2R y) (fdiv x y).
Proof.
  destruct x as [| | |[] mx ex]; try discriminate.
  destruct y as [| | |[] my ey]; try discriminate. intros _ _.
  unfold fdiv, SFdiv, SFdiv_core_binary. cbn [xorb F2R cond_Zopp Zdigits2].
  set (d1 := Z.pos (digits2_pos mx)). set (d2 := Z.pos (digits2_pos my)).
  set (e' := Z.min (fexp prec emax (d1 + ex - (d2 + ey))) (ex - ey)).
  set (s := ex - ey - e').
  assert (Hs : 0 <= s) by (unfold s, e'; lia).
  assert (Hm' : match s with
                | 0 => Z.pos mx | Z.pos _ => Z.shiftl (Z.pos mx) s | Z.neg _ => 0
                end = Z.pos mx * 2 ^ s).
  { destruct s as [|p|p] eqn:Hsp; try lia.
    - rewrite Z.shiftl_mul_pow2 by lia. reflexivity. }
  rewrite Hm'. set (N := Z.pos mx * 2 ^ s).
  assert (HP : 0 < 2 ^ s) by (apply pow2_pos; assumption).
  assert (HN : 0 <= N) by (unfold N; nia).
  unfold Z.div_eucl at 1. fold (Z.div_eucl N (Z.pos my)).
  pose proof (brk_new_location N (Z.pos my) HN ltac:(lia)) as Hb.
  unfold Z.div, Z.modulo in Hb.
  destruct (Z.div_eucl N (Z.pos my)) as [q r] eqn:Hqr.
  assert (Hq : q = N / Z.pos my) by (unfold Z.div; rewrite Hqr; reflexivity).
  assert (Hk : e' <= fexp prec emax (Zdigits2 q + e')).
  { rewrite fexp_eq. destruct (Z_le_gt_dec e' (-1074)) as [|He]; [lia|].
    assert (HF : e' <= d1 + ex - (d2 + ey) - 53).
    { unfold e' in *. rewrite fexp_eq in *. lia. }
    assert (Hs2 : d2 - d1 + 53 <= s) by (unfold s; lia).
    destruct (Zdigits2_bounds (Z.pos mx) ltac:(lia)) as [Hx _].
    destruct (Zdigits2_bounds (Z.pos my) ltac:(lia)) as [_ Hy].
    cbn [Zdigits2] in Hx, Hy. fold d1 in Hx. fold d2 in Hy.
    assert (Hq52 : 2 ^ 52 <= q).
    { rewrite Hq. apply Z.div_le_lower_bound; [lia|].
      assert (H1 : 2 ^ (d2 + 52) <= 2 ^ (d1 - 1 + s)) by (apply Z.pow_le_mono_r; lia).
      rewrite !Z.pow_add_r in H1 by (unfold d1, d2; lia).
      assert (0 < 2 ^ 52) by reflexivity.
      unfold N. nia. }
    assert (53 <= Zdigits2 q).
    { destruct (Zdigits2_bounds q ltac:(lia)) as [_ Hhi].
      destruct (Z_le_gt_dec 53 (Zdigits2 q)) as [|Hg]; [assumption|exfalso].
      assert (2 ^ Zdigits2 q <= 2 ^ 52).
      { apply Z.pow_le_mono_r; [lia|lia]. }
      lia. }
    lia. }
  pose proof (round_aux_rounds N (Z.pos my) q e' _ HN ltac:(lia) Hb Hk) as HR.
  replace (IZR (Z.pos mx) * bpow ex / (IZR (Z.pos my) * bpow ey))%R
    with (IZR N / IZR (Z.pos my) * bpow e')%R; [exact HR|].
  assert (Hex : bpow ex = (bpow ey * bpow e' * IZR (2 ^ s))%R).
  { rewrite <- (bpow_IZR s), <- !bpow_add by lia. f_equal. unfold s. ring. }
  unfold N. rewrite mult_IZR, Hex.
  pose proof (bpow_pos ey). assert (0 < IZR (Z.pos my))%R by (apply IZR_lt; lia).
  field. lra.
Qed.

(** ** Shapes, values and truncation *)

Lemma bpow_neg_IZR k : 0 <= k -> bpow (- k) = (/ IZR (2 ^ k))%R.
Proof.
  intros Hk. assert (H : (bpow (- k) * bpow k = 1)%R).
  { rewrite <- bpow_add. replace (- k + k) with 0 by ring. reflexivity. }
  rewrite (bpow_IZR k Hk) in H.
  assert (0 < IZR (2 ^ k))%R by (apply IZR_lt, pow2_pos; assumption).
  apply Rmult_eq_reg_r with (IZR (2 ^ k)); [|lra]. rewrite H. field. lra.
Qed.

Lemma nonneg_ext_cases f :
  nonneg_ext f = true ->
  (exists s, f = S754_zero s) \/ pos_fin f = true \/ f = S754_infinity false.
Proof.
  destruct f as [s|[]| |[] m e]; cbn; intros H; try discriminate.
  - left. exists s. reflexivity.
  - right. right. reflexivity.
  - right. left. assumption.
Qed.

Lemma pos_fin_nonneg_fin f : pos_fin f = true -> nonneg_fin f = true.
Proof. destruct f as [| | |[] m e]; cbn; intros H; try discriminate; assumption. Qed.

Lemma nonneg_fin_cases f :
  nonneg_fin f = true -> (exists s, f = S754_zero s) \/ pos_fin f = true.
Proof.
  destruct f as [s|[]| |[] m e]; cbn; intros H; try discriminate.
  - left. exists s. reflexivity.
  - right. assumption.
Qed.

Lemma F2R_pos_fin f : pos_fin f = true -> (0 < F2R f)%R.
Proof.
  destruct f as [| | |[] m e]; cbn; intros H; try discriminate.
  pose proof (bpow_pos e). assert (0 < IZR (Z.pos m))%R by (apply IZR_lt; lia). nra.
Qed.

Lemma xval_pos_fin f : pos_fin f = true -> xval f = F2R f.
Proof. destruct f as [| | |[] m e]; cbn; intros H; try discriminate; reflexivity. Qed.

Lemma F2R_lt_bpow_emax f : pos_fin f = true -> (F2R f < bpow 1024)%R.
Proof.
  destruct f as [| | |[] m e]; cbn [pos_fin]; intros H; try discriminate.
  apply bounded_canonical in H. destruct H as [Hc He].
  assert (Hd : Z.pos (digits2_pos m) <= 53) by lia.
  destruct (Zdigits2_bounds (Z.pos m) ltac:(lia)) as [_ Hhi]. cbn [Zdigits2] in Hhi.
  assert (Hm : Z.pos m < 2 ^ 53).
  { assert (2 ^ Z.pos (digits2_pos m) <= 2 ^ 53) by (apply Z.pow_le_mono_r; lia). lia. }
  apply IZR_lt in Hm. cbn [F2R cond_Zopp].
  assert (Hb : (bpow (e + 53) <= bpow 1024)%R) by (apply bpow_le; lia).
  rewrite (bpow_plus_IZR e 53) in Hb by lia. pose proof (bpow_pos e). nra.
Qed.

Lemma rounds_self f : pos_fin f = true -> rounds (F2R f) f.
Proof.
  destruct f as [| | |[] m e]; cbn [pos_fin]; intros H; try discriminate.
  apply bounded_canonical in H. destruct H as [Hc He].
  destruct (Zdigits2_bounds (Z.pos m) ltac:(lia)) as [Hlo Hhi]. cbn [Zdigits2] in Hlo, Hhi.
  assert (Hm : Z.pos m < 2 ^ 53).
  { assert (2 ^ Z.pos (digits2_pos m) <= 2 ^ 53) by (apply Z.pow_le_mono_r; lia). lia. }
  exists (Z.pos m), e, (IZR (Z.pos m)).
  split; [reflexivity|]. split; [lia|]. split; [apply IZR_lt; assumption|].
  split; [|split; [lra|split]].
  - intros Hn. apply IZR_le.
    replace (Z.pos (digits2_pos m)) with 53 in Hlo by lia. exact Hlo.
  - intros [Ht|Ht]; lra.
  - unfold mkf. destruct (Z.eqb_spec (Z.pos m) (2 ^ 53)) as [Heq|_]; [lia|].
    destruct (Z.leb_spec e (emax - prec)) as [_|Hgt]; [reflexivity|].
    unfold emax, prec in Hgt. lia.
Qed.

Lemma int_of_float_floor f :
  nonneg_fin f = true ->
  exists t, int_of_float f = Ok t /\ (IZR t <= F2R f < IZR t + 1)%R.
Proof.
  intros H. destruct (nonneg_fin_cases f H) as [[s ->]|Hp].
  - exists 0. split; [reflexivity|]. cbn. lra.
  - destruct f as [| | |[] m e]; try discriminate. cbn [int_of_float F2R cond_Zopp].
    destruct e as [|p|p].
    + exists (Z.pos m). split; [reflexivity|]. unfold bpow. cbn. lra.
    + exists (Z.pos m * 2 ^ Z.pos p). split; [reflexivity|].
      rewrite mult_IZR, <- bpow_IZR by lia. lra.
    + exists (Z.pos m / 2 ^ (- Z.neg p)). split; [reflexivity|].
      change (- Z.neg p) with (Z.pos p).
      assert (HP : 0 < 2 ^ Z.pos p) by (apply pow2_pos; lia).
      pose proof (Z.div_mod (Z.pos m) (2 ^ Z.pos p) ltac:(lia)) as Hdm.
      pose proof (Z.mod_pos_bound (Z.pos m) (2 ^ Z.pos p) HP) as Hmod.
      set (q := Z.pos m / 2 ^ Z.pos p) in *. set (r := Z.pos m mod 2 ^ Z.pos p) in *.
      assert (Hb : (bpow (Z.neg p) * IZR (2 ^ Z.pos p) = 1)%R).
      { rewrite <- bpow_IZR by lia. rewrite <- bpow_add.
        replace (Z.neg p + Z.pos p) with 0 by lia. reflexivity. }
      assert (HPr : (0 < IZR (2 ^ Z.pos p))%R) by (apply IZR_lt; assumption).
      pose proof (bpow_pos (Z.neg p)) as Hbp.
      assert (Hv : (IZR (Z.pos m) * bpow (Z.neg p) =
                    IZR q + IZR r * bpow (Z.neg p))%R).
      { rewrite Hdm, plus_IZR, mult_IZR. 
        replace ((IZR (2 ^ Z.pos p) * IZR q + IZR r) * bpow (Z.neg p))%R
          with (IZR q * (bpow (Z.neg p) * IZR (2 ^ Z.pos p)) + IZR r * bpow (Z.neg p))%R by ring.
        rewrite Hb. ring. }
      rewrite Hv. destruct Hmod as [Hr0 Hr1]. apply IZR_le in Hr0. apply IZR_lt in Hr1.
      split; [nra|].
      assert (IZR r * bpow (Z.neg p) < IZR (2 ^ Z.pos p) * bpow (Z.neg p))%R
        by (apply Rmult_lt_compat_r; assumption).
      nra.
Qed.

Lemma int_of_float_mono f f' t t' :
  nonneg_fin f = true -> nonneg_fin f' = true -> (F2R f <= F2R f')%R ->
  int_of_float f = Ok t -> int_of_float f' = Ok t' -> t <= t'.
Proof.
  intros H H' Hle Ht Ht'.
  destruct (int_of_float_floor f H) as (u & Hu & Hu1 & Hu2).
  destruct (int_of_float_floor f' H') as (u' & Hu' & Hu1' & Hu2').
  rewrite Ht in Hu. rewrite Ht' in Hu'. injection Hu as <-. injection Hu' as <-.
  destruct (Z_le_gt_dec t t') as [|Hg]; [assumption|exfalso].
  assert (Hs : t' + 1 <= t) by lia. apply IZR_le in Hs. rewrite plus_IZR in Hs. lra.
Qed.

Lemma int_of_float_nonneg f t :
  nonneg_fin f = true -> int_of_float f = Ok t -> 0 <= t.
Proof.
  intros H Ht. destruct (int_of_float_floor f H) as (u & Hu & Hu1 & Hu2).
  rewrite Ht in Hu. injection Hu as <-.
  assert (0 <= F2R f)%R.
  { destruct (nonneg_fin_cases f H) as [[s ->]|Hp]; [cbn; lra|].
    pose proof (F2R_pos_fin f Hp). lra. }
  destruct (Z_le_gt_dec 0 t) as [|Hg]; [assumption|exfalso].
  assert (Hs : t + 1 <= 0) by lia. apply IZR_le in Hs. rewrite plus_IZR in Hs. lra.
Qed.

Lemma int_of_float_ok_nonneg_ext f t :
  nonneg_ext f = true -> int_of_float f = Ok t -> nonneg_fin f = true.
Proof.
  intros H Ht. destruct (nonneg_ext_cases f H) as [[s ->]|[Hp| ->]].
  - reflexivity.
  - apply pos_fin_nonneg_fin. assumption.
  - discriminate.
Qed.

(** ** Subtraction, comparison and exactly representable values *)

Lemma fsub_rounds x y :
  pos_fin x = true -> pos_fin y = true -> (F2R y < F2R x)%R ->
  rounds (F2R x - F2R y) (fsub x y).
Proof.
  destruct x as [| | |[] mx ex]; try discriminate.
  destruct y as [| | |[] my ey]; try discriminate. intros _ _.
  unfold fsub, SFsub. cbn [cond_Zopp F2R].
  pose proof (shl_align_spec mx ex (Z.min ex ey)) as Hx.
  pose proof (shl_align_spec my ey (Z.min ex ey)) as Hy.
  cbn zeta in Hx, Hy. destruct Hx as (Hxe & Hxm & _). destruct Hy as (Hye & Hym & _).
  set (ez := Z.min ex ey) in *.
  set (ax := fst (shl_align mx ex ez)) in *. set (ay := fst (shl_align my ey ez)) in *.
  replace (snd (shl_align mx ex ez)) with ez in Hxm by lia.
  replace (snd (shl_align my ey ez)) with ez in Hym by lia.
  assert (Hvx : (IZR (Z.pos mx) * bpow ex = IZR (Z.pos ax) * bpow ez)%R).
  { rewrite Hxm, mult_IZR. replace ex with (ez + (ex - ez)) at 1 by ring.
    rewrite bpow_add, (bpow_IZR (ex - ez)) by lia. ring. }
  assert (Hvy : (IZR (Z.pos my) * bpow ey = IZR (Z.pos ay) * bpow ez)%R).
  { rewrite Hym, mult_IZR. replace ey with (ez + (ey - ez)) at 1 by ring.
    rewrite bpow_add, (bpow_IZR (ey - ez)) by lia. ring. }
  rewrite Hvx, Hvy. intros Hlt.
  assert (Hd : Z.pos ay < Z.pos ax).
  { apply lt_IZR. pose proof (bpow_pos ez). nra. }
  destruct (Z.pos ax - Z.pos ay) as [|d|d] eqn:Hdiff; try lia.
  unfold binary_normalize.
  replace (IZR (Z.pos ax) * bpow ez - IZR (Z.pos ay) * bpow ez)%R
    with (IZR (Z.pos d) * bpow ez)%R; [apply binary_round_rounds|].
  rewrite <- Hdiff, minus_IZR. ring.
Qed.

Lemma pos_fin_mantissa m e :
  bounded prec emax m e = true ->
  Z.pos m < 2 ^ 53 /\ (-1074 < e -> 2 ^ 52 <= Z.pos m) /\ -1074 <= e <= 971.
Proof.
  intros H. apply bounded_canonical in H. destruct H as [Hc He].
  destruct (Zdigits2_bounds (Z.pos m) ltac:(lia)) as [Hlo Hhi]. cbn [Zdigits2] in Hlo, Hhi.
  split; [|split; [|lia]].
  - assert (2 ^ Z.pos (digits2_pos m) <= 2 ^ 53) by (apply Z.pow_le_mono_r; lia). lia.
  - intros Hn. replace (Z.pos (digits2_pos m)) with 53 in Hlo by lia. exact Hlo.
Qed.

Lemma F2R_lt_of_exp_lt ma ea mb eb :
  bounded prec emax ma ea = true -> bounded prec emax mb eb = true -> ea < eb ->
  (IZR (Z.pos ma) * bpow ea < IZR (Z.pos mb) * bpow eb)%R.
Proof.
  intros Ha Hb Hlt.
  destruct (pos_fin_mantissa _ _ Ha) as (Ha1 & _ & Ha3).
  destruct (pos_fin_mantissa _ _ Hb) as (_ & Hb2 & _).
  specialize (Hb2 ltac:(lia)). apply IZR_lt in Ha1. apply IZR_le in Hb2.
  pose proof (bpow_lt ea eb Hlt) as H2. pose proof (bpow_pos ea).
  replace (IZR (2 ^ 53)) with (2 * IZR (2 ^ 52))%R in Ha1 by (rewrite <- mult_IZR; reflexivity).
  assert (0 < IZR (2 ^ 52))%R by (apply IZR_lt; reflexivity).
  nra.
Qed.

Lemma fltb_pos_fin a b :
  pos_fin a = true -> pos_fin b = true -> (fltb a b = true <-> (F2R a < F2R b)%R).
Proof.
  destruct a as [| | |[] ma ea]; try discriminate.
  destruct b as [| | |[] mb eb]; try discriminate. cbn [pos_fin F2R cond_Zopp].
  intros Ha Hb. unfold fltb, SFltb, SFcompare.
  destruct (Z.compare_spec ea eb) as [He|Hl|Hg].
  - subst eb. rewrite Pos.compare_cont_spec. cbn [Pos.switch_Eq].
    pose proof (bpow_pos ea) as HB.
    destruct (Pos.compare_spec ma mb) as [Hm|Hm|Hm]; cbn.
    + subst. split; [discriminate|lra].
    + split; [intros _|reflexivity].
      assert (IZR (Z.pos ma) < IZR (Z.pos mb))%R by (apply IZR_lt; lia). nra.
    + split; [discriminate|]. intros H.
      assert (IZR (Z.pos mb) < IZR (Z.pos ma))%R by (apply IZR_lt; lia). nra.
  - split; [intros _|reflexivity]. apply F2R_lt_of_exp_lt; assumption.
  - split; [discriminate|]. intros H.
    pose proof (F2R_lt_of_exp_lt mb eb ma ea Hb Ha Hg). lra.
Qed.

Lemma rounds_exact v r M e0 :
  rounds v r -> v = (IZR M * bpow e0)%R -> 0 < M < 2 ^ 53 -> -1074 <= e0 <= 971 ->
  pos_fin r = true /\ F2R r = v.
Proof.
  intros (m & E & w & Hvw & HE & Hw & Hn & Hr & _ & ->) Hv [HM0 HM1] He0.
  pose proof (bpow_pos E) as HB. pose proof (bpow_pos e0) as HB0.
  assert (HMr : (0 < IZR M < IZR (2 ^ 53))%R) by (split; apply IZR_lt; lia).
  assert (Hvpos : (0 < v)%R) by (rewrite Hv; nra).
  destruct (rounds_m_bounds v m E w ltac:(lra) Hvw Hw Hn Hr) as (Hw0 & Hm & Hm2).
  assert (HEle : E <= e0).
  { destruct (Z_le_gt_dec E e0) as [|Hg]; [assumption|exfalso].
    specialize (Hn ltac:(lia)).
    pose proof (bpow_lt e0 E ltac:(lia)) as H2.
    replace (IZR (2 ^ 53)) with (2 * IZR (2 ^ 52))%R in HMr by (rewrite <- mult_IZR; reflexivity).
    assert (0 < IZR (2 ^ 52))%R by (apply IZR_lt; reflexivity).
    nra. }
  assert (Hwk : w = IZR (M * 2 ^ (e0 - E))).
  { rewrite mult_IZR, <- bpow_IZR by lia.
    apply Rmult_eq_reg_r with (bpow E); [|lra].
    rewrite <- Hvw, Hv. rewrite Rmult_assoc, <- bpow_add. f_equal. f_equal. ring. }
  assert (Hmk : m = M * 2 ^ (e0 - E)).
  { rewrite Hwk in Hr. destruct Hr as [H1 H2].
    set (K := M * 2 ^ (e0 - E)) in *.
    destruct (Z.lt_trichotomy m K) as [Hl|[He|Hg]]; [exfalso|assumption|exfalso].
    - assert (Hs : m + 1 <= K) by lia. apply IZR_le in Hs. rewrite plus_IZR in Hs. lra.
    - assert (Hs : K + 1 <= m) by lia. apply IZR_le in Hs. rewrite plus_IZR in Hs. lra. }
  assert (Hraw : (IZR m * bpow E = v)%R) by (rewrite Hmk, <- Hwk; symmetry; assumption).
  assert (Hvlt : (v < bpow 1024)%R).
  { assert (bpow (e0 + 53) <= bpow 1024)%R by (apply bpow_le; lia).
    rewrite (bpow_plus_IZR e0 53) in H by lia. rewrite Hv. nra. }
  destruct (xval_mkf m E HE Hm Hm2) as [Hx Hne].
  rewrite Hraw, Rmin_left in Hx by lra.
  destruct (nonneg_ext_cases _ Hne) as [[s Hs]|[Hp|Hi]].
  - rewrite Hs in Hx. cbn [xval F2R] in Hx. lra.
  - split; [assumption|]. rewrite <- (xval_pos_fin _ Hp). assumption.
  - rewrite Hi in Hx. cbn [xval] in Hx. lra.
Qed.

Lemma Z2SF_exact z :
  0 < z < 2 ^ 53 -> pos_fin (Z2SF z) = true /\ F2R (Z2SF z) = IZR z.
Proof.
  intros Hz. apply (rounds_exact (IZR z) (Z2SF z) z 0).
  - apply Z2SF_rounds. lia.
  - unfold bpow. cbn. ring.
  - assumption.
  - lia.
Qed.

Lemma float_of_int_exact z :
  0 < z < 2 ^ 53 -> float_of_int z = Ok (Z2SF z).
Proof.
  intros Hz. destruct (Z2SF_exact z Hz) as [Hp _]. unfold float_of_int.
  destruct (Z2SF z) as [| | |[] m e]; try discriminate; reflexivity.
Qed.

Lemma xval_ge_of_rounds v r c :
  pos_fin c = true -> (F2R c <= v)%R -> rounds v r -> (F2R c <= xval r)%R.
Proof.
  intros Hc Hle Hr. pose proof (F2R_pos_fin c Hc) as Hpos.
  pose proof (rounds_mono (F2R c) v c r ltac:(lra) (rounds_self c Hc) Hr) as H.
  rewrite (xval_pos_fin c Hc) in H. exact H.
Qed.

Lemma xval_le_of_rounds v r c :
  pos_fin c = true -> (0 <= v <= F2R c)%R -> rounds v r -> (xval r <= F2R c)%R.
Proof.
  intros Hc Hle Hr.
  pose proof (rounds_mono v (F2R c) r c Hle Hr (rounds_self c Hc)) as H.
  rewrite (xval_pos_fin c Hc) in H. exact H.
Qed.

Lemma fltb_of_xval a r :
  pos_fin a = true -> nonneg_ext r = true -> (F2R a < xval r)%R -> fltb a r = true.
Proof.
  intros Ha Hr Hlt. destruct (nonneg_ext_cases r Hr) as [[s ->]|[Hp| ->]].
  - cbn [xval F2R] in Hlt. pose proof (F2R_pos_fin a Ha). lra.
  - apply fltb_pos_fin; try assumption. rewrite <- (xval_pos_fin r Hp). assumption.
  - destruct a as [| | |[] ma ea]; try discriminate. reflexivity.
Qed.

(** ** Operations on non-negative operands, zero included *)

Lemma F2R_nonneg_fin f : nonneg_fin f = true -> (0 <= F2R f)%R.
Proof.
  intros H. destruct (nonneg_fin_cases f H) as [[s ->]|Hp]; [cbn [F2R]; lra|].
  pose proof (F2R_pos_fin f Hp). lra.
Qed.

Lemma xval_nonneg_fin f : nonneg_fin f = true -> xval f = F2R f.
Proof.
  intros H. destruct (nonneg_fin_cases f H) as [[s ->]|Hp]; [reflexivity|].
  apply xval_pos_fin. assumption.
Qed.

Lemma xval_nonneg_ext f : nonneg_ext f = true -> (0 <= xval f)%R.
Proof.
  intros H. destruct (nonneg_ext_cases f H) as [[s ->]|[Hp| ->]].
  - cbn [xval F2R]. lra.
  - rewrite (xval_pos_fin f Hp). pose proof (F2R_pos_fin f Hp). lra.
  - cbn [xval]. pose proof (bpow_pos 1024). lra.
Qed.

Lemma nonneg_fin_ext f : nonneg_fin f = true -> nonneg_ext f = true.
Proof. destruct f as [|[]| |[] m e]; cbn; intros H; try discriminate; assumption. Qed.

Lemma rounds0_nonneg_ext v r : rounds0 v r -> nonneg_ext r = true.
Proof.
  intros [[_ [s ->]]|[Hv Hr]]; [reflexivity|].
  apply (rounds_nonneg_ext v r); [lra|assumption].
Qed.

Lemma rounds0_mono v v' r r' :
  (v <= v')%R -> rounds0 v r -> rounds0 v' r' -> (xval r <= xval r')%R.
Proof.
  intros Hle [[Hv [s ->]]|[Hv Hr]] H'.
  - cbn [xval F2R]. apply xval_nonneg_ext. exact (rounds0_nonneg_ext _ _ H').
  - destruct H' as [[Hv' _]|[Hv' Hr']]; [lra|].
    apply (rounds_mono v v'); [lra|assumption|assumption].
Qed.

Lemma fmul_rounds0 a b :
  nonneg_fin a = true -> nonneg_fin b = true -> rounds0 (F2R a * F2R b) (fmul a b).
Proof.
  intros Ha Hb.
  destruct (nonneg_fin_cases a Ha) as [[sa ->]|Hpa];
    destruct (nonneg_fin_cases b Hb) as [[sb ->]|Hpb].
  - left. split; [cbn [F2R]; ring|]. eexists. reflexivity.
  - left. split; [cbn [F2R]; ring|].
    destruct b as [| | |[] m e]; try discriminate. eexists. reflexivity.
  - left. split; [cbn [F2R]; ring|].
    destruct a as [| | |[] m e]; try discriminate. eexists. reflexivity.
  - right. pose proof (F2R_pos_fin a Hpa). pose proof (F2R_pos_fin b Hpb).
    split; [nra|]. apply fmul_rounds; assumption.
Qed.

Lemma fadd_rounds0 a b :
  nonneg_fin a = true -> pos_fin b = true -> rounds (F2R a + F2R b) (fadd a b) /\
  rounds (F2R b + F2R a) (fadd b a).
Proof.
  intros Ha Hb.
  destruct (nonneg_fin_cases a Ha) as [[sa ->]|Hpa].
  - destruct b as [| | |[] m e]; try discriminate.
    change (fadd (S754_zero sa) (S754_finite false m e)) with (S754_finite false m e).
    change (fadd (S754_finite false m e) (S754_zero sa)) with (S754_finite false m e).
    change (F2R (S754_zero sa)) with 0%R.
    rewrite Rplus_0_l, Rplus_0_r. split; apply rounds_self; assumption.
  - split; apply fadd_rounds; assumption.
Qed.

Lemma fdiv_rounds0 n d :
  nonneg_fin n = true -> pos_fin d = true -> rounds0 (F2R n / F2R d) (fdiv n d).
Proof.
  intros Hn Hd. pose proof (F2R_pos_fin d Hd) as Hdpos.
  destruct (nonneg_fin_cases n Hn) as [[sn ->]|Hpn].
  - left. split; [cbn [F2R]; field; lra|].
    destruct d as [| | |[] m e]; try discriminate. eexists. reflexivity.
  - right. pose proof (F2R_pos_fin n Hpn). split.
    + apply Rdiv_lt_0_compat; assumption.
    + apply fdiv_rounds; assumption.
Qed.


(** ** Relative error of correctly rounded operations *)

Lemma one_plus_eta_gt_1 : (1 < one_plus_eta)%R.
Proof.
  unfold one_plus_eta. assert (0 < / IZR (2 ^ 52))%R; [|lra].
  apply Rinv_0_lt_compat. apply IZR_lt. reflexivity.
Qed.

Lemma eta_pow_ge_1 k : (1 <= one_plus_eta ^ k)%R.
Proof. apply pow_R1_Rle. pose proof one_plus_eta_gt_1. lra. Qed.

Lemma eta_pow_le j k : (j <= k)%nat -> (one_plus_eta ^ j <= one_plus_eta ^ k)%R.
Proof. intros H. apply Rle_pow; [|assumption]. pose proof one_plus_eta_gt_1. lra. Qed.

Lemma near_refl a : (0 <= a)%R -> near 0 a a.
Proof. intros H. unfold near. simpl. lra. Qed.

Lemma near_sym k a b : near k a b -> near k b a.
Proof. unfold near. intros [H1 H2]. split; assumption. Qed.

Lemma near_weaken j k a b :
  (j <= k)%nat -> (0 <= a)%R -> (0 <= b)%R -> near j a b -> near k a b.
Proof.
  unfold near. intros Hjk Ha Hb [H1 H2]. pose proof (eta_pow_le j k Hjk) as Hp.
  pose proof (eta_pow_ge_1 j). split; nra.
Qed.

Lemma near_trans j k a b c :
  near j a b -> near k b c -> near (j + k) a c.
Proof.
  unfold near. intros [H1 H2] [H3 H4]. rewrite pow_add.
  pose proof (eta_pow_ge_1 j). pose proof (eta_pow_ge_1 k). split; nra.
Qed.

Lemma near_mul j k a b a' b' :
  (0 <= a)%R -> (0 <= b)%R -> (0 <= a')%R -> (0 <= b')%R ->
  near j a b -> near k a' b' -> near (j + k) (a * a') (b * b').
Proof.
  unfold near. intros Ha Hb Ha' Hb' [H1 H2] [H3 H4]. rewrite pow_add.
  pose proof (eta_pow_ge_1 j). pose proof (eta_pow_ge_1 k).
  split.
  - replace (a * a' * (one_plus_eta ^ j * one_plus_eta ^ k))%R
      with ((a * one_plus_eta ^ j) * (a' * one_plus_eta ^ k))%R by ring.
    apply Rmult_le_compat; assumption.
  - replace (b * b' * (one_plus_eta ^ j * one_plus_eta ^ k))%R
      with ((b * one_plus_eta ^ j) * (b' * one_plus_eta ^ k))%R by ring.
    apply Rmult_le_compat; assumption.
Qed.

Lemma near_add k a b a' b' :
  near k a b -> near k a' b' -> near k (a + a') (b + b').
Proof. unfold near. intros [H1 H2] [H3 H4]. split; nra. Qed.

Lemma near_inv k a b : (0 < a)%R -> (0 < b)%R -> near k a b -> near k (/ a) (/ b).
Proof.
  unfold near. intros Ha Hb [H1 H2]. pose proof (eta_pow_ge_1 k) as Hp.
  assert (Hia : (0 < / a)%R) by (apply Rinv_0_lt_compat; assumption).
  assert (Hib : (0 < / b)%R) by (apply Rinv_0_lt_compat; assumption).
  split.
  - apply Rmult_le_reg_r with (a * b)%R; [nra|].
    replace (/ b * (a * b))%R with a by (field; lra).
    replace (/ a * one_plus_eta ^ k * (a * b))%R with (b * one_plus_eta ^ k)%R by (field; lra).
    assumption.
  - apply Rmult_le_reg_r with (a * b)%R; [nra|].
    replace (/ a * (a * b))%R with b by (field; lra).
    replace (/ b * one_plus_eta ^ k * (a * b))%R with (a * one_plus_eta ^ k)%R by (field; lra).
    assumption.
Qed.

Lemma near_div j k a b a' b' :
  (0 <= a)%R -> (0 <= b)%R -> (0 < a')%R -> (0 < b')%R ->
  near j a b -> near k a' b' -> near (j + k) (a / a') (b / b').
Proof.
  intros Ha Hb Ha' Hb' H H'. unfold Rdiv.
  apply near_mul; try assumption.
  - apply Rlt_le, Rinv_0_lt_compat; assumption.
  - apply Rlt_le, Rinv_0_lt_compat; assumption.
  - apply near_inv; assumption.
Qed.

Lemma pow2f_spec k :
  -1022 <= k <= 1023 -> pos_fin (pow2f k) = true /\ F2R (pow2f k) = bpow k.
Proof.
  intros Hk. split.
  - unfold pow2f, pos_fin, bounded, canonical_mantissa.
    change (Z.pos (digits2_pos (2 ^ 52))) with 53. rewrite fexp_eq.
    apply andb_true_intro. split; [apply Z.eqb_eq; lia|apply Z.leb_le; unfold emax, prec; lia].
  - unfold pow2f. cbn [F2R cond_Zopp]. change (Z.pos (2 ^ 52)) with (2 ^ 52).
    rewrite <- (bpow_IZR 52) by lia. rewrite <- bpow_add. f_equal. ring.
Qed.

Lemma rounds_in_range v r klo khi :
  rounds v r -> (bpow klo <= v <= bpow khi)%R -> -1022 <= klo -> khi <= 1023 ->
  pos_fin r = true /\ near 1 (F2R r) v /\ (bpow klo <= F2R r <= bpow khi)%R.
Proof.
  intros Hr [Hlo Hhi] Hklo Hkhi.
  pose proof (bpow_pos klo) as Hplo.
  assert (Hk : klo <= khi).
  { destruct (Z_le_gt_dec klo khi) as [|Hg]; [assumption|exfalso].
    pose proof (bpow_lt khi klo ltac:(lia)). pose proof (bpow_pos khi). lra. }
  destruct (pow2f_spec klo ltac:(lia)) as [Hpl Hvl].
  destruct (pow2f_spec khi ltac:(lia)) as [Hph Hvh].
  pose proof (xval_ge_of_rounds v r (pow2f klo) Hpl ltac:(rewrite Hvl; lra) Hr) as Hge.
  pose proof (xval_le_of_rounds v r (pow2f khi) Hph ltac:(rewrite Hvh; lra) Hr) as Hle.
  rewrite Hvl in Hge. rewrite Hvh in Hle.
  pose proof (rounds_nonneg_ext v r ltac:(lra) Hr) as Hne.
  assert (Hp : pos_fin r = true).
  { destruct (nonneg_ext_cases r Hne) as [[s Hs]|[Hp|Hi]]; [|assumption|].
    - rewrite Hs in Hge. cbn [xval F2R] in Hge. lra.
    - rewrite Hi in Hle. cbn [xval] in Hle.
      pose proof (bpow_lt khi 1024 ltac:(lia)). pose proof (bpow_pos khi). lra. }
  rewrite (xval_pos_fin r Hp) in Hge, Hle.
  split; [assumption|]. split; [|lra].
  destruct Hr as (m & E & w & Hvw & HE & Hw & Hn & Hmw & _ & Hrm).
  destruct (rounds_m_bounds v m E w ltac:(lra) Hvw Hw Hn Hmw) as (Hw0 & Hm & Hm2).
  pose proof (bpow_pos E) as HB.
  assert (Hw52 : (IZR (2 ^ 52) <= w)%R).
  { destruct (Z_le_gt_dec E (-1074)) as [HEl|HEg]; [|apply Hn; lia].
    assert (E = -1074) by lia. subst E.
    assert (Hb : (bpow (-1022) <= v)%R).
    { pose proof (bpow_le (-1022) klo Hklo). lra. }
    replace (-1022) with (-1074 + 52) in Hb by reflexivity.
    rewrite (bpow_plus_IZR (-1074) 52) in Hb by lia. nra. }
  assert (Hraw : (F2R r = IZR m * bpow E)%R).
  { destruct (xval_mkf m E HE Hm Hm2) as [Hx _]. rewrite <- Hrm in Hx.
    rewrite (xval_pos_fin r Hp) in Hx. pose proof (F2R_lt_bpow_emax r Hp) as Hlt.
    destruct (Rle_dec (IZR m * bpow E) (bpow 1024)) as [Hc|Hc].
    - rewrite Rmin_left in Hx by assumption. assumption.
    - rewrite Rmin_right in Hx by lra. lra. }
  unfold near. rewrite pow_1. unfold one_plus_eta. rewrite Hraw, Hvw.
  assert (H52 : (IZR (2 ^ 52) = 4503599627370496)%R) by reflexivity.
  rewrite H52 in *. destruct Hmw as [Hm1 Hm2'].
  split.
  - replace (IZR m * bpow E * (1 + / 4503599627370496))%R
      with ((IZR m * (1 + / 4503599627370496)) * bpow E)%R by ring.
    apply Rmult_le_compat_r; [lra|]. lra.
  - replace (w * bpow E * (1 + / 4503599627370496))%R
      with ((w * (1 + / 4503599627370496)) * bpow E)%R by ring.
    apply Rmult_le_compat_r; [lra|]. lra.
Qed.

(** ** Conversions of Python ints *)

Lemma float_of_int_0 : float_of_int 0 = Ok (S754_zero false).
Proof. reflexivity. Qed.

Lemma rounds_ge_1_not_zero v r s :
  (1 <= v)%R -> rounds v r -> r <> S754_zero s.
Proof.
  intros Hv Hr ->.
  assert (H1 : pos_fin f_1 = true) by reflexivity.
  pose proof (rounds_mono 1 v f_1 (S754_zero s) ltac:(lra)) as Hm.
  assert (Hf1 : F2R f_1 = 1%R).
  { unfold f_1. cbn [F2R cond_Zopp]. change (-52) with (- (52)).
    rewrite bpow_neg_IZR by lia. change (2 ^ 52) with 4503599627370496. field. }
  rewrite <- Hf1 in Hm at 1. specialize (Hm (rounds_self f_1 H1) Hr).
  rewrite (xval_pos_fin f_1 H1), Hf1 in Hm. cbn in Hm. lra.
Qed.

Lemma float_of_int_pos z X :
  0 < z -> float_of_int z = Ok X -> pos_fin X = true /\ rounds (IZR z) X.
Proof.
  intros Hz H. pose proof (Z2SF_rounds z Hz) as Hr.
  assert (Hv : (1 <= IZR z)%R) by (apply IZR_le; lia).
  pose proof (rounds_nonneg_ext (IZR z) _ ltac:(lra) Hr) as Hn.
  unfold float_of_int in H.
  destruct (nonneg_ext_cases _ Hn) as [[s Hs]|[Hp|Hi]].
  - exfalso. exact (rounds_ge_1_not_zero _ _ s Hv Hr Hs).
  - destruct (Z2SF z) eqn:Hzf; try discriminate; injection H as <-; split; assumption.
  - rewrite Hi in H. discriminate.
Qed.

Lemma float_of_int_nonneg z X :
  0 <= z -> float_of_int z = Ok X ->
  (z = 0 /\ X = S754_zero false) \/ (0 < z /\ pos_fin X = true /\ rounds (IZR z) X).
Proof.
  intros Hz H. destruct (Z.eq_dec z 0) as [->|Hne].
  - left. rewrite float_of_int_0 in H. injection H as <-. split; reflexivity.
  - right. split; [lia|]. apply float_of_int_pos; [lia|assumption].
Qed.

(** ** The swap output at a zero reserve or a zero input *)

Lemma swap_output_zero_reserve_in x r f : _calculate_swap_output x 0 r f = Ok 0.
Proof. reflexivity. Qed.

Lemma swap_output_zero_reserve_out x r f : _calculate_swap_output x r 0 f = Ok 0.
Proof. unfold _calculate_swap_output. rewrite orb_true_r. reflexivity. Qed.


Lemma float_of_int_rounds0 z X :
  0 <= z -> float_of_int z = Ok X -> nonneg_fin X = true /\ rounds0 (IZR z) X.
Proof.
  intros Hz H. destruct (float_of_int_nonneg z X Hz H) as [[-> ->]|(Hpos & Hp & Hr)].
  - split; [reflexivity|]. left. split; [reflexivity|]. eexists. reflexivity.
  - split; [apply pos_fin_nonneg_fin; assumption|]. right. split; [|assumption].
    apply IZR_lt. assumption.
Qed.

Lemma float_of_int_mono z z' X X' :
  0 <= z <= z' -> float_of_int z = Ok X -> float_of_int z' = Ok X' ->
  (F2R X <= F2R X')%R.
Proof.
  intros [Hz Hzz] H H'.
  destruct (float_of_int_rounds0 z X Hz H) as [Hn Hr].
  destruct (float_of_int_rounds0 z' X' ltac:(lia) H') as [Hn' Hr'].
  rewrite <- (xval_nonneg_fin X Hn), <- (xval_nonneg_fin X' Hn').
  apply (rounds0_mono (IZR z) (IZR z')); [apply IZR_le|assumption|assumption]. assumption.
Qed.

(** ** The swap output after the conversions *)

Lemma swap_output_tail x ri ro f y :
  ri <> 0 -> ro <> 0 ->
  _calculate_swap_output x ri ro f = Ok y ->
  exists X Ro Ri,
    float_of_int x = Ok X /\ float_of_int ro = Ok Ro /\ float_of_int ri = Ok Ri /\
    swap_tail (fmul X (fsub f_1 f)) Ri Ro = Ok y.
Proof.
  intros Hri Hro. unfold _calculate_swap_output, swap_tail.
  apply Z.eqb_neq in Hri, Hro. rewrite Hri, Hro. cbn [orb].
  destruct (float_of_int x) as [X|]; [|discriminate]. cbn [bind].
  destruct (float_of_int ro) as [Ro|]; [|discriminate]. cbn [bind].
  destruct (float_of_int ri) as [Ri|]; [|discriminate]. cbn [bind].
  intros H. exists X, Ro, Ri.
  split; [reflexivity|]. split; [reflexivity|]. split; [reflexivity|]. exact H.
Qed.

Lemma fee_input_nonneg X c :
  nonneg_fin X = true -> nonneg_fin c = true -> nonneg_ext (fmul X c) = true.
Proof.
  intros HX Hc. exact (rounds0_nonneg_ext _ _ (fmul_rounds0 X c HX Hc)).
Qed.

Lemma fadd_reserve_rounds Ri a :
  pos_fin Ri = true -> nonneg_fin a = true ->
  rounds (F2R Ri + F2R a) (fadd Ri a) /\
  (pos_fin (fadd Ri a) = true \/ fadd Ri a = S754_infinity false) /\
  (F2R Ri <= xval (fadd Ri a))%R.
Proof.
  intros HRi Ha. destruct (fadd_rounds0 a Ri Ha HRi) as [_ Hr].
  pose proof (F2R_pos_fin Ri HRi) as Hpos. pose proof (F2R_nonneg_fin a Ha) as Ha0.
  assert (Hge : (F2R Ri <= xval (fadd Ri a))%R).
  { apply (xval_ge_of_rounds (F2R Ri + F2R a)); [assumption|lra|assumption]. }
  split; [assumption|]. split; [|assumption].
  pose proof (rounds_nonneg_ext (F2R Ri + F2R a) _ ltac:(lra) Hr) as Hn.
  destruct (nonneg_ext_cases _ Hn) as [[s Hs]|[Hp|Hi]].
  - rewrite Hs in Hge. cbn [xval F2R] in Hge. lra.
  - left. assumption.
  - right. assumption.
Qed.

Lemma swap_tail_inv a Ri Ro y :
  nonneg_ext a = true -> pos_fin Ri = true -> pos_fin Ro = true ->
  swap_tail a Ri Ro = Ok y ->
  nonneg_fin a = true /\ nonneg_fin (fmul a Ro) = true /\
  ((fadd Ri a = S754_infinity false /\ y = 0) \/
   (pos_fin (fadd Ri a) = true /\
    nonneg_fin (fdiv (fmul a Ro) (fadd Ri a)) = true /\
    int_of_float (fdiv (fmul a Ro) (fadd Ri a)) = Ok y)).
Proof.
  intros Ha HRi HRo H. unfold swap_tail in H.
  destruct (nonneg_ext_cases a Ha) as [[s Hs]|[Hp|Hi]].
  - assert (Haf : nonneg_fin a = true) by (rewrite Hs; reflexivity).
    revert H. destruct (fadd_reserve_rounds Ri a HRi Haf) as (_ & Hd & _).
    pose proof (fmul_rounds0 a Ro Haf (pos_fin_nonneg_fin _ HRo)) as Hn.
    pose proof (rounds0_nonneg_ext _ _ Hn) as Hne. clear Hn.
    generalize dependent (fmul a Ro). intros n Hne.
    destruct Hd as [Hd|Hd].
    + destruct (fadd Ri a) as [| | |[] md ed] eqn:Hde; try discriminate.
      cbn [truediv bind]. intros H.
      destruct (nonneg_ext_cases n Hne) as [[sn ->]|[Hpn| ->]].
      * split; [assumption|]. split; [reflexivity|]. right. split; [assumption|].
        split; [reflexivity|exact H].
      * pose proof (pos_fin_nonneg_fin n Hpn) as Hnf.
        split; [assumption|]. split; [assumption|]. right. split; [assumption|].
        split; [|exact H].
        apply (int_of_float_ok_nonneg_ext _ y); [|exact H].
        apply (rounds0_nonneg_ext (F2R n / F2R (S754_finite false md ed))).
        apply fdiv_rounds0; assumption.
      * cbn in H. discriminate.
    + rewrite Hd. cbn [truediv bind]. intros H.
      destruct (nonneg_ext_cases n Hne) as [[sn ->]|[Hpn| ->]].
      * split; [assumption|]. split; [reflexivity|]. left. split; [reflexivity|].
        cbn in H. injection H as <-. reflexivity.
      * split; [assumption|]. split; [apply pos_fin_nonneg_fin; assumption|]. left.
        split; [reflexivity|].
        destruct n as [| | |[] mn en]; try discriminate. cbn in H. injection H as <-. reflexivity.
      * cbn in H. discriminate.
  - assert (Haf : nonneg_fin a = true) by (apply pos_fin_nonneg_fin; assumption).
    revert H. destruct (fadd_reserve_rounds Ri a HRi Haf) as (_ & Hd & _).
    pose proof (fmul_rounds0 a Ro Haf (pos_fin_nonneg_fin _ HRo)) as Hn.
    pose proof (rounds0_nonneg_ext _ _ Hn) as Hne. clear Hn.
    generalize dependent (fmul a Ro). intros n Hne.
    destruct Hd as [Hd|Hd].
    + destruct (fadd Ri a) as [| | |[] md ed] eqn:Hde; try discriminate.
      cbn [truediv bind]. intros H.
      destruct (nonneg_ext_cases n Hne) as [[sn ->]|[Hpn| ->]].
      * split; [assumption|]. split; [reflexivity|]. right. split; [assumption|].
        split; [reflexivity|exact H].
      * pose proof (pos_fin_nonneg_fin n Hpn) as Hnf.
        split; [assumption|]. split; [assumption|]. right. split; [assumption|].
        split; [|exact H].
        apply (int_of_float_ok_nonneg_ext _ y); [|exact H].
        apply (rounds0_nonneg_ext (F2R n / F2R (S754_finite false md ed))).
        apply fdiv_rounds0; assumption.
      * cbn in H. discriminate.
    + rewrite Hd. cbn [truediv bind]. intros H.
      destruct (nonneg_ext_cases n Hne) as [[sn ->]|[Hpn| ->]].
      * split; [assumption|]. split; [reflexivity|]. left. split; [reflexivity|].
        cbn in H. injection H as <-. reflexivity.
      * split; [assumption|]. split; [apply pos_fin_nonneg_fin; assumption|]. left.
        split; [reflexivity|].
        destruct n as [| | |[] mn en]; try discriminate. cbn in H. injection H as <-. reflexivity.
      * cbn in H. discriminate.
  - exfalso. rewrite Hi in H.
    destruct Ro as [| | |[] mo eo]; try discriminate.
    destruct Ri as [| | |[] mi ei]; discriminate.
Qed.

(** ** The swap output against the exact quotient *)

Lemma float_of_int_in_range z k :
  1 <= z <= 2 ^ k -> 0 <= k <= 1023 ->
  exists X, float_of_int z = Ok X /\ pos_fin X = true /\
            near 1 (F2R X) (IZR z) /\ (1 <= F2R X <= bpow k)%R.
Proof.
  intros [Hz1 Hz2] Hk. pose proof (Z2SF_rounds z ltac:(lia)) as Hr.
  assert (Hrange : (bpow 0 <= IZR z <= bpow k)%R).
  { split.
    - change (bpow 0) with 1%R. apply IZR_le. lia.
    - rewrite (bpow_IZR k) by lia. apply IZR_le. assumption. }
  destruct (rounds_in_range _ _ 0 k Hr Hrange ltac:(lia) ltac:(lia)) as (Hp & Hn & Hb).
  exists (Z2SF z). split; [|split; [assumption|split; [assumption|exact Hb]]].
  unfold float_of_int. destruct (Z2SF z) as [| | |[] m e]; try discriminate; reflexivity.
Qed.

Lemma bpow_m1 : bpow (-1) = (/ 2)%R.
Proof. exact (bpow_neg_IZR 1 ltac:(lia)). Qed.

Lemma eta_pow_16 : (one_plus_eta ^ 16 <= 1 + / IZR (2 ^ 45))%R.
Proof.
  assert (Hsq : forall a t : R, (0 <= a <= 1)%R -> (1 <= t <= 1 + a)%R ->
                (t * t <= 1 + 3 * a)%R) by (intros a t Ha Ht; nra).
  assert (He : (0 < / IZR (2 ^ 52) <= / 4503599627370496)%R).
  { split; [apply Rinv_0_lt_compat, IZR_lt; reflexivity|]. apply Rle_refl. }
  set (eta := (/ IZR (2 ^ 52))%R) in *.
  assert (He1 : (eta <= / 1000)%R).
  { destruct He as [_ He]. eapply Rle_trans; [exact He|]. lra. }
  pose proof one_plus_eta_gt_1 as HT. 
  assert (H2 : (one_plus_eta ^ 2 <= 1 + 3 * eta)%R).
  { replace (one_plus_eta ^ 2)%R with (one_plus_eta * one_plus_eta)%R by ring.
    apply Hsq; [lra|]. unfold one_plus_eta. fold eta. lra. }
  assert (G2 : (1 <= one_plus_eta ^ 2)%R) by apply eta_pow_ge_1.
  assert (H4 : (one_plus_eta ^ 4 <= 1 + 9 * eta)%R).
  { replace (one_plus_eta ^ 4)%R with (one_plus_eta ^ 2 * one_plus_eta ^ 2)%R by ring.
    eapply Rle_trans; [apply (Hsq (3 * eta)%R); lra|lra]. }
  assert (G4 : (1 <= one_plus_eta ^ 4)%R) by apply eta_pow_ge_1.
  assert (H8 : (one_plus_eta ^ 8 <= 1 + 27 * eta)%R).
  { replace (one_plus_eta ^ 8)%R with (one_plus_eta ^ 4 * one_plus_eta ^ 4)%R by ring.
    eapply Rle_trans; [apply (Hsq (9 * eta)%R); lra|lra]. }
  assert (G8 : (1 <= one_plus_eta ^ 8)%R) by apply eta_pow_ge_1.
  assert (H16 : (one_plus_eta ^ 16 <= 1 + 81 * eta)%R).
  { replace (one_plus_eta ^ 16)%R with (one_plus_eta ^ 8 * one_plus_eta ^ 8)%R by ring.
    eapply Rle_trans; [apply (Hsq (27 * eta)%R); lra|lra]. }
  eapply Rle_trans; [exact H16|].
  assert (H45 : (/ IZR (2 ^ 45) = 128 * eta)%R).
  { unfold eta. change (2 ^ 45) with 35184372088832.
    change (2 ^ 52) with 4503599627370496. field. }
  rewrite H45. lra.
Qed.

Lemma swap_output_chain x ri ro f cs :
  1 <= x <= 2 ^ 300 -> 1 <= ri <= 2 ^ 300 -> 1 <= ro <= 2 ^ 300 ->
  pos_fin (fsub f_1 f) = true ->
  (/ 2 <= F2R (fsub f_1 f) <= 1)%R -> (0 < cs)%R -> near 1 (F2R (fsub f_1 f)) cs ->
  exists y q,
    _calculate_swap_output x ri ro f = Ok y /\
    (IZR y <= q < IZR y + 1)%R /\
    near 10 q (IZR x * cs * IZR ro / (IZR ri + IZR x * cs)).
Proof.
  intros Hx Hri Hro Hc [Hc1 Hc2] Hcs Hcn.
  set (c := fsub f_1 f) in *.
  destruct (float_of_int_in_range x 300 Hx ltac:(lia)) as (X & HX & HXp & HXn & HXb).
  destruct (float_of_int_in_range ro 300 Hro ltac:(lia)) as (Ro & HRo & HRop & HRon & HRob).
  destruct (float_of_int_in_range ri 300 Hri ltac:(lia)) as (Ri & HRi & HRip & HRin & HRib).
  assert (Hxr : (1 <= IZR x)%R) by (apply IZR_le; lia).
  assert (Hrir : (1 <= IZR ri)%R) by (apply IZR_le; lia).
  assert (Hror : (1 <= IZR ro)%R) by (apply IZR_le; lia).
  pose proof (bpow_pos 300) as HB300.
  (* a = X * c *)
  pose proof (fmul_rounds X c HXp Hc) as Har.
  assert (Harange : (bpow (-1) <= F2R X * F2R c <= bpow 300)%R).
  { rewrite bpow_m1. split; nra. }
  destruct (rounds_in_range _ _ (-1) 300 Har Harange ltac:(lia) ltac:(lia))
    as (Hap & Han & Hab).
  set (a := fmul X c) in *.
  rewrite bpow_m1 in Hab.
  (* n = a * Ro *)
  pose proof (fmul_rounds a Ro Hap HRop) as Hnr.
  assert (Hnrange : (bpow (-1) <= F2R a * F2R Ro <= bpow 600)%R).
  { rewrite bpow_m1.
    replace 600 with (300 + 300) by reflexivity. rewrite bpow_add. split; nra. }
  destruct (rounds_in_range _ _ (-1) 600 Hnr Hnrange ltac:(lia) ltac:(lia))
    as (Hnp & Hnn & Hnb).
  set (n := fmul a Ro) in *.
  rewrite bpow_m1 in Hnb.
  (* d = Ri + a *)
  pose proof (fadd_rounds Ri a HRip Hap) as Hdr.
  assert (Hdrange : (bpow 0 <= F2R Ri + F2R a <= bpow 301)%R).
  { change (bpow 0) with 1%R. replace 301 with (300 + 1) by reflexivity.
    rewrite (bpow_plus_IZR 300 1) by lia. change (IZR (2 ^ 1)) with 2%R. split; lra. }
  destruct (rounds_in_range _ _ 0 301 Hdr Hdrange ltac:(lia) ltac:(lia))
    as (Hdp & Hdn & Hdb).
  set (d := fadd Ri a) in *. change (bpow 0) with 1%R in Hdb.
  (* q = n / d *)
  pose proof (fdiv_rounds n d Hnp Hdp) as Hqr.
  pose proof (bpow_pos 301) as HB301. pose proof (bpow_pos 600) as HB600.
  assert (Hqrange : (bpow (-302) <= F2R n / F2R d <= bpow 600)%R).
  { assert (Hinv : (/ bpow 301 <= / F2R d <= 1)%R).
    { split.
      - apply Rinv_le_contravar; lra.
      - rewrite <- Rinv_1. apply Rinv_le_contravar; lra. }
    assert (Hb302 : (bpow (-302) = / 2 * / bpow 301)%R).
    { replace (-302) with (-1 + - (301)) by reflexivity.
      rewrite bpow_add, bpow_m1, (bpow_neg_IZR 301), <- (bpow_IZR 301) by lia.
      reflexivity. }
    rewrite Hb302. unfold Rdiv.
    assert (0 < / bpow 301)%R by (apply Rinv_0_lt_compat; lra).
    split; nra. }
  destruct (rounds_in_range _ _ (-302) 600 Hqr Hqrange ltac:(lia) ltac:(lia))
    as (Hqp & Hqn & _).
  set (q := fdiv n d) in *.
  destruct (int_of_float_floor q (pos_fin_nonneg_fin q Hqp)) as (y & Hy & Hyf).
  exists y, (F2R q). split; [|split; [exact Hyf|]].
  - unfold _calculate_swap_output.
    replace (ri =? 0) with false by (symmetry; apply Z.eqb_neq; lia).
    replace (ro =? 0) with false by (symmetry; apply Z.eqb_neq; lia).
    cbn [orb]. rewrite HX, HRo, HRi. cbn [bind]. fold c. fold a. fold n. fold d.
    unfold truediv. destruct d as [| | |[] md ed] eqn:Hd; try discriminate.
    cbn [bind]. exact Hy.
  - (* error accumulation *)
    assert (Hcpos : (0 < F2R c)%R) by lra.
    assert (N1 : near 2 (F2R X * F2R c) (IZR x * cs)).
    { apply (near_mul 1 1); try assumption; lra. }
    assert (N2 : near 3 (F2R a) (IZR x * cs)).
    { apply (near_trans 1 2 _ (F2R X * F2R c)); assumption. }
    assert (N3 : near 4 (F2R a * F2R Ro) (IZR x * cs * IZR ro)).
    { assert (Hxc : (0 < IZR x * cs)%R) by (apply Rmult_lt_0_compat; lra).
      apply (near_mul 3 1); try assumption; lra. }
    assert (N4 : near 5 (F2R n) (IZR x * cs * IZR ro)).
    { apply (near_trans 1 4 _ (F2R a * F2R Ro)); assumption. }
    assert (N5 : near 3 (F2R Ri + F2R a) (IZR ri + IZR x * cs)).
    { apply near_add; [|assumption].
      apply (near_weaken 1 3); [lia|lra|lra|assumption]. }
    assert (N6 : near 4 (F2R d) (IZR ri + IZR x * cs)).
    { apply (near_trans 1 3 _ (F2R Ri + F2R a)); assumption. }
    assert (N7 : near 9 (F2R n / F2R d) (IZR x * cs * IZR ro / (IZR ri + IZR x * cs))).
    { assert (Hxc : (0 < IZR x * cs)%R) by (apply Rmult_lt_0_compat; lra).
      assert (Hxcr : (0 < IZR x * cs * IZR ro)%R) by (apply Rmult_lt_0_compat; lra).
      apply (near_div 5 4); try assumption; lra. }
    apply (near_trans 1 9 _ (F2R n / F2R d)); assumption.
Qed.

(** ** The configured fees *)

Lemma configured_fee_facts f fn fd :
  configured_fee f fn fd ->
  pos_fin (fsub f_1 f) = true /\
  (/ 2 <= F2R (fsub f_1 f) <= 1)%R /\
  near 1 (F2R (fsub f_1 f)) (IZR fn / IZR fd) /\
  0 < fn /\ fn * 400 <= fd * 399 /\ 2 * fn >= fd.
Proof.
  intros [(-> & -> & ->)|(-> & -> & ->)].
  - split; [reflexivity|].
    assert (HF : (F2R (fsub f_1 f_0_003) = 8980177656976769 / 9007199254740992)%R).
    { change (fsub f_1 f_0_003) with (S754_finite false 8980177656976769 (-53)).
      cbn [F2R cond_Zopp]. change (-53) with (- (53)). rewrite bpow_neg_IZR by lia.
      change (2 ^ 53) with 9007199254740992. field. }
    rewrite HF. split; [lra|]. split; [|lia].
    unfold near, one_plus_eta. rewrite pow_1. change (2 ^ 52) with 4503599627370496.
    split; lra.
  - split; [reflexivity|].
    assert (HF : (F2R (fsub f_1 f_0_0025) = 8984681256604140 / 9007199254740992)%R).
    { change (fsub f_1 f_0_0025) with (S754_finite false 8984681256604140 (-53)).
      cbn [F2R cond_Zopp]. change (-53) with (- (53)). rewrite bpow_neg_IZR by lia.
      change (2 ^ 53) with 9007199254740992. field. }
    rewrite HF. split; [lra|]. split; [|lia].
    unfold near, one_plus_eta. rewrite pow_1. change (2 ^ 52) with 4503599627370496.
    split; lra.
Qed.

Lemma swap_output_zero_input_total ri ro f :
  1 <= ri <= 2 ^ 300 -> 1 <= ro <= 2 ^ 300 -> pos_fin (fsub f_1 f) = true ->
  _calculate_swap_output 0 ri ro f = Ok 0.
Proof.
  intros Hri Hro Hc.
  destruct (float_of_int_in_range ro 300 Hro ltac:(lia)) as (Ro & HRo & HRop & _).
  destruct (float_of_int_in_range ri 300 Hri ltac:(lia)) as (Ri & HRi & HRip & _).
  unfold _calculate_swap_output.
  replace (ri =? 0) with false by (symmetry; apply Z.eqb_neq; lia).
  replace (ro =? 0) with false by (symmetry; apply Z.eqb_neq; lia).
  cbn [orb]. rewrite float_of_int_0, HRo, HRi. cbn [bind].
  destruct (fsub f_1 f) as [| | |[] mc ec]; try discriminate.
  destruct Ro as [| | |[] mo eo]; try discriminate.
  destruct Ri as [| | |[] mi ei]; try discriminate.
  reflexivity.
Qed.

Lemma swap_output_accuracy f fn fd x ri ro :
  configured_fee f fn fd ->
  1 <= x <= 2 ^ 300 -> 1 <= ri <= 2 ^ 300 -> 1 <= ro <= 2 ^ 300 ->
  exists y,
    _calculate_swap_output x ri ro f = Ok y /\ 0 <= y /\
    y * (ri * fd + x * fn) * 2 ^ 45 <= x * fn * ro * (2 ^ 45 + 1) /\
    x * fn * ro * 2 ^ 45 < (y + 1) * (ri * fd + x * fn) * (2 ^ 45 + 1).
Proof.
  intros Hf Hx Hri Hro.
  destruct (configured_fee_facts f fn fd Hf) as (Hc & Hcb & Hcn & Hfn & Hfd1 & Hfd2).
  assert (Hfnr : (0 < IZR fn)%R) by (apply IZR_lt; lia).
  assert (Hfdr : (0 < IZR fd)%R) by (apply IZR_lt; lia).
  assert (Hcs : (0 < IZR fn / IZR fd)%R) by (apply Rdiv_lt_0_compat; assumption).
  destruct (swap_output_chain x ri ro f _ Hx Hri Hro Hc Hcb Hcs Hcn)
    as (y & q & Hy & [Hq1 Hq2] & [Hn1 Hn2]).
  exists y. split; [exact Hy|].
  assert (Hxr : (1 <= IZR x)%R) by (apply IZR_le; lia).
  assert (Hrir : (1 <= IZR ri)%R) by (apply IZR_le; lia).
  assert (Hror : (1 <= IZR ro)%R) by (apply IZR_le; lia).
  set (N := x * fn * ro). set (D := ri * fd + x * fn).
  assert (HN : (0 < IZR N)%R) by (apply IZR_lt; unfold N; nia).
  assert (HD : (0 < IZR D)%R) by (apply IZR_lt; unfold D; nia).
  assert (HE : (IZR x * (IZR fn / IZR fd) * IZR ro / (IZR ri + IZR x * (IZR fn / IZR fd))
                = IZR N / IZR D)%R).
  { unfold N, D. rewrite plus_IZR, !mult_IZR. field. split; [|lra].
    rewrite <- !mult_IZR, <- plus_IZR. fold D. lra. }
  rewrite HE in Hn1, Hn2.
  set (E := (IZR N / IZR D)%R) in *.
  assert (HEpos : (0 < E)%R) by (apply Rdiv_lt_0_compat; assumption).
  assert (HT : (1 <= one_plus_eta ^ 10 <= 1 + / IZR (2 ^ 45))%R).
  { split; [apply eta_pow_ge_1|].
    eapply Rle_trans; [apply (eta_pow_le 10 16); lia|apply eta_pow_16]. }
  set (T := (one_plus_eta ^ 10)%R) in *.
  assert (HP : (IZR (2 ^ 45) = 35184372088832)%R) by reflexivity.
  rewrite HP in HT.
  assert (Hqpos : (0 < q)%R) by nra.
  assert (HED : (E * IZR D = IZR N)%R) by (unfold E; field; lra).
  assert (H1 : (IZR y * 35184372088832 <= E * 35184372088833)%R).
  { assert (q <= E * (1 + / 35184372088832))%R by nra. lra. }
  assert (H2 : (E * 35184372088832 < (IZR y + 1) * 35184372088833)%R).
  { assert (E < (IZR y + 1) * (1 + / 35184372088832))%R by nra. lra. }
  assert (Hy0 : 0 <= y).
  { assert (H : -1 < y) by (apply lt_IZR; lra). lia. }
  split; [exact Hy0|].
  change (2 ^ 45) with 35184372088832. change (35184372088832 + 1) with 35184372088833.
  split.
  - apply le_IZR. rewrite !mult_IZR. fold N D. nra.
  - apply lt_IZR. rewrite !mult_IZR, plus_IZR. fold N D. nra.
Qed.

Lemma amm_out_spec_bounds x ri ro fn fd :
  0 <= x -> 0 < ri -> 0 < ro -> 0 < fn -> 0 < fd ->
  let s := amm_out_spec x ri ro fn fd in
  s * (ri * fd + x * fn) <= x * fn * ro < (s + 1) * (ri * fd + x * fn).
Proof.
  intros Hx Hri Hro Hfn Hfd. unfold amm_out_spec.
  replace (ri =? 0) with false by (symmetry; apply Z.eqb_neq; lia).
  replace (ro =? 0) with false by (symmetry; apply Z.eqb_neq; lia).
  cbn [orb]. cbv zeta.
  set (N := x * fn * ro). set (D := ri * fd + x * fn).
  assert (HD : 0 < D) by (unfold D; nia).
  pose proof (Z.div_mod N D ltac:(lia)) as Hdm.
  pose proof (Z.mod_pos_bound N D HD) as Hm.
  split; nia.
Qed.

Lemma cancel_scaled_bound u v D P :
  0 < D -> 0 < P -> u * D * P < (v + 1) * D * (P + 1) -> (u - v - 1) * P <= v.
Proof.
  intros HD HP H.
  assert (H' : D * (u * P) < D * ((v + 1) * (P + 1))) by lia.
  apply Z.mul_lt_mono_pos_l in H'; [|assumption]. lia.
Qed.

Lemma round_trip_algebra x y z rA rB a b :
  0 <= x -> 0 <= y -> 0 <= z -> 0 < rA -> 0 < rB -> 0 < b -> b <= a ->
  y * rA * a <= x * rB * b -> z * rB * a <= y * rA * b -> z <= x.
Proof.
  intros Hx Hy Hz HrA HrB Hb Hab HA HB.
  assert (S1 : z * rB * a * a <= y * rA * b * a)
    by (apply Z.mul_le_mono_nonneg_r; [lia|exact HB]).
  assert (S2 : y * rA * a * b <= x * rB * b * b)
    by (apply Z.mul_le_mono_nonneg_r; [lia|exact HA]).
  assert (S3 : rB * (z * (a * a)) <= rB * (x * (b * b))) by lia.
  apply Z.mul_le_mono_pos_l in S3; [|assumption].
  assert (S4 : b * b <= a * a) by nia.
  assert (S5 : x * (b * b) <= x * (a * a))
    by (apply Z.mul_le_mono_nonneg_l; assumption).
  assert (S6 : z * (a * a) <= x * (a * a)) by lia.
  apply Z.mul_le_mono_pos_r in S6; [assumption|nia].
Qed.

Lemma pow2_256_le_300 : 2 ^ 256 <= 2 ^ 300.
Proof. apply Z.pow_le_mono_r; lia. Qed.

Lemma swap_output_total f fn fd x ri ro :
  configured_fee f fn fd ->
  0 <= x < 2 ^ 256 -> 0 <= ri < 2 ^ 256 -> 0 <= ro < 2 ^ 256 ->
  exists y, _calculate_swap_output x ri ro f = Ok y.
Proof.
  intros Hf Hx Hri Hro. pose proof pow2_256_le_300 as Hp.
  destruct (Z.eq_dec ri 0) as [->|Hri0].
  { exists 0. apply swap_output_zero_reserve_in. }
  destruct (Z.eq_dec ro 0) as [->|Hro0].
  { exists 0. apply swap_output_zero_reserve_out. }
  destruct (Z.eq_dec x 0) as [->|Hx0].
  { exists 0. apply swap_output_zero_input_total; try lia.
    exact (proj1 (configured_fee_facts f fn fd Hf)). }
  destruct (swap_output_accuracy f fn fd x ri ro Hf) as (y & Hy & _); try lia.
  exists y. exact Hy.
Qed.



(** ** The opportunity channel *)

Lemma put_unbounded {A : Type} (q : Queue A) (x : A) :
  maxsize q <= 0 -> put q x = Some {| maxsize := maxsize q; items := items q ++ [x] |}.
Proof.
  intros H. unfold put, full. destruct (Z.leb_spec (maxsize q) 0); [reflexivity|lia].
Qed.

Lemma put_all_unbounded {A : Type} (l : list A) : forall q : Queue A,
  maxsize q <= 0 -> put_all q l = Some {| maxsize := maxsize q; items := items q ++ l |}.
Proof.
  induction l as [|x l IH]; intros q H; cbn [put_all].
  - rewrite app_nil_r. destruct q; reflexivity.
  - rewrite (put_unbounded q x H). rewrite IH by exact H. cbn [maxsize items].
    rewrite <- app_assoc. reflexivity.
Qed.

(** C3 (as the code has it). The channel is [asyncio.Queue()] with
    [maxsize] 0, an unbounded FIFO: [analyze_block] never suspends in
    [put], drops nothing and appends every profitable route behind the
    ones already queued, which [get] hands out oldest first. *)
Theorem channel_is_unbounded_fifo :
  (forall cfg found toks,
     maxsize (profitable_routes (ArbitrageScanner_init cfg found toks)) = 0) /\
  (forall s now pools routes,
     maxsize (profitable_routes s) <= 0 ->
     calculate_arbitrage_routes s now pools = Ok routes ->
     exists s',
       analyze_block s now pools = Ok (Some s') /\
       items (profitable_routes s') = items (profitable_routes s) ++ profitable s routes /\
       maxsize (profitable_routes s') = maxsize (profitable_routes s)) /\
  (forall (q : Queue ArbitrageRoute) x q',
     get q = Some (x, q') -> items q = x :: items q' /\ maxsize q' = maxsize q).
Proof.
  split; [reflexivity|]. split.
  - intros s now pools routes Hm Hc. unfold analyze_block. rewrite Hc. cbn [bind].
    rewrite (put_all_unbounded _ _ Hm). eexists. split; [reflexivity|].
    cbn [profitable_routes items maxsize]. split; reflexivity.
  - intros q x q' H. unfold get in H. destruct (items q) as [|y rest] eqn:Hi; [discriminate|].
    injection H as <- <-. split; reflexivity.
Qed.

Lemma channel_is_unbounded_fifo_witness :
  exists s',
    analyze_block scanner_with_backlog 128 (fetch_top_pools chain_A_B scanner_with_backlog)
      = Ok (Some s') /\
    items (profitable_routes s') =
      items (profitable_routes scanner_with_backlog) ++
      profitable scanner_with_backlog
        (routes_of (calculate_arbitrage_routes scanner_with_backlog 128
                      (fetch_top_pools chain_A_B scanner_with_backlog))) /\
    maxsize (profitable_routes s') = maxsize (profitable_routes scanner_with_backlog).
Proof.
  apply (proj1 (proj2 channel_is_unbounded_fifo) scanner_with_backlog 128
           (fetch_top_pools chain_A_B scanner_with_backlog)).
  - vm_compute. discriminate.
  - vm_compute. reflexivity.
Defined.

Lemma scan_outcome_eq (res : option ArbitrageScanner * bool) (d : ArbitrageScanner) :
  match fst res with Some _ => true | None => false end = true -> snd res = false ->
  res = (Some (match fst res with Some s => s | None => d end), false).
Proof.
  destruct res as [[s|] flag]; cbn [fst snd]; intros H1 H2; [|discriminate].
  rewrite H2. reflexivity.
Qed.

(** C3, counterexample: a scanner configured with two tokens analyses
    128 blocks of a chain that holds one pair at uniswap_v2 and one at
    sushiswap; each block yields two profitable routes and none is taken
    from the channel, which then holds 256 routes.  The next block leaves
    258 routes in the channel, with the oldest one (stamped 0) still at
    its head, and no error is logged. *)
Lemma channel_exceeds_256 :
  scan_new_entries chain_A_B two_token_scanner (range 0 128)
    = (Some scanner_with_backlog, false) /\
  maxsize (profitable_routes scanner_with_backlog) = 0 /\
  qsize (profitable_routes scanner_with_backlog) = 256 /\
  scan_blocks_step chain_A_B scanner_with_backlog 128
    = (Some scanner_after_next_block, false) /\
  qsize (profitable_routes scanner_after_next_block) = 258 /\
  hd_error (items (profitable_routes scanner_after_next_block))
    = hd_error (items (profitable_routes scanner_with_backlog)) /\
  option_map timestamp (hd_error (items (profitable_routes scanner_after_next_block)))
    = Some 0.
Proof.
  split; [apply scan_outcome_eq; vm_compute; reflexivity|].
  split; [vm_compute; reflexivity|]. split; [vm_compute; reflexivity|].
  split; [apply scan_outcome_eq; vm_compute; reflexivity|].
  split; [vm_compute; reflexivity|]. split; vm_compute; reflexivity.
Qed.

(** ** Net profit of emitted routes *)

Lemma for_each_In {A B : Type} (body : A -> result (list B)) (r : B) :
  forall (l : list A) (out : list B),
    for_each l body = Ok out -> In r out ->
    exists a o, In a l /\ body a = Ok o /\ In r o.
Proof.
  induction l as [|a l IH]; intros out H Hin; cbn [for_each] in H.
  - injection H as <-. contradiction.
  - destruct (body a) as [o|e] eqn:Hb; [|discriminate]. cbn [bind] in H.
    destruct (for_each l body) as [more|e] eqn:Hm; [|discriminate]. cbn [bind] in H.
    injection H as <-. apply in_app_or in Hin. destruct Hin as [Hin|Hin].
    + exists a, o. split; [left; reflexivity|]. split; assumption.
    + destruct (IH more eq_refl Hin) as (a' & o' & Ha & Hb' & Hr).
      exists a', o'. split; [right; assumption|]. split; assumption.
Qed.

Lemma nil_no_member {B : Type} (r : B) (o : list B) : Ok o = @Ok (list B) [] -> In r o -> False.
Proof. intros H Hin. injection H as ->. contradiction. Qed.

Lemma cpu_routes_positive s now pools routes r :
  _calculate_routes_cpu s now pools = Ok routes -> In r routes -> 0 < net_profit r.
Proof.
  unfold _calculate_routes_cpu. intros H Hin.
  destruct (for_each_In _ r _ _ H Hin) as (tok & o1 & _ & H1 & Hin1).
  destruct (for_each_In _ r _ _ H1 Hin1) as (d1 & o2 & _ & H2 & Hin2).
  destruct (for_each_In _ r _ _ H2 Hin2) as (d2 & o3 & _ & H3 & Hin3).
  destruct (String.eqb (fst d1) (fst d2)); [exfalso; symmetry in H3; exact (nil_no_member r o3 H3 Hin3)|].
  destruct (for_each_In _ r _ _ H3 Hin3) as (p1 & o4 & _ & H4 & Hin4).
  destruct (negb (token_in_pool tok p1)); [exfalso; symmetry in H4; exact (nil_no_member r o4 H4 Hin4)|].
  destruct (for_each_In _ r _ _ H4 Hin4) as (p2 & o5 & _ & H5 & Hin5).
  destruct (getitem (dex_configs s) (fst d1)) as [c1|e]; [|discriminate]. cbn [bind] in H5.
  destruct (getitem (dex_configs s) (fst d2)) as [c2|e]; [|discriminate]. cbn [bind] in H5.
  destruct (_check_arbitrage_opportunity now tok p1 p2 c1 c2) as [[r'|]|e];
    cbn [bind] in H5; try discriminate.
  - destruct (Z.ltb_spec 0 (net_profit r')) as [Hpos|Hneg].
    + injection H5 as <-. destruct Hin5 as [<-|[]]. assumption.
    + exfalso. symmetry in H5. exact (nil_no_member r o5 H5 Hin5).
  - exfalso. symmetry in H5. exact (nil_no_member r o5 H5 Hin5).
Qed.

(** C4 (as the code has it). A route is handed to the channel only if its
    net profit is strictly above [min_profit_threshold]; it is strictly
    positive whenever the CPU path computed the routes or the threshold is
    not negative. *)
Theorem emitted_net_profit_above_threshold s now pools r :
  In r (emitted s now pools) ->
  min_profit_threshold (config s) < net_profit r /\
  (scanner_use_gpu s = false \/ 0 <= min_profit_threshold (config s) -> 0 < net_profit r).
Proof.
  unfold emitted. intros Hin.
  destruct (calculate_arbitrage_routes s now pools) as [routes|e] eqn:Hc; [|contradiction].
  unfold profitable in Hin. apply filter_In in Hin. destruct Hin as [Hin Hf].
  apply Z.ltb_lt in Hf. split; [assumption|].
  intros [Hcpu|Hthr]; [|lia].
  unfold calculate_arbitrage_routes in Hc. rewrite Hcpu in Hc.
  exact (cpu_routes_positive _ _ _ _ _ Hc Hin).
Qed.

Lemma emitted_net_profit_witness :
  In route_A_then_B
     (emitted two_token_scanner 7 (fetch_top_pools chain_A_B two_token_scanner)) /\
  min_profit_threshold (config two_token_scanner) < net_profit route_A_then_B /\
  0 < net_profit route_A_then_B.
Proof.
  assert (Hin : In route_A_then_B
                  (emitted two_token_scanner 7
                     (fetch_top_pools chain_A_B two_token_scanner)))
    by (vm_compute; left; reflexivity).
  destruct (emitted_net_profit_above_threshold two_token_scanner 7
              (fetch_top_pools chain_A_B two_token_scanner)
              route_A_then_B Hin) as [Hthr Hpos].
  split; [exact Hin|]. split; [exact Hthr|]. apply Hpos. left. reflexivity.
Defined.

(** C4, the failing input: the accelerator path with
    [MIN_PROFIT_THRESHOLD = -3000000], on the pools [fetch_top_pools]
    returns for a chain with one pair at uniswap_v2 and one at sushiswap.
    The first loops leave the diagonal cell [(0, 0)] of the profit matrix
    at its initial 0.0; the second loops, which repeat neither the
    [i != j] test nor the [net_profit > 0] test of the CPU path, build a
    route from it, and [analyze_block] puts that route on the channel
    with expected profit 0 and net profit -2000000. *)
Lemma emitted_route_with_negative_net_profit :
  exists rows r,
    pool_rows (all_pools (fetch_top_pools chain_A_B (gpu_scanner (-3000000)))) = Ok rows /\
    gpu_profit rows 0 0 = S754_zero false /\
    gpu_route (gpu_scanner (-3000000)) 7 (gpu_profit rows 0 0) = Ok r /\
    hd_error (emitted (gpu_scanner (-3000000)) 7
                (fetch_top_pools chain_A_B (gpu_scanner (-3000000)))) = Some r /\
    In r (emitted (gpu_scanner (-3000000)) 7
            (fetch_top_pools chain_A_B (gpu_scanner (-3000000)))) /\
    expected_profit r = 0 /\ net_profit r = -2000000 /\ net_profit r <= 0.
Proof.
  eexists. eexists. split; [vm_compute; reflexivity|].
  split; [reflexivity|]. split; [vm_compute; reflexivity|].
  split; [vm_compute; reflexivity|]. split; [vm_compute; left; reflexivity|].
  split; [reflexivity|]. split; [reflexivity|cbn; lia].
Qed.

(** ** Executor: what a call may change *)

Lemma same_ledger_refl x : same_ledger x x.
Proof. repeat split. Qed.

Lemma same_ledger_trans x y z : same_ledger x y -> same_ledger y z -> same_ledger x z.
Proof.
  unfold same_ledger. intros (A1 & A2 & A3 & A4) (B1 & B2 & B3 & B4).
  repeat split; congruence.
Qed.

Lemma logger_same x lv : same_ledger x (logger x lv).
Proof. repeat split. Qed.

Lemma get_gas_price_same w x : same_ledger x (snd (get_gas_price w x)).
Proof.
  unfold get_gas_price. destruct (get_gas_price_try w x); cbn [snd].
  - apply same_ledger_refl.
  - apply logger_same.
Qed.

Lemma refine_gas_same w x tx : same_ledger x (snd (refine_gas w x tx)).
Proof.
  unfold refine_gas.
  destruct (g <- eth_estimate_gas w tx ;; gf <- float_of_int g ;; int_of_float (fmul gf f_1_15));
    cbn [snd]; [apply same_ledger_refl|apply logger_same].
Qed.

Lemma refine_gas_fee w x tx : maxFeePerGas (fst (refine_gas w x tx)) = maxFeePerGas tx.
Proof.
  unfold refine_gas.
  destruct (g <- eth_estimate_gas w tx ;; gf <- float_of_int g ;; int_of_float (fmul gf f_1_15));
    reflexivity.
Qed.

Lemma switch_rpc_same w x : same_ledger x (switch_rpc w x).
Proof. unfold switch_rpc. destruct (get_block_latest w); repeat split. Qed.

Lemma execute_failed_same w x e :
  fst (execute_failed w x e) = None /\ same_ledger x (snd (execute_failed w x e)).
Proof.
  unfold execute_failed. destruct e as [| | | | |[]]; cbn [fst snd]; split; try reflexivity;
    try apply logger_same.
  eapply same_ledger_trans; [apply logger_same|apply switch_rpc_same].
Qed.

Lemma prepare_transaction_same w x r : same_ledger x (snd (prepare_transaction w x r)).
Proof.
  unfold prepare_transaction. pose proof (get_gas_price_same w x) as Hg.
  destruct (get_gas_price w x) as [gp x1]. cbn [snd] in Hg.
  match goal with |- context [build_transaction w ?t] => set (tx0 := t) end.
  destruct (build_transaction w tx0); cbn [snd]; [|assumption].
  pose proof (refine_gas_same w x1 tx0) as Hr.
  destruct (refine_gas w x1 tx0) as [tx x2]. cbn [snd] in Hr |- *.
  eapply same_ledger_trans; eassumption.
Qed.

Lemma validate_route_same w now x r : same_ledger x (snd (validate_route w now x r)).
Proof.
  unfold validate_route, validate_simulation.
  destruct (net_profit r <? min_profit_threshold (exec_config x)); [apply logger_same|].
  destruct (route_too_old now r) as [[]|]; try apply logger_same.
  destruct (balanceOf_call w r); [|apply logger_same].
  destruct (contract_estimate_gas w r) as [g|]; [|apply logger_same].
  destruct (800000 <? g); [apply logger_same|apply same_ledger_refl].
Qed.

Lemma execute_arbitrage_none_same w x r :
  fst (execute_arbitrage w x r) = None -> same_ledger x (snd (execute_arbitrage w x r)).
Proof.
  unfold execute_arbitrage. pose proof (prepare_transaction_same w x r) as Hp.
  destruct (prepare_transaction w x r) as [[tx|e] x2]; cbn [snd] in Hp.
  - destruct (expected_profit r <=? tx_gas tx * maxFeePerGas tx).
    + intros _. eapply same_ledger_trans; [exact Hp|apply logger_same].
    + destruct (sign_transaction w tx) as [s|e].
      * destruct (send_raw_transaction w s) as [h|e].
        -- cbn [fst]. discriminate.
        -- intros _. eapply same_ledger_trans; [exact Hp|apply execute_failed_same].
      * intros _. eapply same_ledger_trans; [exact Hp|apply execute_failed_same].
  - intros _. eapply same_ledger_trans; [exact Hp|apply execute_failed_same].
Qed.

(** C5. When the refined gas cost [gas * maxFeePerGas] reaches the
    route's expected profit, or signing or [send_raw_transaction] raises
    (or anything before them does), [execute_arbitrage] returns no hash,
    hands nothing to the node ([sent] unchanged), leaves the nonce as it
    was, and the loop of [execute_routes] creates no pending entry.  The
    nonce moves only by one, and only when [send_raw_transaction] returned
    a hash. *)
Theorem failed_submission_consumes_no_nonce w x r :
  (forall tx x2,
     prepare_transaction w x r = (Ok tx, x2) ->
     expected_profit r <= tx_gas tx * maxFeePerGas tx \/
     (exists e, sign_transaction w tx = Raise e) \/
     (exists s e, sign_transaction w tx = Ok s /\ send_raw_transaction w s = Raise e) ->
     fst (execute_arbitrage w x r) = None /\
     same_ledger x (snd (execute_arbitrage w x r))) /\
  (forall e x1,
     prepare_transaction w x r = (Raise e, x1) ->
     fst (execute_arbitrage w x r) = None /\
     same_ledger x (snd (execute_arbitrage w x r))) /\
  (nonce (snd (execute_arbitrage w x r)) <> nonce x ->
     exists tx x2 s h,
       prepare_transaction w x r = (Ok tx, x2) /\
       tx_gas tx * maxFeePerGas tx < expected_profit r /\
       sign_transaction w tx = Ok s /\ send_raw_transaction w s = Ok h /\
       execute_arbitrage w x r =
         (Some h,
          {| exec_config := exec_config x2; current_rpc_index := current_rpc_index x2;
             nonce := nonce x + 1; pending_txs := pending_txs x;
             executing := executing x2; sent := sent x ++ [s]; log := log x2 |})) /\
  (forall now,
     fst (execute_arbitrage w (snd (validate_route w now x r)) r) = None ->
     pending_txs (execute_routes_step w now x r) = pending_txs x /\
     nonce (execute_routes_step w now x r) = nonce x /\
     sent (execute_routes_step w now x r) = sent x).
Proof.
  pose proof (prepare_transaction_same w x r) as Hp.
  split; [|split; [|split]].
  - intros tx x2 Hprep Hfail. unfold execute_arbitrage. rewrite Hprep in Hp |- *.
    cbn [snd] in Hp.
    destruct (Z.leb_spec (expected_profit r) (tx_gas tx * maxFeePerGas tx)) as [Hle|Hgt].
    + cbn [fst snd]. split; [reflexivity|].
      eapply same_ledger_trans; [exact Hp|apply logger_same].
    + destruct Hfail as [Hge|[[e He]|(s & e & Hs & He)]]; [lia| |].
      * rewrite He. destruct (execute_failed_same w x2 e) as [H1 H2].
        split; [assumption|]. eapply same_ledger_trans; eassumption.
      * rewrite Hs, He. destruct (execute_failed_same w x2 e) as [H1 H2].
        split; [assumption|]. eapply same_ledger_trans; eassumption.
  - intros e x1 Hprep. unfold execute_arbitrage. rewrite Hprep in Hp |- *.
    cbn [snd] in Hp. destruct (execute_failed_same w x1 e) as [H1 H2].
    split; [assumption|]. eapply same_ledger_trans; eassumption.
  - unfold execute_arbitrage. destruct (prepare_transaction w x r) as [[tx|e] x2].
    + cbn [snd] in Hp. destruct Hp as (Hn & Hpd & Hs & Hc).
      destruct (Z.leb_spec (expected_profit r) (tx_gas tx * maxFeePerGas tx)) as [Hle|Hgt].
      * cbn [snd fst logger set_log nonce]. intros H. congruence.
      * destruct (sign_transaction w tx) as [s|e] eqn:Hsg.
        -- destruct (send_raw_transaction w s) as [h|e] eqn:Hsd.
           ++ intros _. exists tx, x2, s, h. cbn [fst snd]. rewrite Hn, Hpd, Hs.
              split; [reflexivity|]. split; [lia|]. repeat split; assumption.
           ++ destruct (execute_failed_same w x2 e) as [_ H2].
              destruct H2 as (H2 & _). intros H. congruence.
        -- destruct (execute_failed_same w x2 e) as [_ H2].
           destruct H2 as (H2 & _). intros H. congruence.
    + cbn [snd] in Hp. destruct (execute_failed_same w x2 e) as [_ H2].
      destruct H2 as (H2 & _). destruct Hp as (Hn & _). intros H. congruence.
  - intros now Hnone. unfold execute_routes_step.
    pose proof (validate_route_same w now x r) as Hv.
    destruct (validate_route w now x r) as [valid x1]. cbn [snd] in Hv, Hnone.
    destruct Hv as (Hn & Hpd & Hs & _).
    destruct valid; cbn [negb].
    + pose proof (execute_arbitrage_none_same w x1 r Hnone) as Hsame.
      destruct (execute_arbitrage w x1 r) as [[h|] x2]; cbn [fst snd] in *; [discriminate|].
      destruct Hsame as (A1 & A2 & A3 & _). repeat split; congruence.
    + cbn [logger set_log pending_txs nonce sent]. repeat split; assumption.
Qed.

Lemma failed_submission_witness :
  fst (execute_arbitrage node_legacy executor_0 (stale_route 0)) = None /\
  same_ledger executor_0 (snd (execute_arbitrage node_legacy executor_0 (stale_route 0))).
Proof.
  eapply (proj1 (failed_submission_consumes_no_nonce node_legacy executor_0 (stale_route 0))).
  - vm_compute. reflexivity.
  - left. vm_compute. discriminate.
Defined.

(** ** Executor: validation *)

Lemma F2R_Z2SF_30 : pos_fin (Z2SF 30) = true /\ F2R (Z2SF 30) = 30%R.
Proof. apply (Z2SF_exact 30). split; reflexivity. Qed.

Lemma fsub_zero_r m e s : fsub (S754_finite false m e) (S754_zero s) = S754_finite false m e.
Proof. reflexivity. Qed.

Lemma route_too_old_after_31 n r :
  0 <= timestamp r -> timestamp r + 31 <= n < 2 ^ 53 ->
  route_too_old (Z2SF n) r = Ok true.
Proof.
  intros Ht [Hn1 Hn2]. unfold route_too_old.
  destruct (Z2SF_exact n ltac:(lia)) as [Hpn Hvn].
  destruct F2R_Z2SF_30 as [Hp30 Hv30].
  destruct (Z.eq_dec (timestamp r) 0) as [Hz|Hnz].
  - rewrite Hz, float_of_int_0. cbn [bind]. f_equal.
    destruct (Z2SF n) as [| | |[] m e] eqn:Hzn; try discriminate.
    rewrite fsub_zero_r. apply fltb_pos_fin; try assumption.
    rewrite Hv30, Hvn. apply IZR_lt. lia.
  - destruct (Z2SF_exact (timestamp r) ltac:(lia)) as [Hpt Hvt].
    rewrite float_of_int_exact by lia. cbn [bind]. f_equal.
    assert (Hlt : (F2R (Z2SF (timestamp r)) < F2R (Z2SF n))%R).
    { rewrite Hvt, Hvn. apply IZR_lt. lia. }
    pose proof (fsub_rounds _ _ Hpn Hpt Hlt) as Hr.
    assert (Hge : (31 <= F2R (Z2SF n) - F2R (Z2SF (timestamp r)))%R).
    { rewrite Hvt, Hvn, <- minus_IZR. apply IZR_le. lia. }
    destruct (Z2SF_exact 31 ltac:(split; reflexivity)) as [Hp31 Hv31].
    pose proof (xval_ge_of_rounds _ _ (Z2SF 31) Hp31 ltac:(rewrite Hv31; exact Hge) Hr) as Hx.
    apply fltb_of_xval; try assumption.
    + apply (rounds_nonneg_ext (F2R (Z2SF n) - F2R (Z2SF (timestamp r))) _ ltac:(lra) Hr).
    + rewrite Hv30. rewrite Hv31 in Hx. lra.
Qed.

Lemma binary_round_aux_sign s m e l :
  match binary_round_aux prec emax s m e l with
  | S754_zero s' | S754_infinity s' | S754_finite s' _ _ => s' = s
  | S754_nan => True
  end.
Proof.
  unfold binary_round_aux.
  destruct (shr_fexp prec emax m e l) as [mrs' e'].
  destruct (shr_fexp prec emax _ e' loc_Exact) as [mrs'' e''].
  destruct (shr_m mrs'') as [|q|q]; [reflexivity| |exact I].
  destruct (e'' <=? emax - prec); reflexivity.
Qed.

Lemma fltb_not_above_negative a r :
  pos_fin a = true ->
  match r with
  | S754_zero _ | S754_nan => True
  | S754_infinity s | S754_finite s _ _ => s = true
  end ->
  fltb a r = false.
Proof.
  destruct a as [| | |[] ma ea]; try discriminate. intros _.
  destruct r as [sz| [|] | |[|] mr er]; intros H; try discriminate; reflexivity.
Qed.

(** A difference that is zero or negative is never above a positive
    bound. *)
Lemma fsub_nonpos_not_above a x y :
  pos_fin a = true -> pos_fin x = true -> pos_fin y = true -> (F2R x <= F2R y)%R ->
  fltb a (fsub x y) = false.
Proof.
  intros Ha. destruct x as [| | |[] mx ex]; try discriminate.
  destruct y as [| | |[] my ey]; try discriminate. intros _ _.
  unfold fsub, SFsub. cbn [cond_Zopp F2R].
  pose proof (shl_align_spec mx ex (Z.min ex ey)) as Hx.
  pose proof (shl_align_spec my ey (Z.min ex ey)) as Hy.
  cbn zeta in Hx, Hy. destruct Hx as (Hxe & Hxm & _). destruct Hy as (Hye & Hym & _).
  set (ez := Z.min ex ey) in *.
  set (ax := fst (shl_align mx ex ez)) in *. set (ay := fst (shl_align my ey ez)) in *.
  replace (snd (shl_align mx ex ez)) with ez in Hxm by lia.
  replace (snd (shl_align my ey ez)) with ez in Hym by lia.
  assert (Hvx : (IZR (Z.pos mx) * bpow ex = IZR (Z.pos ax) * bpow ez)%R).
  { rewrite Hxm, mult_IZR. replace ex with (ez + (ex - ez)) at 1 by ring.
    rewrite bpow_add, (bpow_IZR (ex - ez)) by lia. ring. }
  assert (Hvy : (IZR (Z.pos my) * bpow ey = IZR (Z.pos ay) * bpow ez)%R).
  { rewrite Hym, mult_IZR. replace ey with (ez + (ey - ez)) at 1 by ring.
    rewrite bpow_add, (bpow_IZR (ey - ez)) by lia. ring. }
  rewrite Hvx, Hvy. intros Hle.
  assert (Hd : Z.pos ax <= Z.pos ay).
  { apply le_IZR. pose proof (bpow_pos ez). nra. }
  apply fltb_not_above_negative; [exact Ha|].
  destruct (Z.pos ax - Z.pos ay) as [|d|d] eqn:Hdiff; try lia.
  - exact I.
  - unfold binary_normalize, binary_round.
    destruct (shl_align d ez _) as [mz ez'].
    pose proof (binary_round_aux_sign true (Z.pos mz) ez' loc_Exact) as Hs.
    destruct (binary_round_aux prec emax true (Z.pos mz) ez' loc_Exact); try exact I; exact Hs.
Qed.

Lemma F2R_next_above_30 :
  pos_fin (S754_finite false 8444249301319681 (-48)) = true /\
  (F2R (S754_finite false 8444249301319681 (-48)) = 30 + / IZR (2 ^ 48))%R.
Proof.
  split; [reflexivity|]. cbn [F2R cond_Zopp].
  change (-48) with (- (48)). rewrite bpow_neg_IZR by lia.
  change (2 ^ 48) with 281474976710656. field.
Qed.

Lemma float_of_timestamp t :
  0 <= t < 2 ^ 53 ->
  (t = 0 /\ float_of_int t = Ok (S754_zero false)) \/
  (float_of_int t = Ok (Z2SF t) /\ pos_fin (Z2SF t) = true /\ F2R (Z2SF t) = IZR t).
Proof.
  intros Ht. destruct (Z.eq_dec t 0) as [->|Hnz].
  - left. split; [reflexivity|]. exact float_of_int_0.
  - right. destruct (Z2SF_exact t ltac:(lia)) as [Hp Hv].
    split; [apply float_of_int_exact; lia|]. split; assumption.
Qed.

(** The age test on a float clock: an age of at most 30 (as a real
    number) passes. *)
Lemma route_too_old_within_30 now r :
  pos_fin now = true -> 0 <= timestamp r < 2 ^ 53 ->
  (F2R now - IZR (timestamp r) <= 30)%R ->
  route_too_old now r = Ok false.
Proof.
  intros Hpn Ht Hage. unfold route_too_old.
  destruct F2R_Z2SF_30 as [Hp30 Hv30].
  destruct (float_of_timestamp (timestamp r) Ht) as [[Hz ->]|(-> & Hpt & Hvt)];
    cbn [bind]; f_equal.
  - rewrite Hz in Hage.
    destruct now as [| | |[] m e] eqn:Hnow; try discriminate.
    rewrite fsub_zero_r.
    destruct (fltb (Z2SF 30) (S754_finite false m e)) eqn:Hlt; [|reflexivity].
    apply (fltb_pos_fin _ _ Hp30 Hpn) in Hlt. rewrite Hv30 in Hlt. lra.
  - rewrite <- Hvt in Hage.
    destruct (Rle_or_lt (F2R now) (F2R (Z2SF (timestamp r)))) as [Hle|Hlt].
    + apply fsub_nonpos_not_above; assumption.
    + pose proof (fsub_rounds _ _ Hpn Hpt Hlt) as Hr.
      assert (Hrange : (0 <= F2R now - F2R (Z2SF (timestamp r)) <= F2R (Z2SF 30))%R)
        by (rewrite Hv30; lra).
      pose proof (xval_le_of_rounds _ _ (Z2SF 30) Hp30 Hrange Hr) as Hx.
      pose proof (rounds_nonneg_ext _ _ (proj1 Hrange) Hr) as Hne.
      destruct (nonneg_ext_cases _ Hne) as [[sz Hs]|[Hp|Hi]].
      * rewrite Hs. apply fltb_not_above_negative; [exact Hp30|exact I].
      * destruct (fltb (Z2SF 30) (fsub now (Z2SF (timestamp r)))) eqn:Hlt'; [|reflexivity].
        apply (fltb_pos_fin _ _ Hp30 Hp) in Hlt'.
        rewrite (xval_pos_fin _ Hp) in Hx. lra.
      * rewrite Hi in Hx. cbn [xval] in Hx. rewrite Hv30 in Hx.
        assert (bpow 5 <= bpow 1024)%R by (apply bpow_le; lia).
        rewrite (bpow_IZR 5) in H by lia. change (2 ^ 5) with 32 in H. lra.
Qed.

(** ... and an age of at least the first double above 30 does not. *)
Lemma route_too_old_beyond_30 now r :
  pos_fin now = true -> 0 <= timestamp r < 2 ^ 53 ->
  (30 + / IZR (2 ^ 48) <= F2R now - IZR (timestamp r))%R ->
  route_too_old now r = Ok true.
Proof.
  intros Hpn Ht Hage. unfold route_too_old.
  destruct F2R_Z2SF_30 as [Hp30 Hv30].
  destruct F2R_next_above_30 as [Hpc Hvc].
  assert (Heps : (0 < / IZR (2 ^ 48))%R)
    by (apply Rinv_0_lt_compat, IZR_lt; reflexivity).
  destruct (float_of_timestamp (timestamp r) Ht) as [[Hz ->]|(-> & Hpt & Hvt)];
    cbn [bind]; f_equal.
  - rewrite Hz in Hage.
    destruct now as [| | |[] m e] eqn:Hnow; try discriminate.
    rewrite fsub_zero_r. apply fltb_pos_fin; try assumption. rewrite Hv30. lra.
  - rewrite <- Hvt in Hage.
    assert (Hlt : (F2R (Z2SF (timestamp r)) < F2R now)%R) by lra.
    pose proof (fsub_rounds _ _ Hpn Hpt Hlt) as Hr.
    assert (Hge : (F2R (S754_finite false 8444249301319681 (-48))
                   <= F2R now - F2R (Z2SF (timestamp r)))%R)
      by (rewrite Hvc; exact Hage).
    pose proof (xval_ge_of_rounds _ _ _ Hpc Hge Hr) as Hx.
    apply fltb_of_xval; try assumption.
    + apply (rounds_nonneg_ext (F2R now - F2R (Z2SF (timestamp r))) _ ltac:(lra) Hr).
    + rewrite Hv30. rewrite Hvc in Hx. lra.
Qed.

Lemma validate_route_cases w now x r :
  (fst (validate_route w now x r) = true <->
     min_profit_threshold (exec_config x) <= net_profit r /\
     route_too_old now r = Ok false /\
     (exists b, balanceOf_call w r = Ok b) /\
     (exists g, contract_estimate_gas w r = Ok g /\ g <= 800000)) /\
  (fst (validate_route w now x r) = true -> snd (validate_route w now x r) = x) /\
  (fst (validate_route w now x r) = false ->
     (exists old, route_too_old now r = Ok old) ->
     snd (validate_route w now x r) = logger x DEBUG /\
     execute_routes_step w now x r = logger (logger x DEBUG) DEBUG).
Proof.
  unfold execute_routes_step, validate_route, validate_simulation.
  destruct (Z.ltb_spec (net_profit r) (min_profit_threshold (exec_config x))) as [Hlt|Hge].
  { cbn [fst snd negb]. split; [split; [discriminate|intros (H & _); lia]|].
    split; [discriminate|]. intros _ _. split; reflexivity. }
  destruct (route_too_old now r) as [[|]|e].
  - cbn [fst snd negb]. split; [split; [discriminate|intros (_ & H & _); discriminate]|].
    split; [discriminate|]. intros _ _. split; reflexivity.
  - destruct (balanceOf_call w r) as [b|e].
    + destruct (contract_estimate_gas w r) as [g|e].
      * destruct (Z.ltb_spec 800000 g) as [Hg|Hg]; cbn [fst snd negb].
        -- split; [split; [discriminate|]|].
           ++ intros (_ & _ & _ & g' & Hg' & Hle). injection Hg' as <-. lia.
           ++ split; [discriminate|]. intros _ _. split; reflexivity.
        -- split; [split; [intros _|reflexivity]|].
           ++ split; [assumption|]. split; [reflexivity|].
              split; [exists b; reflexivity|exists g; split; [reflexivity|assumption]].
           ++ split; [reflexivity|discriminate].
      * cbn [fst snd negb]. split; [split; [discriminate|]|].
        -- intros (_ & _ & _ & g' & Hg' & _). discriminate.
        -- split; [discriminate|]. intros _ _. split; reflexivity.
    + cbn [fst snd negb]. split; [split; [discriminate|]|].
      * intros (_ & _ & (b & Hb) & _). discriminate.
      * split; [discriminate|]. intros _ _. split; reflexivity.
  - cbn [fst snd negb]. split; [split; [discriminate|intros (_ & H & _); discriminate]|].
    split; [discriminate|]. intros _ [old Hold]. discriminate.
Qed.


(** C6. [validate_route] accepts a route exactly when its net profit is
    at least [min_profit_threshold], the age test
    [time.time() - route.timestamp > 30] is false, the [balanceOf] call
    returns, and the simulated gas estimate returns a value of at most
    800000.  A rejected route (whose timestamp converts to a float) adds
    one DEBUG record in [validate_route] and one in [execute_routes] and
    changes nothing else; a route stamped [t] is rejected as too old
    whenever the clock reads [t + 31] or more.  The age test is the one
    on the real numbers up to the rounding of the subtraction: for a
    positive float clock and a timestamp in [[0, 2^53)], an age of at most
    30 s passes the test and an age of at least [30 + 2^-48] s (the first
    double above 30) fails it.  In particular, at a whole-second clock
    reading [n <= t + 30] the age test passes, and the route is accepted
    exactly when the other three conditions hold. *)
Theorem validate_route_accepts_iff w now x r :
  (fst (validate_route w now x r) = true <->
     min_profit_threshold (exec_config x) <= net_profit r /\
     route_too_old now r = Ok false /\
     (exists b, balanceOf_call w r = Ok b) /\
     (exists g, contract_estimate_gas w r = Ok g /\ g <= 800000)) /\
  (fst (validate_route w now x r) = true -> snd (validate_route w now x r) = x) /\
  (fst (validate_route w now x r) = false ->
     (exists old, route_too_old now r = Ok old) ->
     snd (validate_route w now x r) = logger x DEBUG /\
     execute_routes_step w now x r = logger (logger x DEBUG) DEBUG) /\
  (forall n,
     0 <= timestamp r -> timestamp r + 31 <= n < 2 ^ 53 ->
     fst (validate_route w (Z2SF n) x r) = false) /\
  (pos_fin now = true -> 0 <= timestamp r < 2 ^ 53 ->
     ((F2R now - IZR (timestamp r) <= 30)%R -> route_too_old now r = Ok false) /\
     ((30 + / IZR (2 ^ 48) <= F2R now - IZR (timestamp r))%R ->
      route_too_old now r = Ok true)) /\
  (forall n,
     0 <= timestamp r < 2 ^ 53 -> 0 < n < 2 ^ 53 -> n <= timestamp r + 30 ->
     route_too_old (Z2SF n) r = Ok false /\
     (fst (validate_route w (Z2SF n) x r) = true <->
        min_profit_threshold (exec_config x) <= net_profit r /\
        (exists b, balanceOf_call w r = Ok b) /\
        (exists g, contract_estimate_gas w r = Ok g /\ g <= 800000))).
Proof.
  destruct (validate_route_cases w now x r) as (H1 & H2 & H3).
  split; [exact H1|]. split; [exact H2|]. split; [exact H3|].
  split; [|split].
  - intros n Ht Hn. unfold validate_route.
    rewrite (route_too_old_after_31 n r Ht Hn).
    destruct (net_profit r <? min_profit_threshold (exec_config x)); reflexivity.
  - intros Hpn Ht. split; intros Hage.
    + exact (route_too_old_within_30 now r Hpn Ht Hage).
    + exact (route_too_old_beyond_30 now r Hpn Ht Hage).
  - intros n Ht Hn Hage.
    destruct (Z2SF_exact n Hn) as [Hpn Hvn].
    assert (Hok : route_too_old (Z2SF n) r = Ok false).
    { apply route_too_old_within_30; [exact Hpn|exact Ht|].
      rewrite Hvn, <- minus_IZR. apply IZR_le. lia. }
    split; [exact Hok|].
    destruct (validate_route_cases w (Z2SF n) x r) as (Hiff & _).
    rewrite Hiff. rewrite Hok. intuition.
Qed.

(** ** Executor: gas price *)

Lemma get_gas_price_le_cap w x : fst (get_gas_price w x) <= max_gas_price x.
Proof.
  unfold get_gas_price. destruct (get_gas_price_try w x) as [p|e] eqn:Ht; cbn [fst].
  - unfold get_gas_price_try in Ht.
    destruct (get_block_latest w) as [blk|]; [|discriminate]. cbn [bind] in Ht.
    destruct (if negb (dflt (baseFeePerGas blk) 0 =? 0)
              then eip1559_price (dflt (baseFeePerGas blk) 0) else eth_gas_price w)
      as [g|]; [|discriminate].
    cbn [bind] in Ht. injection Ht as <-. apply Z.le_min_r.
  - apply Z.le_min_r.
Qed.

Lemma prepare_transaction_fee w x r tx x2 :
  prepare_transaction w x r = (Ok tx, x2) -> maxFeePerGas tx = fst (get_gas_price w x).
Proof.
  unfold prepare_transaction. destruct (get_gas_price w x) as [gp x1]. cbn [fst].
  match goal with |- context [build_transaction w ?t] => set (tx0 := t) end.
  destruct (build_transaction w tx0); [|discriminate].
  pose proof (refine_gas_fee w x1 tx0) as Hf.
  destruct (refine_gas w x1 tx0) as [tx' x2']. cbn [fst] in Hf.
  intros H. injection H as <- <-. exact Hf.
Qed.

Lemma validate_route_witness :
  fst (validate_route node_legacy (Z2SF 1700000031) executor_0 (stale_route 1700000000))
    = false /\
  route_too_old (Z2SF 1700000030) (stale_route 1700000000) = Ok false /\
  fst (validate_route node_legacy (Z2SF 1700000030) executor_0 (stale_route 1700000000))
    = true.
Proof.
  pose proof (validate_route_accepts_iff node_legacy (Z2SF 0) executor_0
                (stale_route 1700000000)) as (_ & _ & _ & Hold & _ & Hyoung).
  split; [|split].
  - apply (Hold 1700000031); cbn; lia.
  - apply (Hyoung 1700000030); cbn; lia.
  - apply (proj2 (Hyoung 1700000030 ltac:(cbn; lia) ltac:(cbn; lia) ltac:(cbn; lia))).
    split; [vm_compute; discriminate|].
    split; [exists 0; reflexivity|exists 300000; split; [reflexivity|lia]].
Defined.

Lemma F2R_f_1_5 : pos_fin f_1_5 = true /\ (F2R f_1_5 = 3 / 2)%R.
Proof.
  split; [reflexivity|]. unfold f_1_5. cbn [F2R cond_Zopp].
  change (-52) with (- (52)). rewrite bpow_neg_IZR by lia.
  change (2 ^ 52) with 4503599627370496. field.
Qed.

Lemma eip1559_price_exact b :
  0 < b -> 3 * b < 2 ^ 53 -> eip1559_price b = Ok (3 * b / 2).
Proof.
  intros Hb0 Hb1. unfold eip1559_price.
  destruct (Z2SF_exact b ltac:(lia)) as [Hpb Hvb].
  rewrite float_of_int_exact by lia. cbn [bind].
  destruct F2R_f_1_5 as [Hp15 Hv15].
  pose proof (fmul_rounds _ _ Hpb Hp15) as Hr.
  assert (Hv : (F2R (Z2SF b) * F2R f_1_5 = IZR (3 * b) * bpow (- (1)))%R).
  { rewrite Hvb, Hv15, mult_IZR, bpow_neg_IZR by lia. change (2 ^ 1) with 2. field. }
  destruct (rounds_exact _ _ (3 * b) (- (1)) Hr Hv ltac:(lia) ltac:(lia)) as [Hp HF].
  destruct (int_of_float_floor _ (pos_fin_nonneg_fin _ Hp)) as (t & Ht & Ht1 & Ht2).
  rewrite Ht. f_equal. rewrite HF, Hv in Ht1, Ht2.
  rewrite bpow_neg_IZR in Ht1, Ht2 by lia. change (2 ^ 1) with 2 in Ht1, Ht2.
  assert (H1 : 2 * t <= 3 * b).
  { apply le_IZR. rewrite (mult_IZR 2 t). lra. }
  assert (H2 : 3 * b < 2 * t + 2).
  { apply lt_IZR. rewrite plus_IZR, (mult_IZR 2 t). lra. }
  apply Z.div_unique with (3 * b - 2 * t); lia.
Qed.

(** C10 (as the code has it). [get_gas_price] never returns more than
    [max_gas_price_gwei * 10^9]: with a non-zero base fee it returns
    [min(int(base_fee * 1.5), cap)], where [int(base_fee * 1.5)] is
    [floor(3 * base_fee / 2)] for every base fee below [2^53 / 3]; with no
    base fee it returns the node's gas price capped; when anything in the
    fetch raises it returns [min(30 * 10^9, cap)].  The transaction
    [execute_arbitrage] builds carries that value as [maxFeePerGas], so it
    never exceeds the cap. *)
Theorem gas_price_capped w x :
  fst (get_gas_price w x) <= max_gas_price x /\
  (forall blk p,
     get_block_latest w = Ok blk -> dflt (baseFeePerGas blk) 0 <> 0 ->
     eip1559_price (dflt (baseFeePerGas blk) 0) = Ok p ->
     fst (get_gas_price w x) = Z.min p (max_gas_price x)) /\
  (forall b, 0 < b -> 3 * b < 2 ^ 53 -> eip1559_price b = Ok (3 * b / 2)) /\
  (forall blk g,
     get_block_latest w = Ok blk -> dflt (baseFeePerGas blk) 0 = 0 ->
     eth_gas_price w = Ok g ->
     fst (get_gas_price w x) = Z.min g (max_gas_price x)) /\
  (forall e,
     get_gas_price_try w x = Raise e ->
     fst (get_gas_price w x) = Z.min (30 * 10 ^ 9) (max_gas_price x)) /\
  (forall r tx x2,
     prepare_transaction w x r = (Ok tx, x2) ->
     maxFeePerGas tx = fst (get_gas_price w x) /\ maxFeePerGas tx <= max_gas_price x).
Proof.
  split; [apply get_gas_price_le_cap|]. split; [|split; [|split; [|split]]].
  - intros blk p Hb Hnz Hp. unfold get_gas_price, get_gas_price_try.
    rewrite Hb. cbn [bind]. apply Z.eqb_neq in Hnz. rewrite Hnz. cbn [negb].
    rewrite Hp. reflexivity.
  - exact eip1559_price_exact.
  - intros blk g Hb Hz Hg. unfold get_gas_price, get_gas_price_try.
    rewrite Hb. cbn [bind]. rewrite Hz. cbn [negb Z.eqb]. rewrite Hg. reflexivity.
  - intros e He. unfold get_gas_price. rewrite He. reflexivity.
  - intros r tx x2 Hp. pose proof (prepare_transaction_fee w x r tx x2 Hp) as Hf.
    split; [assumption|]. rewrite Hf. apply get_gas_price_le_cap.
Qed.

Lemma gas_price_capped_witness :
  maxFeePerGas
    {| tx_route := stale_route 0; tx_nonce := 42; tx_gas := 600000;
       maxFeePerGas := 10 ^ 9; maxPriorityFeePerGas := 10 ^ 8; tx_chainId := 8453 |}
    = fst (get_gas_price node_legacy executor_0) /\
  maxFeePerGas
    {| tx_route := stale_route 0; tx_nonce := 42; tx_gas := 600000;
       maxFeePerGas := 10 ^ 9; maxPriorityFeePerGas := 10 ^ 8; tx_chainId := 8453 |}
    <= max_gas_price executor_0.
Proof.
  eapply (proj2 (proj2 (proj2 (proj2 (proj2 (gas_price_capped node_legacy executor_0)))))
            (stale_route 0)).
  vm_compute. reflexivity.
Defined.

(** C10, counterexample: the replacement transaction [emergency_stop]
    builds for a pending entry carries
    [maxFeePerGas = int(max_gas_price * 1.5)], 150 gwei under the default
    cap of 100 gwei. *)
Lemma emergency_stop_exceeds_cap :
  exists c,
    cancel_tx_for executor_0 sample_pending = Ok c /\
    max_gas_price executor_0 = 100 * 10 ^ 9 /\
    cancel_maxFeePerGas c = 150 * 10 ^ 9 /\
    max_gas_price executor_0 < cancel_maxFeePerGas c.
Proof.
  eexists. split; [vm_compute; reflexivity|]. repeat split.
Qed.

(** ** The accelerator path *)

Lemma for_each_In_conv {A B : Type} (body : A -> result (list B)) (r : B) :
  forall (l : list A) (out : list B) a o,
    for_each l body = Ok out -> In a l -> body a = Ok o -> In r o -> In r out.
Proof.
  induction l as [|a' l IH]; intros out a o H Ha Hb Hr; [contradiction|].
  cbn [for_each] in H.
  destruct (body a') as [o'|e] eqn:Hb'; [|discriminate]. cbn [bind] in H.
  destruct (for_each l body) as [more|e] eqn:Hm; [|discriminate]. cbn [bind] in H.
  injection H as <-. apply in_or_app. destruct Ha as [<-|Ha].
  - left. rewrite Hb in Hb'. injection Hb' as <-. assumption.
  - right. exact (IH more a o eq_refl Ha Hb Hr).
Qed.

Lemma for_each_ok_body {A B : Type} (body : A -> result (list B)) :
  forall (l : list A) (out : list B) a,
    for_each l body = Ok out -> In a l -> exists o, body a = Ok o.
Proof.
  induction l as [|a' l IH]; intros out a H Ha; [contradiction|].
  cbn [for_each] in H.
  destruct (body a') as [o'|e] eqn:Hb'; [|discriminate]. cbn [bind] in H.
  destruct (for_each l body) as [more|e] eqn:Hm; [|discriminate].
  destruct Ha as [<-|Ha]; [exists o'; assumption|].
  exact (IH more a eq_refl Ha).
Qed.

Lemma gpu_route_fields s now p r :
  gpu_route s now p = Ok r ->
  int_of_float p = Ok (expected_profit r) /\
  int_of_float (fsub p (Z2SF 2000000)) = Ok (net_profit r) /\
  gas_cost r = 2000000 /\ amount_in r = 10 ^ 18 /\
  swap_data r = [b_empty; b_empty] /\ getidx (tokens s) 0 = Ok (token r).
Proof.
  unfold gpu_route. intros H.
  destruct (getidx (tokens s) 0) as [tok|]; [|discriminate]. cbn [bind] in H.
  destruct (getidx (map snd (dex_configs s)) 0) as [d0|]; [|discriminate]. cbn [bind] in H.
  destruct (getidx (map snd (dex_configs s)) 1) as [d1|]; [|discriminate]. cbn [bind] in H.
  destruct (int_of_float p) as [ep|]; [|discriminate]. cbn [bind] in H.
  destruct (int_of_float (fsub p (Z2SF 2000000))) as [np|]; [|discriminate]. cbn [bind] in H.
  injection H as <-. cbn [expected_profit net_profit gas_cost amount_in swap_data token].
  repeat split.
Qed.

Lemma for_each_app {A B : Type} (body : A -> result (list B)) :
  forall (l1 l2 : list A) (o1 o2 : list B),
    for_each l1 body = Ok o1 -> for_each l2 body = Ok o2 ->
    for_each (l1 ++ l2) body = Ok (o1 ++ o2).
Proof.
  induction l1 as [|a l1 IH]; intros l2 o1 o2 H1 H2.
  - cbn [for_each] in H1. injection H1 as <-. exact H2.
  - cbn [for_each app] in *.
    destruct (body a) as [o|e]; [|discriminate]. cbn [bind] in *.
    destruct (for_each l1 body) as [more|e] eqn:Hm; [|discriminate]. cbn [bind] in H1.
    injection H1 as <-. rewrite (IH l2 more o2 eq_refl H2). cbn [bind].
    rewrite app_assoc. reflexivity.
Qed.

Lemma for_each_map {A A' B : Type} (f : A -> A') (body : A' -> result (list B)) :
  forall l : list A, for_each (map f l) body = for_each l (fun a => body (f a)).
Proof.
  induction l as [|a l IH]; [reflexivity|].
  cbn [map for_each]. rewrite IH. reflexivity.
Qed.

(** Two nested loops visit the pairs of [list_prod] in order. *)
Lemma for_each_list_prod {A A' B : Type} (body : A * A' -> result (list B)) (l2 : list A') :
  forall (l1 : list A) (out : list B),
    for_each l1 (fun i => for_each l2 (fun j => body (i, j))) = Ok out ->
    for_each (list_prod l1 l2) body = Ok out.
Proof.
  induction l1 as [|i l1 IH]; intros out H; cbn [for_each list_prod] in *; [exact H|].
  destruct (for_each l2 (fun j => body (i, j))) as [o|e] eqn:Hi; [|discriminate].
  cbn [bind] in H.
  destruct (for_each l1 (fun i => for_each l2 (fun j => body (i, j)))) as [more|e] eqn:Hm;
    [|discriminate].
  cbn [bind] in H. injection H as <-.
  apply for_each_app; [|exact (IH more eq_refl)].
  rewrite for_each_map. exact Hi.
Qed.

(** A loop whose body appends one element for the items passing a test
    and nothing for the others yields one element for each item that
    passes, in order. *)
Lemma for_each_filter_Forall2 {A B : Type} (test : A -> bool) (R : A -> B -> Prop)
    (body : A -> result (list B)) :
  (forall a o, body a = Ok o ->
     if test a then exists r, o = [r] /\ R a r else o = []) ->
  forall (l : list A) (out : list B),
    for_each l body = Ok out -> Forall2 R (filter test l) out.
Proof.
  intros Hbody. induction l as [|a l IH]; intros out H; cbn [for_each filter] in *.
  - injection H as <-. constructor.
  - destruct (body a) as [o|e] eqn:Hb; [|discriminate]. cbn [bind] in H.
    destruct (for_each l body) as [more|e] eqn:Hm; [|discriminate]. cbn [bind] in H.
    injection H as <-. specialize (Hbody a o Hb).
    destruct (test a).
    + destruct Hbody as (r & -> & HR). cbn [app]. constructor; [exact HR|].
      exact (IH more eq_refl).
    + subst o. exact (IH more eq_refl).
Qed.

Lemma for_each_Forall_ok {A B : Type} (body : A -> result (list B)) :
  forall (l : list A) (out : list B),
    for_each l body = Ok out -> Forall (fun a => exists o, body a = Ok o) l.
Proof.
  intros l out H. apply Forall_forall. intros a Ha.
  exact (for_each_ok_body body l out a H Ha).
Qed.

(** C2 (as the code has it). With CuPy present, [_calculate_routes_gpu]
    returns one route, and only one, for each cell [(i, j)] of the
    float64 profit matrix whose value exceeds [min_profit_threshold], in
    row-major order of the cells: the route list is in one-to-one
    correspondence with the list of the cells that pass the comparison.
    The route of a cell is the one [gpu_route] builds from the cell at some
    reading of the clock: [expected_profit = int(profits[i][j])],
    [net_profit = int(profits[i][j] - 2000000)], gas cost 2000000, amount
    [10^18], the first configured token and empty swap data.  The cell is
    the float64 two-swap formula on rows [i] and [j] (0.0 on the
    diagonal), and the comparison returned for every cell; no integer
    formula, token test or reserve test is applied before emission. *)
Theorem accelerator_routes_are_matrix_cells s now pools routes :
  gpu_available s = true ->
  _calculate_routes_gpu s now pools = Ok routes ->
  exists rows,
    pool_rows (all_pools pools) = Ok rows /\
    let cells := list_prod (seq 0 (List.length rows)) (seq 0 (List.length rows)) in
    Forall (fun ij => exists above,
              float_gt_int (numpy_gt_big_int s) (gpu_profit rows (fst ij) (snd ij))
                (min_profit_threshold (config s)) = Ok above) cells /\
    Forall2 (fun ij r =>
               (exists t, gpu_route s t (gpu_profit rows (fst ij) (snd ij)) = Ok r) /\
               int_of_float (gpu_profit rows (fst ij) (snd ij)) = Ok (expected_profit r) /\
               int_of_float (fsub (gpu_profit rows (fst ij) (snd ij)) (Z2SF 2000000))
                 = Ok (net_profit r) /\
               gas_cost r = 2000000 /\ amount_in r = 10 ^ 18 /\
               swap_data r = [b_empty; b_empty] /\
               getidx (tokens s) 0 = Ok (token r))
            (filter (cell_above s rows) cells) routes.
Proof.
  intros Hg H. unfold _calculate_routes_gpu in H. rewrite Hg in H. cbn [negb] in H.
  unfold _calculate_routes_gpu_accel in H.
  destruct (pool_rows (all_pools pools)) as [rows|e] eqn:Hrows; [|discriminate].
  cbn [bind] in H. exists rows. split; [reflexivity|]. cbv zeta.
  pose (body := fun ij : nat * nat =>
          above <- float_gt_int (numpy_gt_big_int s) (gpu_profit rows (fst ij) (snd ij))
                     (min_profit_threshold (config s)) ;;
          if above then
            r <- gpu_route s now (gpu_profit rows (fst ij) (snd ij)) ;;
            Ok [r]
          else Ok []).
  assert (Hflat : for_each (list_prod (seq 0 (List.length rows)) (seq 0 (List.length rows)))
                    body = Ok routes)
    by (apply for_each_list_prod; exact H).
  split.
  - pose proof (for_each_Forall_ok body _ _ Hflat) as Hok.
    apply Forall_forall. intros ij Hin.
    rewrite Forall_forall in Hok. destruct (Hok ij Hin) as [o Ho]. unfold body in Ho.
    destruct (float_gt_int (numpy_gt_big_int s) (gpu_profit rows (fst ij) (snd ij))
                (min_profit_threshold (config s))) as [above|e]; [|discriminate].
    exists above. reflexivity.
  - apply (for_each_filter_Forall2 (cell_above s rows) _ body); [|exact Hflat].
    intros ij o Hb. unfold body in Hb. unfold cell_above.
    destruct (float_gt_int (numpy_gt_big_int s) (gpu_profit rows (fst ij) (snd ij))
                (min_profit_threshold (config s))) as [[|]|e]; cbn [bind] in Hb;
      try discriminate.
    + destruct (gpu_route s now (gpu_profit rows (fst ij) (snd ij))) as [r|e] eqn:Hr;
        [|discriminate].
      cbn [bind] in Hb. injection Hb as <-. exists r. split; [reflexivity|].
      destruct (gpu_route_fields _ _ _ _ Hr) as (F1 & F2 & F3 & F4 & F5 & F6).
      split; [exists now; exact Hr|]. repeat split; assumption.
    + injection Hb as <-. reflexivity.
Qed.

Lemma accelerator_routes_witness :
  exists rows,
    pool_rows (all_pools (fetch_top_pools chain_Z_C (gpu_scanner (10 ^ 16)))) = Ok rows /\
    let cells := list_prod (seq 0 (List.length rows)) (seq 0 (List.length rows)) in
    Forall (fun ij => exists above,
              float_gt_int (numpy_gt_big_int (gpu_scanner (10 ^ 16)))
                (gpu_profit rows (fst ij) (snd ij))
                (min_profit_threshold (config (gpu_scanner (10 ^ 16)))) = Ok above) cells /\
    Forall2 (fun ij r =>
               (exists t, gpu_route (gpu_scanner (10 ^ 16)) t
                            (gpu_profit rows (fst ij) (snd ij)) = Ok r) /\
               int_of_float (gpu_profit rows (fst ij) (snd ij)) = Ok (expected_profit r) /\
               int_of_float (fsub (gpu_profit rows (fst ij) (snd ij)) (Z2SF 2000000))
                 = Ok (net_profit r) /\
               gas_cost r = 2000000 /\ amount_in r = 10 ^ 18 /\
               swap_data r = [b_empty; b_empty] /\
               getidx (tokens (gpu_scanner (10 ^ 16))) 0 = Ok (token r))
            (filter (cell_above (gpu_scanner (10 ^ 16)) rows) cells)
            [route_through_empty_pool].
Proof.
  apply (accelerator_routes_are_matrix_cells (gpu_scanner (10 ^ 16)) 7
           (fetch_top_pools chain_Z_C (gpu_scanner (10 ^ 16)))).
  - reflexivity.
  - vm_compute. reflexivity.
Defined.

(** C2, counterexample: a scan whose pools are the ones [fetch_top_pools]
    returns for a chain with a pair with an empty WETH side at uniswap_v2
    and an ordinary pair at sushiswap.  The accelerator path emits a route
    with an expected profit of about 665 WETH, although the integer
    formula gives 0 for the first hop; on the same pools the CPU path
    emits nothing (it raises at the first uniswap_v3 pool).  With two
    configured tokens, where no uniswap_v3 pool is fetched, the
    accelerator path emits the same route and the CPU path returns the
    empty list. *)
Lemma accelerator_emits_unvalidated_route :
  _calculate_routes_gpu (gpu_scanner (10 ^ 16)) 7
      (fetch_top_pools chain_Z_C (gpu_scanner (10 ^ 16)))
    = Ok [route_through_empty_pool] /\
  In pool_Z (all_pools (fetch_top_pools chain_Z_C (gpu_scanner (10 ^ 16)))) /\
  expected_profit route_through_empty_pool = 664998663994656030720 /\
  amm_out_spec (10 ^ 18) 0 (4 * 10 ^ 24) 997 1000 = 0 /\
  routes_of (_calculate_routes_cpu (gpu_scanner (10 ^ 16)) 7
               (fetch_top_pools chain_Z_C (gpu_scanner (10 ^ 16)))) = [] /\
  all_pools (fetch_top_pools chain_Z_C (two_token_gpu_scanner (10 ^ 16)))
    = [pool_Z; pool_C] /\
  _calculate_routes_gpu (two_token_gpu_scanner (10 ^ 16)) 7
      (fetch_top_pools chain_Z_C (two_token_gpu_scanner (10 ^ 16)))
    = Ok [route_through_empty_pool] /\
  _calculate_routes_cpu (two_token_gpu_scanner (10 ^ 16)) 7
      (fetch_top_pools chain_Z_C (two_token_gpu_scanner (10 ^ 16)))
    = Ok [].
Proof.
  split; [vm_compute; reflexivity|]. split; [left; vm_compute; reflexivity|].
  split; [reflexivity|]. split; [reflexivity|].
  split; [vm_compute; reflexivity|]. split; [vm_compute; reflexivity|].
  split; vm_compute; reflexivity.
Qed.

(** ** Monotonicity of the swap output *)

Lemma swap_tail_nonneg a Ri Ro y :
  nonneg_ext a = true -> pos_fin Ri = true -> pos_fin Ro = true ->
  swap_tail a Ri Ro = Ok y -> 0 <= y.
Proof.
  intros Ha HRi HRo H.
  destruct (swap_tail_inv a Ri Ro y Ha HRi HRo H) as (_ & _ & [[_ ->]|(_ & Hq & Hy)]); [lia|].
  exact (int_of_float_nonneg _ _ Hq Hy).
Qed.

Lemma swap_tail_mono_out a Ri Ro Ro' y y' :
  nonneg_ext a = true -> pos_fin Ri = true -> pos_fin Ro = true -> pos_fin Ro' = true ->
  (F2R Ro <= F2R Ro')%R ->
  swap_tail a Ri Ro = Ok y -> swap_tail a Ri Ro' = Ok y' -> y <= y'.
Proof.
  intros Ha HRi HRo HRo' Hle H H'.
  destruct (swap_tail_inv a Ri Ro y Ha HRi HRo H) as (Haf & Hn & Hc).
  destruct (swap_tail_inv a Ri Ro' y' Ha HRi HRo' H') as (_ & Hn' & Hc').
  destruct Hc as [[Hd ->]|(Hd & Hq & Hy)]; destruct Hc' as [[Hd' ->]|(Hd' & Hq' & Hy')].
  - lia.
  - rewrite Hd in Hd'. discriminate.
  - rewrite Hd' in Hd. discriminate.
  - pose proof (F2R_nonneg_fin a Haf) as Ha0.
    pose proof (F2R_pos_fin Ro HRo) as HRo0.
    pose proof (F2R_pos_fin _ Hd) as Hd0.
    assert (Hnn : (F2R (fmul a Ro) <= F2R (fmul a Ro'))%R).
    { rewrite <- (xval_nonneg_fin _ Hn), <- (xval_nonneg_fin _ Hn').
      apply (rounds0_mono (F2R a * F2R Ro) (F2R a * F2R Ro')).
      - nra.
      - apply fmul_rounds0; [assumption|apply pos_fin_nonneg_fin; assumption].
      - apply fmul_rounds0; [assumption|apply pos_fin_nonneg_fin; assumption]. }
    apply (int_of_float_mono _ _ y y' Hq Hq'); try assumption.
    rewrite <- (xval_nonneg_fin _ Hq), <- (xval_nonneg_fin _ Hq').
    apply (rounds0_mono (F2R (fmul a Ro) / F2R (fadd Ri a))
                        (F2R (fmul a Ro') / F2R (fadd Ri a))).
    + apply Rmult_le_compat_r; [|assumption].
      apply Rlt_le, Rinv_0_lt_compat. assumption.
    + apply fdiv_rounds0; assumption.
    + apply fdiv_rounds0; assumption.
Qed.

Lemma swap_tail_mono_in a Ri Ri' Ro y y' :
  nonneg_ext a = true -> pos_fin Ri = true -> pos_fin Ri' = true -> pos_fin Ro = true ->
  (F2R Ri <= F2R Ri')%R ->
  swap_tail a Ri Ro = Ok y -> swap_tail a Ri' Ro = Ok y' -> y' <= y.
Proof.
  intros Ha HRi HRi' HRo Hle H H'.
  pose proof (swap_tail_nonneg a Ri Ro y Ha HRi HRo H) as Hy0.
  destruct (swap_tail_inv a Ri Ro y Ha HRi HRo H) as (Haf & Hn & Hc).
  destruct (swap_tail_inv a Ri' Ro y' Ha HRi' HRo H') as (_ & _ & Hc').
  destruct (fadd_reserve_rounds Ri a HRi Haf) as (Hr & _ & _).
  destruct (fadd_reserve_rounds Ri' a HRi' Haf) as (Hr' & _ & _).
  pose proof (F2R_nonneg_fin a Haf) as Ha0.
  pose proof (F2R_pos_fin Ri HRi) as HRi0.
  assert (Hdd : (xval (fadd Ri a) <= xval (fadd Ri' a))%R).
  { apply (rounds_mono (F2R Ri + F2R a) (F2R Ri' + F2R a)); [lra|assumption|assumption]. }
  destruct Hc' as [[Hd' ->]|(Hd' & Hq' & Hy')]; [assumption|].
  destruct Hc as [[Hd ->]|(Hd & Hq & Hy)].
  - exfalso. rewrite Hd in Hdd. cbn [xval] in Hdd.
    rewrite (xval_pos_fin _ Hd') in Hdd. pose proof (F2R_lt_bpow_emax _ Hd'). lra.
  - rewrite (xval_pos_fin _ Hd), (xval_pos_fin _ Hd') in Hdd.
    pose proof (F2R_pos_fin _ Hd) as Hd0. pose proof (F2R_pos_fin _ Hd') as Hd0'.
    pose proof (F2R_nonneg_fin _ Hn) as Hn0.
    apply (int_of_float_mono _ _ y' y Hq' Hq); try assumption.
    rewrite <- (xval_nonneg_fin _ Hq), <- (xval_nonneg_fin _ Hq').
    apply (rounds0_mono (F2R (fmul a Ro) / F2R (fadd Ri' a))
                        (F2R (fmul a Ro) / F2R (fadd Ri a))).
    + apply Rmult_le_compat_l; [assumption|].
      apply Rinv_le_contravar; assumption.
    + apply fdiv_rounds0; assumption.
    + apply fdiv_rounds0; assumption.
Qed.

Lemma swap_output_nonneg x ri ro f y :
  0 <= x -> 0 <= ri -> 0 <= ro -> nonneg_fin (fsub f_1 f) = true ->
  _calculate_swap_output x ri ro f = Ok y -> 0 <= y.
Proof.
  intros Hx Hri Hro Hc H.
  destruct (Z.eq_dec ri 0) as [->|Hri0];
    [rewrite swap_output_zero_reserve_in in H; injection H as <-; lia|].
  destruct (Z.eq_dec ro 0) as [->|Hro0];
    [rewrite swap_output_zero_reserve_out in H; injection H as <-; lia|].
  destruct (swap_output_tail _ _ _ _ _ Hri0 Hro0 H) as (X & Ro & Ri & HX & HRo & HRi & Ht).
  destruct (float_of_int_rounds0 x X Hx HX) as [HXn _].
  destruct (float_of_int_pos ro Ro ltac:(lia) HRo) as [HRop _].
  destruct (float_of_int_pos ri Ri ltac:(lia) HRi) as [HRip _].
  exact (swap_tail_nonneg _ _ _ _ (fee_input_nonneg X _ HXn Hc) HRip HRop Ht).
Qed.

(** C8 (as the code has it). For an amount [x >= 0] and a fee whose
    factor [1 - fee] is zero or a positive finite double, the swap output
    is never negative, is nondecreasing in the output reserve over all
    reserves [>= 0], and is nonincreasing in the input reserve over input
    reserves [>= 1]; two outputs are compared whenever both calls
    return, and with a configured fee every call on an amount and reserves
    in [[0, 2^256)] returns. *)
Theorem swap_output_monotone_in_reserves x f :
  0 <= x -> nonneg_fin (fsub f_1 f) = true ->
  (forall ri ro y, 0 <= ri -> 0 <= ro ->
     _calculate_swap_output x ri ro f = Ok y -> 0 <= y) /\
  (forall ri ro ro' y y', 0 <= ri -> 0 <= ro <= ro' ->
     _calculate_swap_output x ri ro f = Ok y ->
     _calculate_swap_output x ri ro' f = Ok y' -> y <= y') /\
  (forall ri ri' ro y y', 1 <= ri <= ri' -> 0 <= ro ->
     _calculate_swap_output x ri ro f = Ok y ->
     _calculate_swap_output x ri' ro f = Ok y' -> y' <= y) /\
  (forall fee_num fee_den ri ro,
     configured_fee f fee_num fee_den ->
     x < 2 ^ 256 -> 0 <= ri < 2 ^ 256 -> 0 <= ro < 2 ^ 256 ->
     exists y, _calculate_swap_output x ri ro f = Ok y).
Proof.
  intros Hx Hc. split; [|split; [|split]].
  - intros ri ro y Hri Hro H. exact (swap_output_nonneg x ri ro f y Hx Hri Hro Hc H).
  - intros ri ro ro' y y' Hri [Hro Hle] H H'.
    destruct (Z.eq_dec ri 0) as [->|Hri0].
    { rewrite swap_output_zero_reserve_in in H, H'. injection H as <-. injection H' as <-. lia. }
    destruct (Z.eq_dec ro 0) as [->|Hro0].
    { rewrite swap_output_zero_reserve_out in H. injection H as <-.
      exact (swap_output_nonneg x ri ro' f y' Hx Hri ltac:(lia) Hc H'). }
    destruct (swap_output_tail _ _ _ _ _ Hri0 Hro0 H) as (X & Ro & Ri & HX & HRo & HRi & Ht).
    destruct (swap_output_tail x ri ro' f y' Hri0 ltac:(lia) H')
      as (X' & Ro' & Ri' & HX' & HRo' & HRi' & Ht').
    rewrite HX in HX'. injection HX' as <-. rewrite HRi in HRi'. injection HRi' as <-.
    destruct (float_of_int_rounds0 x X Hx HX) as [HXn _].
    destruct (float_of_int_pos ro Ro ltac:(lia) HRo) as [HRop _].
    destruct (float_of_int_pos ro' Ro' ltac:(lia) HRo') as [HRop' _].
    destruct (float_of_int_pos ri Ri ltac:(lia) HRi) as [HRip _].
    apply (swap_tail_mono_out (fmul X (fsub f_1 f)) Ri Ro Ro' y y'); try assumption.
    + apply fee_input_nonneg; assumption.
    + apply (float_of_int_mono ro ro'); [lia|assumption|assumption].
  - intros ri ri' ro y y' [Hri Hle] Hro H H'.
    destruct (Z.eq_dec ro 0) as [->|Hro0].
    { rewrite swap_output_zero_reserve_out in H, H'. injection H as <-. injection H' as <-. lia. }
    destruct (swap_output_tail x ri ro f y ltac:(lia) Hro0 H) as (X & Ro & Ri & HX & HRo & HRi & Ht).
    destruct (swap_output_tail x ri' ro f y' ltac:(lia) Hro0 H')
      as (X' & Ro' & Ri' & HX' & HRo' & HRi' & Ht').
    rewrite HX in HX'. injection HX' as <-. rewrite HRo in HRo'. injection HRo' as <-.
    destruct (float_of_int_rounds0 x X Hx HX) as [HXn _].
    destruct (float_of_int_pos ro Ro ltac:(lia) HRo) as [HRop _].
    destruct (float_of_int_pos ri Ri ltac:(lia) HRi) as [HRip _].
    destruct (float_of_int_pos ri' Ri' ltac:(lia) HRi') as [HRip' _].
    apply (swap_tail_mono_in (fmul X (fsub f_1 f)) Ri Ri' Ro y y'); try assumption.
    + apply fee_input_nonneg; assumption.
    + apply (float_of_int_mono ri ri'); [lia|assumption|assumption].
  - intros fn fd ri ro Hf Hx' Hri Hro.
    apply (swap_output_total f fn fd); (assumption || lia).
Qed.

Lemma swap_output_monotone_witness :
  exists y y',
    _calculate_swap_output (10 ^ 18) (10 ^ 21) (2 * 10 ^ 24) f_0_003 = Ok y /\
    _calculate_swap_output (10 ^ 18) (10 ^ 21) (3 * 10 ^ 24) f_0_003 = Ok y' /\
    y <= y'.
Proof.
  eexists. eexists.
  split; [vm_compute; reflexivity|]. split; [vm_compute; reflexivity|].
  apply (proj1 (proj2 (swap_output_monotone_in_reserves (10 ^ 18) f_0_003
                         ltac:(vm_compute; discriminate) eq_refl))
           (10 ^ 21) (2 * 10 ^ 24) (3 * 10 ^ 24)).
  - vm_compute. discriminate.
  - split; vm_compute; discriminate.
  - vm_compute. reflexivity.
  - vm_compute. reflexivity.
Defined.

(** C8, counterexample: at fee 0.003 the output for
    [x = 5 * 10^16 + 10] is smaller than the output for [x = 5 * 10^16]
    (reserves 10^20 and 10^24), and the output at input reserve 0 is
    smaller than at input reserve 1. *)
Lemma swap_output_not_monotone :
  _calculate_swap_output (5 * 10 ^ 16) (10 ^ 20) (10 ^ 24) f_0_003
    = Ok 498251621566649073664 /\
  _calculate_swap_output (5 * 10 ^ 16 + 10) (10 ^ 20) (10 ^ 24) f_0_003
    = Ok 498251621566649008128 /\
  498251621566649008128 < 498251621566649073664 /\
  _calculate_swap_output 5 0 7 f_0_003 = Ok 0 /\
  _calculate_swap_output 5 1 7 f_0_003 = Ok 5.
Proof.
  split; [vm_compute; reflexivity|]. split; [vm_compute; reflexivity|].
  split; [reflexivity|]. split; vm_compute; reflexivity.
Qed.

(** C1 (as the code has it). The swap output is computed in binary64
    floating point.  For a configured fee [1 - fee_num / fee_den] (0.003 as
    997/1000, 0.0025 as 9975/10000) and an amount and reserves in
    [[0, 2^256)], the call returns a non-negative integer [y] that differs
    from the integer formula [s = floor (x * fee_num * r_out /
    (r_in * fee_den + x * fee_num))] by at most one unit plus a relative
    error of [2^-45]: [(y - s - 1) * 2^45 <= s] and
    [(s - y - 1) * 2^45 <= y]; when the amount or a reserve is 0 both are
    0. *)
Theorem swap_output_close_to_integer_formula f fee_num fee_den x r_in r_out :
  configured_fee f fee_num fee_den ->
  0 <= x < 2 ^ 256 -> 0 <= r_in < 2 ^ 256 -> 0 <= r_out < 2 ^ 256 ->
  exists y,
    _calculate_swap_output x r_in r_out f = Ok y /\
    0 <= y /\
    (y - amm_out_spec x r_in r_out fee_num fee_den - 1) * 2 ^ 45
      <= amm_out_spec x r_in r_out fee_num fee_den /\
    (amm_out_spec x r_in r_out fee_num fee_den - y - 1) * 2 ^ 45 <= y /\
    (x = 0 \/ r_in = 0 \/ r_out = 0 ->
     y = 0 /\ amm_out_spec x r_in r_out fee_num fee_den = 0).
Proof.
  intros Hf Hx Hri Hro. pose proof pow2_256_le_300 as Hp.
  destruct (configured_fee_facts f fee_num fee_den Hf) as (Hc & _ & _ & Hfn & Hfd1 & Hfd2).
  destruct (Z.eq_dec r_in 0) as [->|Hri0].
  { exists 0. rewrite swap_output_zero_reserve_in. unfold amm_out_spec. cbn [Z.eqb orb].
    repeat split; lia. }
  destruct (Z.eq_dec r_out 0) as [->|Hro0].
  { exists 0. rewrite swap_output_zero_reserve_out. unfold amm_out_spec.
    rewrite orb_true_r. repeat split; lia. }
  pose proof (amm_out_spec_bounds x r_in r_out fee_num fee_den
                ltac:(lia) ltac:(lia) ltac:(lia) Hfn ltac:(lia)) as Hs.
  cbv zeta in Hs. set (s := amm_out_spec x r_in r_out fee_num fee_den) in *.
  destruct (Z.eq_dec x 0) as [->|Hx0].
  { exists 0. rewrite swap_output_zero_input_total by (assumption || lia).
    assert (Hs0 : s = 0) by nia.
    rewrite Hs0. repeat split; lia. }
  destruct (swap_output_accuracy f fee_num fee_den x r_in r_out Hf)
    as (y & Hy & Hy0 & Hup & Hlo); try lia.
  exists y. split; [exact Hy|]. split; [exact Hy0|].
  set (D := r_in * fee_den + x * fee_num) in *.
  set (N := x * fee_num * r_out) in *.
  assert (HD : 0 < D) by (unfold D; nia).
  assert (HP : 0 < 2 ^ 45) by reflexivity.
  split; [|split].
  - apply (cancel_scaled_bound y s D); try assumption.
    apply Z.le_lt_trans with (N * (2 ^ 45 + 1)); [exact Hup|].
    apply Z.mul_lt_mono_pos_r; lia.
  - apply (cancel_scaled_bound s y D); try assumption.
    apply Z.le_lt_trans with (N * 2 ^ 45); [|exact Hlo].
    apply Z.mul_le_mono_nonneg_r; lia.
  - intros [H|[H|H]]; contradiction.
Qed.

Lemma swap_output_close_witness :
  exists y,
    _calculate_swap_output (10 ^ 18) (10 ^ 21) (2 * 10 ^ 24) f_0_003 = Ok y /\
    (y - 1992013962079806432986 - 1) * 2 ^ 45 <= 1992013962079806432986 /\
    (1992013962079806432986 - y - 1) * 2 ^ 45 <= y.
Proof.
  destruct (swap_output_close_to_integer_formula f_0_003 997 1000
              (10 ^ 18) (10 ^ 21) (2 * 10 ^ 24)) as (y & Hy & _ & H1 & H2 & _).
  - left. split; [reflexivity|]. split; reflexivity.
  - split; vm_compute; [discriminate|reflexivity].
  - split; vm_compute; [discriminate|reflexivity].
  - split; vm_compute; [discriminate|reflexivity].
  - exists y. split; [exact Hy|]. split; [exact H1|exact H2].
Defined.

(** C1, counterexample: for the amount 10^18 and the reserves 10^21 and
    2 * 10^24 at fee 0.003 the code returns 1992013962079806423040, while
    the integer formula with fee 997/1000 gives
    1992013962079806432986. *)
Lemma swap_output_differs_from_integer_formula :
  _calculate_swap_output (10 ^ 18) (10 ^ 21) (2 * 10 ^ 24) f_0_003
    = Ok 1992013962079806423040 /\
  amm_out_spec (10 ^ 18) (10 ^ 21) (2 * 10 ^ 24) 997 1000
    = 1992013962079806432986 /\
  1992013962079806423040 < 1992013962079806432986.
Proof.
  split; [vm_compute; reflexivity|]. split; [vm_compute; reflexivity|reflexivity].
Qed.

(** C7 (as the code has it). For a configured fee (0.003 or 0.0025), an
    amount in [[0, 2^256)] and a pool whose two reserves are positive and
    below [2^256], both swaps of the round trip return, and the amount
    that comes back is at most the amount that went in. *)
Theorem round_trip_never_gains f fee_num fee_den x r_A r_B :
  configured_fee f fee_num fee_den ->
  0 <= x < 2 ^ 256 -> 0 < r_A < 2 ^ 256 -> 0 < r_B < 2 ^ 256 ->
  exists y z,
    _calculate_swap_output x r_A r_B f = Ok y /\
    _calculate_swap_output y r_B r_A f = Ok z /\
    0 <= z <= x.
Proof.
  intros Hf Hx HrA HrB. pose proof pow2_256_le_300 as Hp.
  destruct (configured_fee_facts f fee_num fee_den Hf) as (Hc & _ & _ & Hfn & Hfd1 & Hfd2).
  destruct (Z.eq_dec x 0) as [->|Hx0].
  { exists 0, 0. rewrite !swap_output_zero_input_total by (assumption || lia).
    repeat split; lia. }
  destruct (swap_output_accuracy f fee_num fee_den x r_A r_B Hf)
    as (y & Hy & Hy0 & Hup & _); try lia.
  exists y.
  destruct (Z.eq_dec y 0) as [->|Hy1].
  { exists 0. rewrite swap_output_zero_input_total by (assumption || lia).
    repeat split; (assumption || lia). }
  assert (HP : 0 < 2 ^ 45) by reflexivity.
  set (P := 2 ^ 45) in *.
  assert (Hybound : y <= 2 * r_B).
  { set (D := r_A * fee_den + x * fee_num) in *.
    assert (HD : 0 < D) by (unfold D; nia).
    assert (HxD : x * fee_num <= D) by (unfold D; nia).
    assert (H1 : x * fee_num * (r_B * (P + 1)) <= D * (r_B * (P + 1)))
      by (apply Z.mul_le_mono_nonneg_r; [nia|exact HxD]).
    assert (H2 : D * (y * P) <= D * (r_B * (P + 1))) by lia.
    apply Z.mul_le_mono_pos_l in H2; [|exact HD].
    assert (H3 : y * P <= 2 * r_B * P) by nia.
    apply Z.mul_le_mono_pos_r in H3; assumption. }
  assert (H257 : 2 * 2 ^ 256 <= 2 ^ 300) by (vm_compute; discriminate).
  destruct (swap_output_accuracy f fee_num fee_den y r_B r_A Hf)
    as (z & Hz & Hz0 & Hup2 & _); try lia.
  exists z. split; [exact Hy|]. split; [exact Hz|]. split; [exact Hz0|].
  apply (round_trip_algebra x y z r_A r_B (fee_den * P) (fee_num * (P + 1)));
    lia.
Qed.

Lemma round_trip_witness :
  exists y z,
    _calculate_swap_output (10 ^ 18) (10 ^ 21) (2 * 10 ^ 24) f_0_003 = Ok y /\
    _calculate_swap_output y (2 * 10 ^ 24) (10 ^ 21) f_0_003 = Ok z /\
    0 <= z <= 10 ^ 18.
Proof.
  apply (round_trip_never_gains f_0_003 997 1000 (10 ^ 18) (10 ^ 21) (2 * 10 ^ 24)).
  - left. split; [reflexivity|]. split; reflexivity.
  - split; vm_compute; [discriminate|reflexivity].
  - split; vm_compute; reflexivity.
  - split; vm_compute; reflexivity.
Defined.

(** C7, counterexample: at fee 0.0 the pool with both reserves [2^110]
    turns the amount [2^53 + 3] into [2^53 + 4] and that amount back into
    [2^53 + 4]. *)
Lemma round_trip_gains_at_zero_fee :
  _calculate_swap_output (2 ^ 53 + 3) (2 ^ 110) (2 ^ 110) (S754_zero false)
    = Ok (2 ^ 53 + 4) /\
  _calculate_swap_output (2 ^ 53 + 4) (2 ^ 110) (2 ^ 110) (S754_zero false)
    = Ok (2 ^ 53 + 4) /\
  2 ^ 53 + 3 < 2 ^ 53 + 4.
Proof.
  split; [vm_compute; reflexivity|]. split; [vm_compute; reflexivity|reflexivity].
Qed.

(** ** Fetching V2 pools *)


Lemma length_range a b : List.length (range a b) = Z.to_nat (b - a).
Proof. unfold range. rewrite length_map, length_seq. reflexivity. Qed.

Lemma length_v2_sample_indices n : (List.length (v2_sample_indices n) <= 20)%nat.
Proof. unfold v2_sample_indices. rewrite length_range. lia. Qed.


Lemma length_collect_ok {A B : Type} (body : A -> result B) (l : list A) :
  (List.length (collect_ok body l) <= List.length l)%nat.
Proof.
  induction l as [|a l IH]; cbn [collect_ok List.length]; [lia|].
  destruct (body a); cbn [List.length]; lia.
Qed.

Lemma insert_by_tvl_perm p l : Permutation (insert_by_tvl p l) (p :: l).
Proof.
  induction l as [|q l IH]; cbn [insert_by_tvl]; [reflexivity|].
  destruct (tvl p <? tvl q); [|reflexivity].
  rewrite IH. apply perm_swap.
Qed.

Lemma sort_by_tvl_perm l : Permutation (sort_by_tvl l) l.
Proof.
  induction l as [|p l IH]; cbn; [constructor|].
  fold (sort_by_tvl l). rewrite insert_by_tvl_perm. constructor. exact IH.
Qed.

Lemma insert_by_tvl_sorted p l :
  StronglySorted (fun a b => tvl b <= tvl a) l ->
  StronglySorted (fun a b => tvl b <= tvl a) (insert_by_tvl p l).
Proof.
  induction l as [|q l IH]; intros Hs; cbn [insert_by_tvl].
  - repeat constructor.
  - destruct (tvl p <? tvl q) eqn:Hlt.
    + apply Z.ltb_lt in Hlt. inversion Hs as [|? ? Hs' Hall]; subst.
      constructor; [apply IH; assumption|].
      apply Forall_forall. intros r Hr.
      apply (Permutation_in _ (insert_by_tvl_perm p l)) in Hr.
      destruct Hr as [<-|Hr]; [lia|].
      rewrite Forall_forall in Hall. apply Hall. assumption.
    + apply Z.ltb_ge in Hlt. constructor; [assumption|].
      inversion Hs as [|? ? Hs' Hall]; subst.
      constructor; [assumption|].
      eapply Forall_impl; [|exact Hall]. cbn. intros; lia.
Qed.

Lemma sort_by_tvl_sorted l : StronglySorted (fun a b => tvl b <= tvl a) (sort_by_tvl l).
Proof.
  induction l as [|p l IH]; cbn; [constructor|].
  fold (sort_by_tvl l). apply insert_by_tvl_sorted. exact IH.
Qed.

Lemma insert_by_tvl_stable t p l :
  StronglySorted (fun a b => tvl b <= tvl a) l ->
  filter (fun q => tvl q =? t) (insert_by_tvl p l) =
  filter (fun q => tvl q =? t) (p :: l).
Proof.
  induction l as [|q l IH]; intros Hs; cbn [insert_by_tvl]; [reflexivity|].
  destruct (tvl p <? tvl q) eqn:Hlt; [|reflexivity].
  apply Z.ltb_lt in Hlt. inversion Hs as [|? ? Hs' Hall]; subst.
  cbn [filter]. rewrite (IH Hs'). cbn [filter].
  destruct (tvl q =? t) eqn:Hq; destruct (tvl p =? t) eqn:Hp; try reflexivity.
  apply Z.eqb_eq in Hq. apply Z.eqb_eq in Hp. lia.
Qed.

Lemma sort_by_tvl_stable t l :
  filter (fun q => tvl q =? t) (sort_by_tvl l) = filter (fun q => tvl q =? t) l.
Proof.
  induction l as [|p l IH]; cbn; [reflexivity|].
  fold (sort_by_tvl l). rewrite insert_by_tvl_stable by apply sort_by_tvl_sorted.
  cbn [filter]. rewrite IH. reflexivity.
Qed.




(** X2. The list [fetch_v2_pools] returns is sorted by [tvl] in
    descending order, pools of equal [tvl] keeping the order of their pair
    indices; it is a rearrangement of the pools collected from the sampled
    pairs, so the final [[:20]] never cuts a pool off, and it has at most
    20 entries. *)
Theorem fetch_v2_pools_sorted w c n :
  allPairsLength w (factory c) = Ok n ->
  exists pools,
    fetch_v2_pools w c = Ok pools /\
    StronglySorted (fun a b => tvl b <= tvl a) pools /\
    Permutation pools (collect_ok (v2_pool_entry w c) (v2_sample_indices n)) /\
    (forall t,
       filter (fun q => tvl q =? t) pools =
       filter (fun q => tvl q =? t) (collect_ok (v2_pool_entry w c) (v2_sample_indices n))) /\
    (List.length pools <= 20)%nat.
Proof.
  intros Hn. unfold fetch_v2_pools. rewrite Hn. cbn [bind].
  set (cands := collect_ok (v2_pool_entry w c) (v2_sample_indices n)).
  assert (Hlen : (List.length (sort_by_tvl cands) <= 20)%nat).
  { rewrite (Permutation_length (sort_by_tvl_perm cands)). unfold cands.
    eapply Nat.le_trans; [apply length_collect_ok|apply length_v2_sample_indices]. }
  rewrite firstn_all2 by exact Hlen.
  eexists. split; [reflexivity|]. split; [apply sort_by_tvl_sorted|].
  split; [apply sort_by_tvl_perm|]. split; [intros t; apply sort_by_tvl_stable|exact Hlen].
Qed.

Lemma fetch_v2_pools_sorted_witness :
  exists pools,
    fetch_v2_pools sample_chain uniswap_v2 = Ok pools /\
    StronglySorted (fun a b => tvl b <= tvl a) pools /\
    (List.length pools <= 20)%nat.
Proof.
  destruct (fetch_v2_pools_sorted sample_chain uniswap_v2 150 eq_refl)
    as (pools & Hp & Hs & _ & _ & Hl).
  exists pools. split; [exact Hp|]. split; [exact Hs|exact Hl].
Defined.

(** ** Fetching V3 pools and all pools *)


Lemma fetch_v3_pools_ok s c t0 t1 t2 rest tiers :
  tokens s = t0 :: t1 :: t2 :: rest ->
  fees c = Some tiers ->
  fetch_v3_pools s c =
    Ok (firstn 20
          (map (v3_pool t0 t1) tiers ++ map (v3_pool t0 t2) tiers ++
           map (v3_pool t1 t2) tiers)).
Proof.
  intros Ht Hf. unfold fetch_v3_pools, getidx, getitem_fees. rewrite Ht, Hf.
  cbn [nth_error bind for_each fst snd]. rewrite app_nil_r. reflexivity.
Qed.



Lemma setitem_absent {A : Type} (d : list (string * A)) (k : string) (v : A) :
  ~ In k (map fst d) -> setitem d k v = d ++ [(k, v)].
Proof.
  induction d as [|[k' v'] d IH]; intros Hnin; cbn [setitem app]; [reflexivity|].
  cbn [map fst In] in Hnin.
  destruct (String.eqb_spec k' k) as [->|Hne]; [exfalso; apply Hnin; left; reflexivity|].
  rewrite IH; [reflexivity|]. intros H. apply Hnin. right. exact H.
Qed.

Lemma fold_setitem_fresh {A B : Type} (f : string -> B -> A) :
  forall (l : list (string * B)) (acc : list (string * A)),
    NoDup (map fst acc ++ map fst l) ->
    fold_left (fun pools d => setitem pools (fst d) (f (fst d) (snd d))) l acc =
    acc ++ map (fun d => (fst d, f (fst d) (snd d))) l.
Proof.
  induction l as [|[k b] l IH]; intros acc Hnd; cbn [fold_left map].
  - rewrite app_nil_r. reflexivity.
  - cbn [fst snd map] in *.
    assert (Hk : ~ In k (map fst acc)).
    { intros Hin. apply NoDup_remove_2 in Hnd. apply Hnd.
      apply in_or_app. left. exact Hin. }
    rewrite (setitem_absent acc k (f k b) Hk).
    rewrite IH.
    + rewrite <- app_assoc. reflexivity.
    + rewrite map_app. cbn [map fst]. rewrite <- app_assoc. cbn [app].
      apply NoDup_remove_1 in Hnd as Hnd'.
      apply NoDup_remove_2 in Hnd.
      apply (Permutation_NoDup (l := k :: map fst acc ++ map fst l)).
      * apply Permutation_middle.
      * constructor; assumption.
Qed.

Lemma getitem_In_NoDup {A : Type} (k : string) (v : A) :
  forall d : list (string * A),
    NoDup (map fst d) -> In (k, v) d -> getitem d k = Ok v.
Proof.
  induction d as [|[k' v'] d IH]; intros Hnd Hin; [contradiction|].
  cbn [getitem]. cbn [map fst] in Hnd.
  destruct Hin as [Heq|Hin].
  - injection Heq as -> ->. rewrite String.eqb_refl. reflexivity.
  - destruct (String.eqb_spec k' k) as [->|Hne].
    + exfalso. apply NoDup_cons_iff in Hnd. apply (proj1 Hnd).
      apply in_map_iff. exists (k, v). split; [reflexivity|exact Hin].
    + apply IH; [|exact Hin]. apply NoDup_cons_iff in Hnd. exact (proj2 Hnd).
Qed.

(** X4. The dict [fetch_top_pools] returns has one entry for every
    configured DEX, in the order of [dex_configs].  The entry of
    ['uniswap_v3'] is the list [fetch_v3_pools] returned for the DEX's
    configuration, the entry of any other name the list [fetch_v2_pools]
    returned for it; when that fetch raised, the entry is the empty list,
    whatever happened for the other DEXes. *)
Theorem fetch_top_pools_entries w s :
  NoDup (map fst (dex_configs s)) ->
  map fst (fetch_top_pools w s) = map fst (dex_configs s) /\
  (forall name c,
     In (name, c) (dex_configs s) ->
     (name = "uniswap_v3"%string ->
      (forall l, fetch_v3_pools s c = Ok l ->
                 getitem (fetch_top_pools w s) name = Ok l) /\
      (forall e, fetch_v3_pools s c = Raise e ->
                 getitem (fetch_top_pools w s) name = Ok [])) /\
     (name <> "uniswap_v3"%string ->
      (forall l, fetch_v2_pools w c = Ok l ->
                 getitem (fetch_top_pools w s) name = Ok l) /\
      (forall e, fetch_v2_pools w c = Raise e ->
                 getitem (fetch_top_pools w s) name = Ok []))).
Proof.
  intros Hnd.
  assert (Heq : fetch_top_pools w s =
                map (fun d => (fst d, fetch_dex_pools w s (fst d) (snd d))) (dex_configs s)).
  { unfold fetch_top_pools.
    rewrite (fold_setitem_fresh (fetch_dex_pools w s) (dex_configs s) []); [reflexivity|].
    exact Hnd. }
  assert (Hkeys : map fst (fetch_top_pools w s) = map fst (dex_configs s)).
  { rewrite Heq, map_map. cbn [fst]. reflexivity. }
  split; [exact Hkeys|].
  intros name c Hin.
  assert (Hget : getitem (fetch_top_pools w s) name = Ok (fetch_dex_pools w s name c)).
  { apply getitem_In_NoDup; [rewrite Hkeys; exact Hnd|].
    rewrite Heq. apply in_map_iff. exists (name, c). split; [reflexivity|exact Hin]. }
  rewrite Hget. unfold fetch_dex_pools. split.
  - intros ->. rewrite String.eqb_refl.
    split; [intros l Hl|intros e He].
    + rewrite Hl. reflexivity.
    + rewrite He. reflexivity.
  - intros Hname. destruct (String.eqb_spec name "uniswap_v3") as [->|_]; [contradiction|].
    split; [intros l Hl|intros e He].
    + rewrite Hl. reflexivity.
    + rewrite He. reflexivity.
Qed.

Lemma fetch_top_pools_entries_witness :
  getitem (fetch_top_pools chain_A_B two_token_scanner) "uniswap_v2" = Ok [pool_A] /\
  getitem (fetch_top_pools chain_A_B two_token_scanner) "sushiswap" = Ok [pool_B] /\
  getitem (fetch_top_pools chain_A_B two_token_scanner) "uniswap_v3" = Ok [].
Proof.
  assert (Hnd : NoDup (map fst (dex_configs two_token_scanner)))
    by (repeat constructor; cbn; intuition discriminate).
  pose proof (proj2 (fetch_top_pools_entries chain_A_B two_token_scanner Hnd)) as H.
  split; [|split].
  - apply (proj1 (proj2 (H "uniswap_v2"%string uniswap_v2 ltac:(left; reflexivity))
                    ltac:(discriminate))).
    vm_compute. reflexivity.
  - apply (proj1 (proj2 (H "sushiswap"%string sushiswap
                           ltac:(right; right; left; reflexivity))
                    ltac:(discriminate))).
    vm_compute. reflexivity.
  - apply (proj2 (proj1 (H "uniswap_v3"%string uniswap_v3
                           ltac:(right; left; reflexivity))
                    eq_refl) IndexError).
    vm_compute. reflexivity.
Defined.

(** ** The CPU route search on fetched pools *)

Lemma for_each_all_nil {A B : Type} (body : A -> result (list B)) (l : list A) :
  (forall a, In a l -> body a = Ok []) -> for_each l body = Ok [].
Proof.
  induction l as [|a l IH]; intros H; cbn [for_each]; [reflexivity|].
  rewrite (H a (or_introl eq_refl)). cbn [bind].
  rewrite IH by (intros b Hb; apply H; right; exact Hb). reflexivity.
Qed.

Lemma check_arbitrage_no_fee now tok p1 p2 c1 c2 :
  dex_fee c1 = None -> _check_arbitrage_opportunity now tok p1 p2 c1 c2 = Raise KeyError.
Proof.
  intros Hf. unfold _check_arbitrage_opportunity, getitem_fee. rewrite Hf.
  destruct (opt_string_eqb (Some tok) (token0 p1)); reflexivity.
Qed.

(** The route search raises as soon as a DEX whose configuration has no
    ['fee'] holds a pool with one of the scanner's tokens and another DEX
    holds any pool. *)
Lemma cpu_routes_raise_without_fee s now pools tok n1 l1 pool1 c1 n2 l2 pool2 :
  In tok (tokens s) ->
  In (n1, l1) pools -> In pool1 l1 -> token_in_pool tok pool1 = true ->
  getitem (dex_configs s) n1 = Ok c1 -> dex_fee c1 = None ->
  In (n2, l2) pools -> In pool2 l2 -> String.eqb n1 n2 = false ->
  exists e, _calculate_routes_cpu s now pools = Raise e.
Proof.
  intros Htok Hd1 Hp1 Hin1 Hc1 Hfee Hd2 Hp2 Hne.
  destruct (_calculate_routes_cpu s now pools) as [routes|e] eqn:H; [|exists e; reflexivity].
  exfalso. unfold _calculate_routes_cpu in H.
  destruct (for_each_ok_body _ _ _ tok H Htok) as (o1 & H1).
  destruct (for_each_ok_body _ _ _ (n1, l1) H1 Hd1) as (o2 & H2).
  destruct (for_each_ok_body _ _ _ (n2, l2) H2 Hd2) as (o3 & H3).
  cbn [fst snd] in H3. rewrite Hne in H3.
  destruct (for_each_ok_body _ _ _ pool1 H3 Hp1) as (o4 & H4).
  rewrite Hin1 in H4. cbn [negb] in H4.
  destruct (for_each_ok_body _ _ _ pool2 H4 Hp2) as (o5 & H5).
  rewrite Hc1 in H5. cbn [bind] in H5.
  destruct (getitem (dex_configs s) n2) as [c2|e2]; [|discriminate]. cbn [bind] in H5.
  rewrite (check_arbitrage_no_fee now tok pool1 pool2 c1 c2 Hfee) in H5. discriminate.
Qed.

Lemma fetch_top_pools_default w s :
  dex_configs s = default_dex_configs ->
  fetch_top_pools w s =
    [("uniswap_v2"%string, fetch_dex_pools w s "uniswap_v2" uniswap_v2);
     ("uniswap_v3"%string, fetch_dex_pools w s "uniswap_v3" uniswap_v3);
     ("sushiswap"%string, fetch_dex_pools w s "sushiswap" sushiswap);
     ("aerodrome"%string, fetch_dex_pools w s "aerodrome" aerodrome);
     ("baseswap"%string, fetch_dex_pools w s "baseswap" baseswap)].
Proof. intros Hd. unfold fetch_top_pools. rewrite Hd. reflexivity. Qed.

Lemma fetch_v3_default_first w s t0 t1 t2 rest :
  tokens s = t0 :: t1 :: t2 :: rest ->
  exists more, fetch_dex_pools w s "uniswap_v3" uniswap_v3 = v3_pool t0 t1 500 :: more.
Proof.
  intros Ht. unfold fetch_dex_pools. cbn [String.eqb Ascii.eqb Bool.eqb andb].
  rewrite (fetch_v3_pools_ok s uniswap_v3 t0 t1 t2 rest [500; 3000; 10000] Ht eq_refl).
  eexists. reflexivity.
Qed.

Lemma token_in_v3_pool t0 t1 fee_tier : token_in_pool t0 (v3_pool t0 t1 fee_tier) = true.
Proof. unfold token_in_pool. cbn. rewrite String.eqb_refl. reflexivity. Qed.

(** On the pools [fetch_top_pools] returns for the default DEXes and at
    least three tokens, the CPU route search either raises or finds
    nothing. *)
Lemma cpu_routes_of_fetched_pools w s now :
  dex_configs s = default_dex_configs -> (3 <= List.length (tokens s))%nat ->
  ((exists name c p,
      In (name, c) default_dex_configs /\ name <> "uniswap_v3"%string /\
      In p (fetch_dex_pools w s name c)) ->
   exists e, _calculate_routes_cpu s now (fetch_top_pools w s) = Raise e) /\
  ((exists e, _calculate_routes_cpu s now (fetch_top_pools w s) = Raise e) \/
   _calculate_routes_cpu s now (fetch_top_pools w s) = Ok []).
Proof.
  intros Hd Hlen.
  destruct (tokens s) as [|t0 [|t1 [|t2 rest]]] eqn:Ht; cbn [List.length] in Hlen; try lia.
  destruct (fetch_v3_default_first w s t0 t1 t2 rest Ht) as (more & Hv3).
  pose proof (fetch_top_pools_default w s Hd) as Hpools.
  assert (Hraise : (exists name c p,
             In (name, c) default_dex_configs /\ name <> "uniswap_v3"%string /\
             In p (fetch_dex_pools w s name c)) ->
           exists e, _calculate_routes_cpu s now (fetch_top_pools w s) = Raise e).
  { intros (name & c & p & Hin & Hname & Hp).
    apply (cpu_routes_raise_without_fee s now (fetch_top_pools w s) t0
             "uniswap_v3" (v3_pool t0 t1 500 :: more) (v3_pool t0 t1 500) uniswap_v3
             name (fetch_dex_pools w s name c) p).
    - rewrite Ht. left. reflexivity.
    - rewrite Hpools, Hv3. right. left. reflexivity.
    - left. reflexivity.
    - apply token_in_v3_pool.
    - rewrite Hd. reflexivity.
    - reflexivity.
    - rewrite Hpools. unfold default_dex_configs in Hin. cbn [In] in Hin |- *.
      destruct Hin as [H|[H|[H|[H|[H|[]]]]]]; injection H as <- <-;
        [left|contradiction|right; right; left|right; right; right; left
        |right; right; right; right; left]; reflexivity.
    - exact Hp.
    - destruct (String.eqb_spec "uniswap_v3" name) as [<-|_]; [contradiction|reflexivity]. }
  split; [exact Hraise|].
  destruct (fetch_dex_pools w s "uniswap_v2" uniswap_v2) as [|p l] eqn:H1;
    [|left; apply Hraise; exists "uniswap_v2"%string, uniswap_v2, p;
      split; [left; reflexivity|]; split; [discriminate|rewrite H1; left; reflexivity]].
  destruct (fetch_dex_pools w s "sushiswap" sushiswap) as [|p l] eqn:H3;
    [|left; apply Hraise; exists "sushiswap"%string, sushiswap, p;
      split; [right; right; left; reflexivity|];
      split; [discriminate|rewrite H3; left; reflexivity]].
  destruct (fetch_dex_pools w s "aerodrome" aerodrome) as [|p l] eqn:H4;
    [|left; apply Hraise; exists "aerodrome"%string, aerodrome, p;
      split; [right; right; right; left; reflexivity|];
      split; [discriminate|rewrite H4; left; reflexivity]].
  destruct (fetch_dex_pools w s "baseswap" baseswap) as [|p l] eqn:H5;
    [|left; apply Hraise; exists "baseswap"%string, baseswap, p;
      split; [right; right; right; right; left; reflexivity|];
      split; [discriminate|rewrite H5; left; reflexivity]].
  right. rewrite Hpools. unfold _calculate_routes_cpu.
  apply for_each_all_nil. intros tok _.
  apply for_each_all_nil. intros d1 Hd1.
  apply for_each_all_nil. intros d2 Hd2.
  cbn [In] in Hd1, Hd2.
  destruct Hd1 as [<-|[<-|[<-|[<-|[<-|[]]]]]];
    destruct Hd2 as [<-|[<-|[<-|[<-|[<-|[]]]]]]; cbn [fst snd]; try reflexivity;
    apply for_each_all_nil; intros pool1 _;
    destruct (negb (token_in_pool tok pool1)); reflexivity.
Qed.

(** X5. With the default DEX table and at least three tokens, the CPU
    path publishes nothing from the pools [fetch_top_pools] returns: the
    ['uniswap_v3'] entry has no ['fee'], so as soon as any other DEX
    returned a pool the route search raises ([KeyError] from
    [dex1_config['fee']], unless an earlier exception), and when no other
    DEX returned a pool there is no route.  The turn of [scan_blocks]
    leaves the channel as it was. *)
Theorem cpu_scan_of_fetched_pools_emits_nothing w s now :
  scanner_use_gpu s = false ->
  dex_configs s = default_dex_configs ->
  (3 <= List.length (tokens s))%nat ->
  emitted s now (fetch_top_pools w s) = [] /\
  ((exists name c p,
      In (name, c) default_dex_configs /\ name <> "uniswap_v3"%string /\
      In p (fetch_dex_pools w s name c)) ->
   exists e, calculate_arbitrage_routes s now (fetch_top_pools w s) = Raise e) /\
  (forall s',
     fst (scan_blocks_step w s now) = Some s' ->
     items (profitable_routes s') = items (profitable_routes s)).
Proof.
  intros Hgpu Hd Hlen.
  destruct (cpu_routes_of_fetched_pools w s now Hd Hlen) as [Hraise Hcases].
  assert (Hcalc : calculate_arbitrage_routes s now (fetch_top_pools w s) =
                  _calculate_routes_cpu s now (fetch_top_pools w s)).
  { unfold calculate_arbitrage_routes. rewrite Hgpu. reflexivity. }
  split; [|split].
  - unfold emitted. rewrite Hcalc.
    destruct Hcases as [(e & ->)| ->]; reflexivity.
  - intros H. rewrite Hcalc. apply Hraise. exact H.
  - intros s'. unfold scan_blocks_step, analyze_block. rewrite Hcalc.
    destruct Hcases as [(e & ->)| ->]; cbn [bind fst].
    + intros H. injection H as <-. reflexivity.
    + cbn [profitable filter put_all fst]. intros H. injection H as <-. reflexivity.
Qed.

Lemma cpu_scan_of_fetched_pools_witness :
  emitted cpu_scanner 7 (fetch_top_pools sample_chain cpu_scanner) = [] /\
  exists e,
    calculate_arbitrage_routes cpu_scanner 7 (fetch_top_pools sample_chain cpu_scanner)
      = Raise e.
Proof.
  destruct (cpu_scan_of_fetched_pools_emits_nothing sample_chain cpu_scanner 7
              eq_refl eq_refl ltac:(vm_compute; lia)) as (He & Hr & _).
  split; [exact He|]. apply Hr.
  exists "uniswap_v2"%string, uniswap_v2,
    {| address := Some "0xpair"%string; token0 := Some WETH; token1 := Some USDC;
       reserve0 := Some 69; reserve1 := Some 138; tvl := 207;
       fee := Some (NFloat f_0_003) |}.
  split; [left; reflexivity|]. split; [discriminate|].
  vm_compute. left. reflexivity.
Defined.

(** ** The routes of the CPU path *)

Lemma check_arbitrage_route_shape now tok p1 p2 c1 c2 r :
  _check_arbitrage_opportunity now tok p1 p2 c1 c2 = Ok (Some r) ->
  r = {| token := tok; amount_in := 10 ^ 18;
         dex_routers := [router c1; router c2];
         swap_data := [_encode_swap_data p1; _encode_swap_data p2];
         expected_profit := expected_profit r;
         gas_cost := 3000000;
         net_profit := expected_profit r - 3000000;
         timestamp := now |} /\
  3000000 < expected_profit r /\ dex_fee c1 <> None.
Proof.
  unfold _check_arbitrage_opportunity. intros H.
  match type of H with
  | bind ?c _ = _ => destruct c as [[out1 it]|e] eqn:Hfirst; [|discriminate]
  end.
  cbn [bind fst snd] in H.
  match type of H with
  | bind ?c _ = _ => destruct c as [out2|e] eqn:Hsecond; [|discriminate]
  end.
  cbn [bind] in H. change (150000 * 20) with 3000000 in H.
  destruct (Z.ltb_spec 0 (out2 - 10 ^ 18 - 3000000)) as [Hpos|Hneg]; [|discriminate].
  injection H as <-. cbn [expected_profit]. split; [reflexivity|]. split; [lia|].
  intros Hnone. unfold getitem_fee in Hfirst. rewrite Hnone in Hfirst.
  destruct (opt_string_eqb (Some tok) (token0 p1)); discriminate.
Qed.

(** X6. Every route the CPU path returns starts from one of the
    scanner's tokens with the amount [10^18], runs through a pool of one
    DEX that holds the token and a pool of a differently named DEX, names
    the routers of these two DEXes in that order, is stamped with the
    current time, and keeps the books: [gas_cost = 3000000],
    [net_profit = expected_profit - gas_cost] and [net_profit > 0]. *)
Theorem cpu_route_books s now pools routes r :
  _calculate_routes_cpu s now pools = Ok routes -> In r routes ->
  exists n1 l1 pool1 c1 n2 l2 pool2 c2,
    In (token r) (tokens s) /\
    In (n1, l1) pools /\ In pool1 l1 /\ token_in_pool (token r) pool1 = true /\
    In (n2, l2) pools /\ In pool2 l2 /\ n1 <> n2 /\
    getitem (dex_configs s) n1 = Ok c1 /\ getitem (dex_configs s) n2 = Ok c2 /\
    dex_routers r = [router c1; router c2] /\
    swap_data r = [_encode_swap_data pool1; _encode_swap_data pool2] /\
    amount_in r = 10 ^ 18 /\ timestamp r = now /\
    gas_cost r = 3000000 /\
    net_profit r = expected_profit r - gas_cost r /\
    0 < net_profit r.
Proof.
  unfold _calculate_routes_cpu. intros H Hin.
  destruct (for_each_In _ r _ _ H Hin) as (tok & o1 & Htok & H1 & Hin1).
  destruct (for_each_In _ r _ _ H1 Hin1) as ([n1 l1] & o2 & Hd1 & H2 & Hin2).
  destruct (for_each_In _ r _ _ H2 Hin2) as ([n2 l2] & o3 & Hd2 & H3 & Hin3).
  cbn [fst snd] in H3.
  destruct (String.eqb_spec n1 n2) as [Heq|Hne];
    [exfalso; symmetry in H3; exact (nil_no_member r o3 H3 Hin3)|].
  destruct (for_each_In _ r _ _ H3 Hin3) as (p1 & o4 & Hp1 & H4 & Hin4).
  destruct (token_in_pool tok p1) eqn:Htp; cbn [negb] in H4;
    [|exfalso; symmetry in H4; exact (nil_no_member r o4 H4 Hin4)].
  destruct (for_each_In _ r _ _ H4 Hin4) as (p2 & o5 & Hp2 & H5 & Hin5).
  destruct (getitem (dex_configs s) n1) as [c1|e] eqn:Hc1; [|discriminate]. cbn [bind] in H5.
  destruct (getitem (dex_configs s) n2) as [c2|e] eqn:Hc2; [|discriminate]. cbn [bind] in H5.
  destruct (_check_arbitrage_opportunity now tok p1 p2 c1 c2) as [[r'|]|e] eqn:Hchk;
    cbn [bind] in H5; try discriminate;
    [|exfalso; symmetry in H5; exact (nil_no_member r o5 H5 Hin5)].
  destruct (Z.ltb_spec 0 (net_profit r')) as [Hpos|Hneg];
    [|exfalso; symmetry in H5; exact (nil_no_member r o5 H5 Hin5)].
  injection H5 as <-. destruct Hin5 as [<-|[]].
  destruct (check_arbitrage_route_shape now tok p1 p2 c1 c2 r' Hchk) as (Hr & Hexp & _).
  exists n1, l1, p1, c1, n2, l2, p2, c2.
  rewrite Hr. cbn [token dex_routers swap_data amount_in timestamp gas_cost
                   net_profit expected_profit].
  repeat split; try assumption; try reflexivity. lia.
Qed.

Lemma cpu_route_books_witness :
  gas_cost route_A_then_B = 3000000 /\
  net_profit route_A_then_B = expected_profit route_A_then_B - gas_cost route_A_then_B /\
  0 < net_profit route_A_then_B.
Proof.
  destruct (cpu_route_books cpu_scanner 7 two_dex_pools
              (routes_of (_calculate_routes_cpu cpu_scanner 7 two_dex_pools))
              route_A_then_B)
    as (n1 & l1 & pool1 & c1 & n2 & l2 & pool2 & c2 & H).
  - vm_compute. reflexivity.
  - vm_compute. left. reflexivity.
  - destruct H as (_ & _ & _ & _ & _ & _ & _ & _ & _ & _ & _ & _ & _ & Hg & Hn & Hp).
    split; [exact Hg|]. split; [exact Hn|exact Hp].
Defined.

(** ** Zero reserves *)





(** ** Executor: endpoint failover *)

Lemma switch_rpc_index w x :
  current_rpc_index (switch_rpc w x) =
  Nat.modulo (current_rpc_index x + 1) (List.length (rpc_urls (exec_config x))).
Proof. unfold switch_rpc. destruct (get_block_latest w); reflexivity. Qed.

Lemma fold_switch_rpc ws :
  forall x,
    let x' := fold_left (fun x w => switch_rpc w x) ws x in
    same_ledger x x' /\ executing x' = executing x /\
    Nat.modulo (current_rpc_index x') (List.length (rpc_urls (exec_config x))) =
    Nat.modulo (current_rpc_index x + List.length ws)
      (List.length (rpc_urls (exec_config x))).
Proof.
  induction ws as [|w ws IH]; intros x; cbn [fold_left List.length].
  - split; [apply same_ledger_refl|]. split; [reflexivity|].
    rewrite Nat.add_0_r. reflexivity.
  - destruct (IH (switch_rpc w x)) as (Hl & He & Hi). cbv zeta in Hl, He, Hi |- *.
    pose proof (switch_rpc_same w x) as Hs.
    assert (Hc : exec_config (switch_rpc w x) = exec_config x) by apply Hs.
    rewrite Hc in Hi. split; [eapply same_ledger_trans; eassumption|]. split.
    + rewrite He. unfold switch_rpc. destruct (get_block_latest w); reflexivity.
    + rewrite Hi, switch_rpc_index, Nat.Div0.add_mod_idemp_l. f_equal. lia.
Qed.

(** X7. [switch_rpc] walks the endpoint list round-robin: with a
    non-empty list the index stays inside the list, moves to the next
    endpoint modulo the length whether or not the new endpoint answers,
    and is back where it started after as many failovers as there are
    endpoints; nonce, pending entries and configuration are untouched. *)
Theorem switch_rpc_round_robin ws x :
  (0 < List.length (rpc_urls (exec_config x)))%nat ->
  (current_rpc_index x < List.length (rpc_urls (exec_config x)))%nat ->
  let n := List.length (rpc_urls (exec_config x)) in
  let x' := fold_left (fun x w => switch_rpc w x) ws x in
  (current_rpc_index x' < n)%nat /\
  current_rpc_index x' = Nat.modulo (current_rpc_index x + List.length ws) n /\
  (List.length ws = n -> current_rpc_index x' = current_rpc_index x) /\
  same_ledger x x' /\ executing x' = executing x.
Proof.
  intros Hn Hidx n x'.
  destruct (fold_switch_rpc ws x) as (Hl & He & Hi). fold x' in Hl, He, Hi. fold n in Hi.
  assert (Hlt : (current_rpc_index x' < n)%nat).
  { destruct ws as [|w ws] using rev_ind; [exact Hidx|].
    unfold x'. rewrite fold_left_app. cbn [fold_left]. rewrite switch_rpc_index.
    destruct (fold_switch_rpc ws x) as (Hl' & _ & _).
    replace (exec_config (fold_left (fun x w => switch_rpc w x) ws x))
      with (exec_config x) by (symmetry; apply Hl').
    apply Nat.mod_upper_bound. fold n. lia. }
  rewrite (Nat.mod_small _ _ Hlt) in Hi.
  split; [exact Hlt|]. split; [exact Hi|]. split; [|split; assumption].
  intros Hlen. rewrite Hi, Hlen.
  replace (current_rpc_index x + n)%nat with (current_rpc_index x + 1 * n)%nat by lia.
  rewrite Nat.Div0.mod_add. apply Nat.mod_small. exact Hidx.
Qed.

Lemma switch_rpc_round_robin_witness :
  current_rpc_index
    (fold_left (fun x w => switch_rpc w x) [node_legacy; node_legacy; node_legacy]
       executor_3_endpoints) = current_rpc_index executor_3_endpoints.
Proof.
  apply (proj1 (proj2 (proj2 (switch_rpc_round_robin
    [node_legacy; node_legacy; node_legacy] executor_3_endpoints
    ltac:(vm_compute; lia) ltac:(vm_compute; lia))))).
  reflexivity.
Defined.

(** ** Executor: nonce accounting of the execution loop *)

Lemma refine_gas_fields w x tx :
  tx_nonce (fst (refine_gas w x tx)) = tx_nonce tx /\
  tx_route (fst (refine_gas w x tx)) = tx_route tx /\
  maxPriorityFeePerGas (fst (refine_gas w x tx)) = maxPriorityFeePerGas tx /\
  tx_chainId (fst (refine_gas w x tx)) = tx_chainId tx.
Proof.
  unfold refine_gas.
  destruct (g <- eth_estimate_gas w tx ;; gf <- float_of_int g ;; int_of_float (fmul gf f_1_15));
    repeat split.
Qed.

Lemma prepare_transaction_fields w x r tx x2 :
  prepare_transaction w x r = (Ok tx, x2) ->
  tx_nonce tx = nonce x /\ tx_route tx = r /\
  maxPriorityFeePerGas tx = Z.min (2 * 10 ^ 9) (maxFeePerGas tx / 10) /\
  tx_chainId tx = chain_id (exec_config x).
Proof.
  intros H. pose proof (prepare_transaction_fee w x r tx x2 H) as Hfee.
  unfold prepare_transaction in H.
  pose proof (get_gas_price_same w x) as Hg.
  destruct (get_gas_price w x) as [gp x1]. cbn [snd fst] in Hg, Hfee.
  match type of H with context [build_transaction w ?t] => set (tx0 := t) in * end.
  destruct (build_transaction w tx0); [|discriminate].
  destruct (refine_gas_fields w x1 tx0) as (Hn & Hr & Hp & Hc).
  destruct (refine_gas w x1 tx0) as [tx' x2']. cbn [fst] in Hn, Hr, Hp, Hc.
  injection H as <- <-. destruct Hg as (Hg1 & _ & _ & Hg4).
  rewrite Hn, Hr, Hp, Hc, Hfee. unfold tx0.
  cbn [tx_nonce tx_route maxPriorityFeePerGas tx_chainId].
  rewrite Hg1, Hg4. repeat split.
Qed.

Lemma execute_arbitrage_effect w x r :
  (fst (execute_arbitrage w x r) = None /\ same_ledger x (snd (execute_arbitrage w x r))) \/
  (exists tx x2 s h,
     prepare_transaction w x r = (Ok tx, x2) /\
     sign_transaction w tx = Ok s /\ send_raw_transaction w s = Ok h /\
     fst (execute_arbitrage w x r) = Some h /\
     nonce (snd (execute_arbitrage w x r)) = nonce x + 1 /\
     sent (snd (execute_arbitrage w x r)) = sent x ++ [s] /\
     pending_txs (snd (execute_arbitrage w x r)) = pending_txs x /\
     exec_config (snd (execute_arbitrage w x r)) = exec_config x).
Proof.
  destruct (fst (execute_arbitrage w x r)) as [h|] eqn:Hf;
    [|left; split; [reflexivity|apply execute_arbitrage_none_same; exact Hf]].
  right. unfold execute_arbitrage in Hf |- *.
  pose proof (prepare_transaction_same w x r) as Hp.
  destruct (prepare_transaction w x r) as [[tx|e] x2]; cbn [snd] in Hp.
  - destruct (expected_profit r <=? tx_gas tx * maxFeePerGas tx); [discriminate|].
    destruct (sign_transaction w tx) as [s|e] eqn:Hs.
    + destruct (send_raw_transaction w s) as [h'|e] eqn:Hsend.
      * cbn [fst] in Hf. injection Hf as ->. exists tx, x2, s, h.
        destruct Hp as (P1 & P2 & P3 & P4). cbn [fst snd nonce sent pending_txs exec_config].
        rewrite P1, P2, P3, P4. repeat split; assumption.
      * exfalso. destruct (execute_failed_same w x2 e) as [Hn _]. congruence.
    + exfalso. destruct (execute_failed_same w x2 e) as [Hn _]. congruence.
  - exfalso. destruct (execute_failed_same w x2 e) as [Hn _]. congruence.
Qed.

(** What one turn of the execution loop does to the ledger: nothing, or
    one transaction with the current nonce. *)
Lemma execute_routes_step_effect w now x r :
  same_ledger x (execute_routes_step w now x r) \/
  (exists tx x2 s h,
     prepare_transaction w (snd (validate_route w now x r)) r = (Ok tx, x2) /\
     tx_nonce tx = nonce x /\
     sign_transaction w tx = Ok s /\ send_raw_transaction w s = Ok h /\
     nonce (execute_routes_step w now x r) = nonce x + 1 /\
     sent (execute_routes_step w now x r) = sent x ++ [s] /\
     exec_config (execute_routes_step w now x r) = exec_config x /\
     pending_txs (execute_routes_step w now x r) =
       if bytes_truthy h
       then setitem (pending_txs x) h
              {| pending_route := r; pending_timestamp := now;
                 pending_nonce := tx_nonce tx |}
       else pending_txs x).
Proof.
  unfold execute_routes_step.
  pose proof (validate_route_same w now x r) as Hv.
  destruct (validate_route w now x r) as [valid x1]. cbn [snd] in Hv |- *.
  destruct valid; cbn [negb];
    [|left; eapply same_ledger_trans; [exact Hv|apply logger_same]].
  destruct (execute_arbitrage_effect w x1 r) as [[Hnone Hsame]|
    (tx & x2 & s & h & Hprep & Hsign & Hsend & Hsome & Hn & Hs & Hp & Hc)].
  - left. destruct (execute_arbitrage w x1 r) as [o x2]. cbn [fst snd] in *. subst o.
    eapply same_ledger_trans; eassumption.
  - right. exists tx, x2, s, h.
    destruct (prepare_transaction_fields w x1 r tx x2 Hprep) as (Htn & _).
    destruct Hv as (V1 & V2 & V3 & V4).
    destruct (execute_arbitrage w x1 r) as [o x3]. cbn [fst snd] in *. subst o.
    split; [exact Hprep|]. split; [congruence|]. split; [exact Hsign|].
    split; [exact Hsend|].
    destruct (bytes_truthy h); cbn [nonce sent exec_config pending_txs logger set_log].
    + repeat split; try congruence. rewrite Hp, V2. do 2 f_equal. lia.
    + repeat split; congruence.
Qed.

(** X8. Over any run of the execution loop, whatever the node answers
    and whatever routes arrive, the local nonce advances by exactly the
    number of raw transactions the node accepted, that is, those for
    which [send_raw_transaction] returned a hash (the ledger [sent]); a
    send that raised advances nothing.  The earlier accepted transactions
    stay in front of the later ones, at most one is added per route, and
    the configuration is unchanged. *)
Theorem execution_loop_nonce_accounting (steps : list (rpc * float * ArbitrageRoute)) :
  forall x,
    let x' := fold_left (fun x st => execute_routes_step (fst (fst st)) (snd (fst st)) x (snd st))
                steps x in
    exists more,
      sent x' = sent x ++ more /\
      nonce x' = nonce x + Z.of_nat (List.length more) /\
      (List.length more <= List.length steps)%nat /\
      exec_config x' = exec_config x /\
      Forall (fun raw => exists st h,
                In st steps /\ send_raw_transaction (fst (fst st)) raw = Ok h) more.
Proof.
  induction steps as [|[[w now] r] steps IH]; intros x; cbn [fold_left fst snd].
  - exists []. rewrite app_nil_r. cbn. repeat split; try lia. constructor.
  - destruct (IH (execute_routes_step w now x r)) as (more & Hs & Hn & Hl & Hc & Hf).
    cbv zeta in Hs, Hn, Hl, Hc |- *.
    assert (Hf' : Forall (fun raw => exists st h,
                     In st ((w, now, r) :: steps) /\
                     send_raw_transaction (fst (fst st)) raw = Ok h) more).
    { apply (Forall_impl _ (P := fun raw => exists st h,
                In st steps /\ send_raw_transaction (fst (fst st)) raw = Ok h));
        [|exact Hf].
      intros raw (st & h & Hin & Hsend). exists st, h. split; [right; exact Hin|exact Hsend]. }
    destruct (execute_routes_step_effect w now x r) as [(S1 & S2 & S3 & S4)|
      (tx & x2 & s & h & _ & _ & _ & Hsend & Sn & Ss & Sc & _)].
    + exists more. rewrite Hs, Hn, Hc, S1, S3, S4. cbn [List.length].
      repeat split; try lia. exact Hf'.
    + exists (s :: more). rewrite Hs, Hn, Hc, Sn, Ss, Sc, <- app_assoc.
      cbn [app List.length]. repeat split; try lia.
      constructor; [|exact Hf'].
      exists (w, now, r), h. split; [left; reflexivity|exact Hsend].
Qed.

Lemma In_setitem {A : Type} (d : list (string * A)) k v k' v' :
  In (k, v) (setitem d k' v') -> (k, v) = (k', v') \/ In (k, v) d.
Proof.
  induction d as [|[k0 v0] d IH]; cbn [setitem]; intros H.
  - destruct H as [H|[]]. left. symmetry. exact H.
  - destruct (String.eqb k0 k').
    + destruct H as [H|H]; [left; symmetry; exact H|right; right; exact H].
    + destruct H as [H|H]; [right; left; exact H|].
      destruct (IH H) as [Heq|Hin]; [left; exact Heq|right; right; exact Hin].
Qed.

(** X9. The pending entry the execution loop records for a submitted
    transaction carries the nonce that transaction was built with, which
    is the local nonce before the turn; so the replacement transaction
    [emergency_stop] builds for such an entry reuses exactly that nonce. *)
Theorem pending_entry_records_transaction_nonce w now x r h d :
  ~ In h (map fst (pending_txs x)) ->
  In (h, d) (pending_txs (execute_routes_step w now x r)) ->
  pending_nonce d = nonce x /\ pending_route d = r /\
  nonce (execute_routes_step w now x r) = nonce x + 1 /\
  (exists tx x2 s,
     prepare_transaction w (snd (validate_route w now x r)) r = (Ok tx, x2) /\
     tx_nonce tx = pending_nonce d /\
     sign_transaction w tx = Ok s /\ send_raw_transaction w s = Ok h) /\
  (forall c, cancel_tx_for (execute_routes_step w now x r) d = Ok c ->
             cancel_nonce c = nonce x).
Proof.
  intros Hfresh Hin.
  assert (Hnot : forall y, pending_txs y = pending_txs x -> ~ In (h, d) (pending_txs y)).
  { intros y Hy Hc. rewrite Hy in Hc. apply Hfresh.
    apply in_map_iff. exists (h, d). split; [reflexivity|exact Hc]. }
  destruct (execute_routes_step_effect w now x r) as [(S1 & S2 & S3 & S4)|
    (tx & x2 & s & h' & Hprep & Htn & Hsign & Hsend & Sn & Ss & Sc & Sp)].
  { exfalso. exact (Hnot _ S2 Hin). }
  destruct (bytes_truthy h'); [|exfalso; exact (Hnot _ Sp Hin)].
  rewrite Sp in Hin. apply In_setitem in Hin. destruct Hin as [Hin|Hin].
  2:{ exfalso. apply Hfresh. apply in_map_iff. exists (h, d). split; [reflexivity|exact Hin]. }
  injection Hin as -> ->. cbn [pending_nonce pending_route].
  split; [exact Htn|]. split; [reflexivity|]. split; [exact Sn|]. split.
  - exists tx, x2, s. repeat split; assumption.
  - intros c Hc. unfold cancel_tx_for in Hc.
    destruct (scaled_cap _ f_1_5); [|discriminate]. cbn [bind] in Hc.
    destruct (scaled_cap _ f_0_2); [|discriminate]. cbn [bind] in Hc.
    injection Hc as <-. cbn [cancel_nonce pending_nonce]. exact Htn.
Qed.

Lemma pending_entry_records_witness :
  In ("0xhash"%string, good_pending)
     (pending_txs (execute_routes_step node_legacy (Z2SF 10) executor_0 (good_route 0))) /\
  pending_nonce good_pending = nonce executor_0 /\
  nonce (execute_routes_step node_legacy (Z2SF 10) executor_0 (good_route 0))
    = nonce executor_0 + 1.
Proof.
  assert (Hin : In ("0xhash"%string, good_pending)
                  (pending_txs (execute_routes_step node_legacy (Z2SF 10) executor_0
                                  (good_route 0))))
    by (vm_compute; left; reflexivity).
  destruct (pending_entry_records_transaction_nonce node_legacy (Z2SF 10) executor_0
              (good_route 0) "0xhash"%string good_pending (fun H => H) Hin)
    as (Hn & _ & Hx & _).
  split; [exact Hin|]. split; [exact Hn|exact Hx].
Defined.

(** ** Executor: nonce synchronisation and withdrawal *)

(** X10. A nonce synchronisation that gets the count [c] from the node
    sets the local nonce to [c] whatever it was, and leaves pending
    entries and configuration alone; the next transaction
    [execute_arbitrage] builds carries [c], also when [c] is the nonce
    of an entry that is still pending.  A second synchronisation with the
    same answer changes nothing, and a failing one only logs. *)
Theorem nonce_sync_overrides_local_count c x :
  nonce (update_nonce_step (Ok c) x) = c /\
  pending_txs (update_nonce_step (Ok c) x) = pending_txs x /\
  sent (update_nonce_step (Ok c) x) = sent x /\
  exec_config (update_nonce_step (Ok c) x) = exec_config x /\
  (forall w r tx x2,
     prepare_transaction w (update_nonce_step (Ok c) x) r = (Ok tx, x2) ->
     tx_nonce tx = c /\
     forall h d, In (h, d) (pending_txs x) -> pending_nonce d = c ->
                 tx_nonce tx = pending_nonce d) /\
  update_nonce_step (Ok c) (update_nonce_step (Ok c) x) = update_nonce_step (Ok c) x /\
  (forall e, update_nonce_step (Raise e) x = logger x ERROR).
Proof.
  assert (Hn : nonce (update_nonce_step (Ok c) x) = c).
  { unfold update_nonce_step. destruct (Z.eqb_spec c (nonce x)) as [->|Hne]; reflexivity. }
  split; [exact Hn|].
  split; [unfold update_nonce_step; destruct (c =? nonce x); reflexivity|].
  split; [unfold update_nonce_step; destruct (c =? nonce x); reflexivity|].
  split; [unfold update_nonce_step; destruct (c =? nonce x); reflexivity|].
  split; [|split].
  - intros w r tx x2 H.
    destruct (prepare_transaction_fields _ _ _ _ _ H) as (Ht & _).
    split; [congruence|]. intros h d _ Hd. congruence.
  - unfold update_nonce_step at 1. rewrite Hn, Z.eqb_refl. reflexivity.
  - reflexivity.
Qed.

Lemma get_gas_price_logger w x lv :
  fst (get_gas_price w (logger x lv)) = fst (get_gas_price w x).
Proof.
  unfold get_gas_price, get_gas_price_try.
  destruct (get_block_latest w) as [blk|]; cbn [bind fst]; [|reflexivity].
  destruct (if negb (dflt (baseFeePerGas blk) 0 =? 0)
            then eip1559_price (dflt (baseFeePerGas blk) 0) else eth_gas_price w);
    reflexivity.
Qed.

(** X11. [withdraw_profits] sends nothing and changes nothing when the
    contract's token balance is at most 1000.  When it submits a
    transaction, the balance was above 1000 and the transaction carries
    the local nonce, gas 150000, the capped gas price of [get_gas_price]
    as [maxFeePerGas] and a fixed tip of 2 gwei; the nonce then moves by
    one.  Whenever it returns without submitting, the nonce is as before;
    it never touches the pending entries. *)
Theorem withdraw_profits_effect w n x tok :
  pending_txs (snd (withdraw_profits w n x tok)) = pending_txs x /\
  exec_config (snd (withdraw_profits w n x tok)) = exec_config x /\
  (fst (withdraw_profits w n x tok) = None ->
   nonce (snd (withdraw_profits w n x tok)) = nonce x /\
   sent (snd (withdraw_profits w n x tok)) = sent x) /\
  (forall tx,
     fst (withdraw_profits w n x tok) = Some tx ->
     exists balance s,
       token_balance n tok = Ok balance /\ 1000 < balance /\
       wd_token tx = tok /\ wd_nonce tx = nonce x /\ wd_gas tx = 150000 /\
       wd_maxFeePerGas tx = fst (get_gas_price w x) /\
       wd_maxFeePerGas tx <= max_gas_price x /\
       wd_maxPriorityFeePerGas tx = 2 * 10 ^ 9 /\
       wd_chainId tx = chain_id (exec_config x) /\
       sign_withdrawal n tx = Ok s /\
       nonce (snd (withdraw_profits w n x tok)) = nonce x + 1 /\
       sent (snd (withdraw_profits w n x tok)) = sent x ++ [s]) /\
  (forall balance,
     token_balance n tok = Ok balance -> balance <= 1000 ->
     withdraw_profits w n x tok = (None, x)).
Proof.
  unfold withdraw_profits.
  destruct (token_balance n tok) as [balance|e] eqn:Hbal.
  2:{ cbn [fst snd]. repeat split; try reflexivity; discriminate. }
  destruct (Z.ltb_spec 1000 balance) as [Hgt|Hle].
  2:{ cbn [fst snd]. repeat split; try reflexivity; try discriminate. }
  assert (Hlast : forall balance0 : Z, Ok balance = Ok balance0 -> balance0 <= 1000 ->
            False) by (intros b Hb Hb'; injection Hb as <-; lia).
  destruct (format_balance n balance) as [u|e].
  2:{ cbn [fst snd]. repeat split; try reflexivity; try discriminate.
      intros b Hb Hb'. exfalso. exact (Hlast b Hb Hb'). }
  destruct (emergencyWithdraw n tok) as [u'|e].
  2:{ cbn [fst snd]. repeat split; try reflexivity; try discriminate.
      intros b Hb Hb'. exfalso. exact (Hlast b Hb Hb'). }
  pose proof (get_gas_price_same w (logger x INFO)) as Hg.
  pose proof (get_gas_price_logger w x INFO) as Hgl.
  pose proof (get_gas_price_le_cap w x) as Hcap.
  destruct (get_gas_price w (logger x INFO)) as [gp x2]. cbn [fst snd] in Hg, Hgl.
  subst gp.
  destruct Hg as (G1 & G2 & G3 & G4).
  cbn [nonce pending_txs sent exec_config logger set_log] in G1, G2, G3, G4.
  match goal with |- context [build_withdrawal n ?t] => set (tx0 := t) end.
  destruct (build_withdrawal n tx0) as [u''|e].
  2:{ cbn [fst snd nonce pending_txs sent exec_config logger set_log].
      repeat split; try assumption; try discriminate.
      intros b Hb Hb'. exfalso. exact (Hlast b Hb Hb'). }
  destruct (sign_withdrawal n tx0) as [s|e] eqn:Hsign.
  2:{ cbn [fst snd nonce pending_txs sent exec_config logger set_log].
      repeat split; try assumption; try discriminate.
      intros b Hb Hb'. exfalso. exact (Hlast b Hb Hb'). }
  destruct (send_withdrawal n s) as [h|e].
  2:{ cbn [fst snd nonce pending_txs sent exec_config logger set_log].
      repeat split; try assumption; try discriminate.
      intros b Hb Hb'. exfalso. exact (Hlast b Hb Hb'). }
  cbn [fst snd nonce pending_txs sent exec_config logger set_log].
  split; [assumption|]. split; [assumption|]. split; [discriminate|]. split.
  - intros tx Htx. injection Htx as <-. exists balance, s.
    unfold tx0. cbn [wd_token wd_nonce wd_gas wd_maxFeePerGas wd_maxPriorityFeePerGas
                     wd_chainId nonce exec_config logger set_log].
    rewrite G1, G3. repeat split; try assumption; try reflexivity.
  - intros b Hb Hb'. exfalso. exact (Hlast b Hb Hb').
Qed.

Lemma withdraw_profits_witness :
  fst (withdraw_profits node_legacy node_withdraw executor_0 WETH) = Some sample_withdrawal /\
  wd_nonce sample_withdrawal = nonce executor_0 /\
  wd_maxFeePerGas sample_withdrawal <= max_gas_price executor_0 /\
  nonce (snd (withdraw_profits node_legacy node_withdraw executor_0 WETH))
    = nonce executor_0 + 1.
Proof.
  assert (Hs : fst (withdraw_profits node_legacy node_withdraw executor_0 WETH)
               = Some sample_withdrawal) by (vm_compute; reflexivity).
  destruct (proj1 (proj2 (proj2 (proj2
              (withdraw_profits_effect node_legacy node_withdraw executor_0 WETH))))
              sample_withdrawal Hs)
    as (b & s & _ & _ & _ & Hn & _ & _ & Hcap & _ & _ & _ & Hx & _).
  split; [exact Hs|]. split; [exact Hn|]. split; [exact Hcap|exact Hx].
Defined.

(** ** Executor: emergency stop *)

Lemma cancel_tx_for_config x y d :
  exec_config x = exec_config y -> cancel_tx_for x d = cancel_tx_for y d.
Proof.
  intros H. unfold cancel_tx_for, scaled_cap, max_gas_price. rewrite H. reflexivity.
Qed.

Lemma cancel_attempt_config n x y d :
  exec_config x = exec_config y -> cancel_attempt n x d = cancel_attempt n y d.
Proof.
  intros H. unfold cancel_attempt. rewrite (cancel_tx_for_config x y d H). reflexivity.
Qed.

Lemma cancel_attempt_fields n x d c s :
  cancel_attempt n x d = Ok (c, s) ->
  cancel_nonce c = pending_nonce d /\ cancel_gas c = 21000 /\
  scaled_cap x f_1_5 = Ok (cancel_maxFeePerGas c) /\
  scaled_cap x f_0_2 = Ok (cancel_maxPriorityFeePerGas c) /\
  sign_cancel n c = Ok s.
Proof.
  unfold cancel_attempt, cancel_tx_for. intros H.
  destruct (scaled_cap x f_1_5) as [fee_cap|]; [|discriminate]. cbn [bind] in H.
  destruct (scaled_cap x f_0_2) as [tip_cap|]; [|discriminate]. cbn [bind] in H.
  match type of H with context [sign_cancel n ?t] => set (c0 := t) in * end.
  destruct (sign_cancel n c0) as [s0|] eqn:Hs; [|discriminate]. cbn [bind] in H.
  destruct (send_cancel n s0); [|discriminate]. cbn [bind] in H.
  injection H as <- <-. repeat split. exact Hs.
Qed.

Lemma cancel_pending_spec n entries :
  forall x,
    let cancels := fst (fst (cancel_pending n x entries)) in
    let finished := snd (fst (cancel_pending n x entries)) in
    let x' := snd (cancel_pending n x entries) in
    same_ledger_but_sent x x' /\
    (List.length cancels <= List.length entries)%nat /\
    map cancel_nonce cancels =
      map (fun e => pending_nonce (snd e)) (firstn (List.length cancels) entries) /\
    (forall c, In c cancels ->
       cancel_gas c = 21000 /\ scaled_cap x f_1_5 = Ok (cancel_maxFeePerGas c)) /\
    List.length (sent x') = (List.length (sent x) + List.length cancels)%nat /\
    (finished = true -> List.length cancels = List.length entries) /\
    (finished = false ->
     exists e err, nth_error entries (List.length cancels) = Some e /\
                   cancel_attempt n x (snd e) = Raise err).
Proof.
  induction entries as [|[h d] rest IH]; intros x; cbn [cancel_pending].
  - cbn. repeat split; try lia; try contradiction; discriminate.
  - destruct (cancel_attempt n x d) as [[c s]|err] eqn:Ha.
    + destruct (cancel_attempt_fields n x d c s Ha) as (Fn & Fg & Ff & _ & _).
      match goal with |- context [cancel_pending n ?y rest] => set (x1 := y) end.
      specialize (IH x1). cbv zeta in IH.
      destruct (cancel_pending n x1 rest) as [[more fin] x2].
      cbn [fst snd] in IH |- *.
      destruct IH as (Hl & Hlen & Hmap & Hall & Hsent & Hfin & Hnot).
      assert (Hcfg : exec_config x1 = exec_config x) by reflexivity.
      split; [|split; [|split; [|split; [|split; [|split]]]]].
      * unfold same_ledger_but_sent in *. unfold x1 in Hl.
        cbn [nonce pending_txs executing exec_config logger set_log] in Hl.
        exact Hl.
      * cbn [List.length]. lia.
      * cbn [List.length firstn map snd]. rewrite Fn, Hmap. reflexivity.
      * intros c' [<-|Hin]; [split; assumption|].
        destruct (Hall c' Hin) as [G1 G2]. split; [exact G1|].
        unfold scaled_cap, max_gas_price in G2 |- *. rewrite Hcfg in G2. exact G2.
      * rewrite Hsent. unfold x1. cbn [sent logger set_log List.length].
        rewrite length_app. cbn [List.length]. lia.
      * intros Hf. cbn [List.length]. rewrite (Hfin Hf). reflexivity.
      * intros Hf. destruct (Hnot Hf) as (e & err & Hnth & Hfail).
        exists e, err. cbn [List.length nth_error]. split; [exact Hnth|].
        rewrite <- Hfail. apply cancel_attempt_config. symmetry. exact Hcfg.
    + cbn [fst snd List.length firstn map].
      split; [repeat split|]. split; [lia|]. split; [reflexivity|].
      split; [contradiction|]. split; [lia|]. split; [discriminate|].
      intros _. exists (h, d), err. split; [reflexivity|exact Ha].
Qed.

(** X12. [emergency_stop] always leaves [executing] false and never
    changes the local nonce or the pending entries.  It sends replacement
    transactions for the pending entries in their order, each with the
    entry's nonce, gas 21000 and [int(max_gas_price * 1.5)] as
    [maxFeePerGas], and stops at the first entry whose replacement cannot
    be built, signed or sent: the entries behind it get no
    replacement. *)
Theorem emergency_stop_effect n x :
  let cancels := fst (emergency_stop n x) in
  let x' := snd (emergency_stop n x) in
  executing x' = false /\ nonce x' = nonce x /\ pending_txs x' = pending_txs x /\
  exec_config x' = exec_config x /\
  (List.length cancels <= List.length (pending_txs x))%nat /\
  map cancel_nonce cancels =
    map (fun e => pending_nonce (snd e)) (firstn (List.length cancels) (pending_txs x)) /\
  (forall c, In c cancels ->
     cancel_gas c = 21000 /\ scaled_cap x f_1_5 = Ok (cancel_maxFeePerGas c)) /\
  List.length (sent x') = (List.length (sent x) + List.length cancels)%nat /\
  (forall e, nth_error (pending_txs x) (List.length cancels) = Some e ->
     exists err, cancel_attempt n x (snd e) = Raise err).
Proof.
  cbv zeta. unfold emergency_stop.
  match goal with |- context [cancel_pending n ?y _] => set (x1 := y) end.
  pose proof (cancel_pending_spec n (pending_txs x1) x1) as H. cbv zeta in H.
  destruct (cancel_pending n x1 (pending_txs x1)) as [[cancels fin] x2].
  cbn [fst snd] in H |- *.
  set (l0 := pending_txs x1) in *.
  assert (Hl0 : l0 = pending_txs x) by reflexivity.
  destruct H as (Hl & Hlen & Hmap & Hall & Hsent & Hfin & Hnot).
  destruct Hl as (L1 & L2 & L3 & L4).
  assert (Hgoal : forall y, nonce y = nonce x2 -> pending_txs y = pending_txs x2 ->
            executing y = executing x2 -> exec_config y = exec_config x2 ->
            sent y = sent x2 ->
            executing y = false /\ nonce y = nonce x /\ pending_txs y = pending_txs x /\
            exec_config y = exec_config x /\
            (List.length cancels <= List.length (pending_txs x))%nat /\
            map cancel_nonce cancels =
              map (fun e => pending_nonce (snd e))
                (firstn (List.length cancels) (pending_txs x)) /\
            (forall c, In c cancels ->
               cancel_gas c = 21000 /\ scaled_cap x f_1_5 = Ok (cancel_maxFeePerGas c)) /\
            List.length (sent y) = (List.length (sent x) + List.length cancels)%nat /\
            (forall e, nth_error (pending_txs x) (List.length cancels) = Some e ->
               exists err, cancel_attempt n x (snd e) = Raise err)).
  { intros y Y1 Y2 Y3 Y4 Y5. rewrite Y1, Y2, Y3, Y4, Y5, L1, L2, L3, L4, <- Hl0.
    split; [reflexivity|]. split; [reflexivity|]. split; [reflexivity|].
    split; [reflexivity|]. split; [exact Hlen|]. split; [exact Hmap|].
    split; [exact Hall|]. split; [exact Hsent|].
    intros e He. destruct fin.
    - rewrite (Hfin eq_refl) in He.
      assert (Hnone : nth_error l0 (List.length l0) = None)
        by (apply nth_error_None; lia).
      congruence.
    - destruct (Hnot eq_refl) as (e' & err & He' & Hfail).
      rewrite He in He'. injection He' as <-. exists err.
      rewrite <- Hfail. apply cancel_attempt_config. reflexivity. }
  destruct fin; apply Hgoal; reflexivity.
Qed.

Lemma emergency_stop_witness :
  exists c,
    fst (emergency_stop node_stop executor_with_pending) = [c] /\
    cancel_nonce c = 41 /\ cancel_gas c = 21000 /\
    executing (snd (emergency_stop node_stop executor_with_pending)) = false /\
    pending_txs (snd (emergency_stop node_stop executor_with_pending))
      = pending_txs executor_with_pending.
Proof.
  destruct (emergency_stop_effect node_stop executor_with_pending)
    as (He & _ & Hp & _ & _ & Hmap & Hall & _).
  eexists. split; [vm_compute; reflexivity|].
  split; [reflexivity|]. split; [reflexivity|]. split; [exact He|exact Hp].
Defined.

(** ** Executor: monitoring pass *)

Lemma calculate_actual_profit_value x y rc :
  fst (calculate_actual_profit x rc) = fst (calculate_actual_profit y rc).
Proof.
  unfold calculate_actual_profit.
  destruct (gasUsed rc), (effectiveGasPrice rc); try reflexivity.
  destruct (ArbitrageExecuted_profit rc) as [[|g l]|]; reflexivity.
Qed.

Lemma calculate_actual_profit_same x rc :
  same_ledger_but_sent x (snd (calculate_actual_profit x rc)) /\
  sent (snd (calculate_actual_profit x rc)) = sent x.
Proof.
  unfold calculate_actual_profit.
  destruct (gasUsed rc), (effectiveGasPrice rc);
    try destruct (ArbitrageExecuted_profit rc) as [[|g l]|]; repeat split.
Qed.

Lemma still_pending_same ct x d :
  same_ledger_but_sent x (after (still_pending ct x d)) /\
  sent (after (still_pending ct x d)) = sent x.
Proof.
  unfold still_pending.
  destruct (fltb (Z2SF 300) (fsub ct (pending_timestamp d))); repeat split.
Qed.

Lemma still_pending_flags ct x y d :
  completed (still_pending ct x d) = completed (still_pending ct y d) /\
  withdrawal (still_pending ct x d) = None /\
  completed (still_pending ct x d) = fltb (Z2SF 300) (fsub ct (pending_timestamp d)).
Proof.
  unfold still_pending.
  destruct (fltb (Z2SF 300) (fsub ct (pending_timestamp d))); repeat split.
Qed.

Lemma monitor_entry_same w ct x h d :
  same_ledger_but_sent x (after (monitor_entry w ct x h d)) /\
  sent (after (monitor_entry w ct x h d)) = sent x.
Proof.
  unfold monitor_entry.
  destruct (get_transaction_receipt w h) as [rc|]; [|apply still_pending_same].
  destruct (status rc) as [st|]; [|apply still_pending_same].
  destruct (st =? 1); [|repeat split].
  pose proof (calculate_actual_profit_same x rc) as Hc.
  destruct (calculate_actual_profit x rc) as [profit x1]. cbn [snd] in Hc.
  destruct Hc as ((C1 & C2 & C3 & C4) & C5).
  destruct (from_wei_ether w profit).
  - cbn [after]. repeat split; assumption.
  - destruct (still_pending_same ct x1 d) as ((S1 & S2 & S3 & S4) & S5).
    repeat split; congruence.
Qed.

Lemma monitor_entry_flags w ct x y h d :
  completed (monitor_entry w ct x h d) = completed (monitor_entry w ct y h d) /\
  withdrawal (monitor_entry w ct x h d) = withdrawal (monitor_entry w ct y h d).
Proof.
  unfold monitor_entry.
  destruct (get_transaction_receipt w h) as [rc|].
  2:{ destruct (still_pending_flags ct x y d) as (A & B & _).
      destruct (still_pending_flags ct y x d) as (_ & B' & _).
      split; [exact A|congruence]. }
  destruct (status rc) as [st|].
  2:{ destruct (still_pending_flags ct x y d) as (A & B & _).
      destruct (still_pending_flags ct y x d) as (_ & B' & _).
      split; [exact A|congruence]. }
  destruct (st =? 1); [|split; reflexivity].
  pose proof (calculate_actual_profit_value x y rc) as Hv.
  destruct (calculate_actual_profit x rc) as [p1 x1].
  destruct (calculate_actual_profit y rc) as [p2 y1]. cbn [fst] in Hv. subst p2.
  destruct (from_wei_ether w p1); [split; reflexivity|].
  destruct (still_pending_flags ct x1 y1 d) as (A & B & _).
  destruct (still_pending_flags ct y1 x1 d) as (_ & B' & _).
  split; [exact A|congruence].
Qed.

(** An entry is given up or settled exactly when it is older than 300
    seconds or its receipt could be read to the end. *)
Lemma monitor_entry_completed w ct x h d :
  completed (monitor_entry w ct x h d) = false <->
  fltb (Z2SF 300) (fsub ct (pending_timestamp d)) = false /\
  ((exists e, get_transaction_receipt w h = Raise e) \/
   (exists rc, get_transaction_receipt w h = Ok rc /\
      (status rc = None \/
       (status rc = Some 1 /\
        exists e, from_wei_ether w (fst (calculate_actual_profit x rc)) = Raise e)))).
Proof.
  unfold monitor_entry.
  destruct (get_transaction_receipt w h) as [rc|e0].
  2:{ destruct (still_pending_flags ct x x d) as (_ & _ & ->). split.
      - intros H. split; [exact H|]. left. exists e0. reflexivity.
      - intros [H _]. exact H. }
  destruct (status rc) as [st|] eqn:Hst.
  2:{ destruct (still_pending_flags ct x x d) as (_ & _ & ->). split.
      - intros H. split; [exact H|]. right. exists rc. split; [reflexivity|]. left.
        exact Hst.
      - intros [H _]. exact H. }
  destruct (Z.eqb_spec st 1) as [->|Hne].
  - destruct (calculate_actual_profit x rc) as [profit x1] eqn:Hcp.
    destruct (from_wei_ether w profit) as [u|e0] eqn:Hfw.
    + cbn [completed]. split; [discriminate|].
      intros [_ [(e & He)|(rc' & Hrc & [Hs|(_ & e & He)])]].
      * discriminate.
      * injection Hrc as <-. congruence.
      * injection Hrc as <-. rewrite Hcp in He. cbn [fst] in He. congruence.
    + destruct (still_pending_flags ct x1 x1 d) as (_ & _ & ->). split.
      * intros H. split; [exact H|]. right. exists rc. split; [reflexivity|]. right.
        split; [exact Hst|]. exists e0. rewrite Hcp. exact Hfw.
      * intros [H _]. exact H.
  - cbn [completed]. split; [discriminate|].
    intros [_ [(e & He)|(rc' & Hrc & [Hs|(Hs & _)])]].
    + discriminate.
    + injection Hrc as <-. congruence.
    + injection Hrc as <-. rewrite Hst in Hs. injection Hs as ->. contradiction.
Qed.

Lemma monitor_entries_spec w ct x0 entries :
  forall x,
    let done := fst (fst (monitor_entries w ct x entries)) in
    let tasks := snd (fst (monitor_entries w ct x entries)) in
    let x' := snd (monitor_entries w ct x entries) in
    done = map fst (filter (fun e => completed (monitor_entry w ct x0 (fst e) (snd e)))
                      entries) /\
    (forall tok, In tok tasks ->
       exists h d, In (h, d) entries /\
                   withdrawal (monitor_entry w ct x0 h d) = Some tok) /\
    same_ledger_but_sent x x' /\ sent x' = sent x.
Proof.
  induction entries as [|[h d] rest IH]; intros x; cbn [monitor_entries].
  - cbn. repeat split. contradiction.
  - destruct (monitor_entry_flags w ct x x0 h d) as [Hc Hw].
    destruct (monitor_entry_same w ct x h d) as ((A1 & A2 & A3 & A4) & A5).
    specialize (IH (after (monitor_entry w ct x h d))). cbv zeta in IH.
    destruct (monitor_entries w ct (after (monitor_entry w ct x h d)) rest)
      as [[done tasks] x'].
    cbn [fst snd] in IH |- *. destruct IH as (Hd & Ht & (B1 & B2 & B3 & B4) & B5).
    split; [|split; [|split]].
    + cbn [filter fst snd]. rewrite <- Hc.
      destruct (completed (monitor_entry w ct x h d)); cbn [map fst]; rewrite Hd;
        reflexivity.
    + intros tok Hin.
      destruct (withdrawal (monitor_entry w ct x h d)) as [t|] eqn:Hwd.
      * destruct Hin as [<-|Hin].
        -- exists h, d. split; [left; reflexivity|]. rewrite <- Hw. reflexivity.
        -- destruct (Ht tok Hin) as (h' & d' & Hin' & Hw').
           exists h', d'. split; [right; exact Hin'|exact Hw'].
      * destruct (Ht tok Hin) as (h' & d' & Hin' & Hw').
        exists h', d'. split; [right; exact Hin'|exact Hw'].
    + repeat split; congruence.
    + congruence.
Qed.

Lemma delitem_other {A : Type} (d : list (string * A)) k v k' :
  k <> k' ->
  delitem ((k, v) :: d) k' = (r <- delitem d k' ;; Ok ((k, v) :: r)).
Proof.
  intros Hne. cbn [delitem].
  destruct (String.eqb_spec k k') as [->|_]; [contradiction|reflexivity].
Qed.

Lemma delete_completed_skip {A : Type} (keys : list string) :
  forall (d : list (string * A)) k v,
    ~ In k keys ->
    delete_completed ((k, v) :: d) keys =
    ((k, v) :: fst (delete_completed d keys), snd (delete_completed d keys)).
Proof.
  induction keys as [|k' keys IH]; intros d k v Hnin; cbn [delete_completed].
  - reflexivity.
  - assert (Hne : k <> k') by (intros ->; apply Hnin; left; reflexivity).
    rewrite (delitem_other d k v k' Hne).
    destruct (delitem d k') as [d'|]; cbn [bind fst snd]; [|reflexivity].
    apply IH. intros H. apply Hnin. right. exact H.
Qed.

Lemma delete_completed_filter {A : Type} (P : string * A -> bool) :
  forall d : list (string * A),
    NoDup (map fst d) ->
    delete_completed d (map fst (filter P d)) = (filter (fun e => negb (P e)) d, true).
Proof.
  induction d as [|[k v] d IH]; intros Hnd; [reflexivity|].
  cbn [map fst] in Hnd. inversion Hnd as [|? ? Hk Hnd']; subst.
  cbn [filter]. destruct (P (k, v)) eqn:HP; cbn [negb map fst].
  - cbn [delete_completed delitem]. rewrite String.eqb_refl. apply IH. exact Hnd'.
  - rewrite delete_completed_skip.
    + rewrite (IH Hnd'). reflexivity.
    + intros Hin. apply Hk. apply in_map_iff in Hin. destruct Hin as (e & He & Hfe).
      apply filter_In in Hfe. apply in_map_iff. exists e. split; [exact He|apply Hfe].
Qed.

Lemma NoDup_filter_keys {A : Type} (P : string * A -> bool) (l : list (string * A)) :
  NoDup (map fst l) -> NoDup (map fst (filter P l)).
Proof.
  induction l as [|[k v] l IH]; intros Hnd; [constructor|].
  cbn [map fst] in Hnd. inversion Hnd as [|? ? Hk Hnd']; subst.
  cbn [filter]. destruct (P (k, v)); cbn [map fst].
  - constructor; [|apply IH; exact Hnd'].
    intros Hin. apply Hk. apply in_map_iff in Hin. destruct Hin as (e & He & Hfe).
    apply filter_In in Hfe. apply in_map_iff. exists e. split; [exact He|apply Hfe].
  - apply IH. exact Hnd'.
Qed.

(** X13. One pass of [monitor_transactions] over a dict of pending
    entries never touches the nonce and removes exactly the entries it
    settled or gave up: an entry stays if and only if it is not older than
    300 seconds and its receipt could not be fetched, had no status, or
    was a success whose log line failed to format.  An entry with a
    readable receipt of any other status is removed, and a withdrawal task
    is created only for the token of an entry that is removed. *)
Theorem monitor_pass_keeps_unsettled w ct x :
  NoDup (map fst (pending_txs x)) ->
  nonce (snd (monitor_transactions_step w ct x)) = nonce x /\
  sent (snd (monitor_transactions_step w ct x)) = sent x /\
  exec_config (snd (monitor_transactions_step w ct x)) = exec_config x /\
  executing (snd (monitor_transactions_step w ct x)) = executing x /\
  (forall h d,
     In (h, d) (pending_txs (snd (monitor_transactions_step w ct x))) <->
     In (h, d) (pending_txs x) /\
     fltb (Z2SF 300) (fsub ct (pending_timestamp d)) = false /\
     ((exists e, get_transaction_receipt w h = Raise e) \/
      (exists rc, get_transaction_receipt w h = Ok rc /\
         (status rc = None \/
          (status rc = Some 1 /\
           exists e, from_wei_ether w (fst (calculate_actual_profit x rc)) = Raise e))))) /\
  (forall tok,
     In tok (fst (monitor_transactions_step w ct x)) ->
     exists h d rc,
       In (h, d) (pending_txs x) /\ token (pending_route d) = tok /\
       get_transaction_receipt w h = Ok rc /\ status rc = Some 1 /\
       ~ In (h, d) (pending_txs (snd (monitor_transactions_step w ct x)))) /\
  NoDup (map fst (pending_txs (snd (monitor_transactions_step w ct x)))).
Proof.
  intros Hnd. unfold monitor_transactions_step.
  pose proof (monitor_entries_spec w ct x (pending_txs x) x) as H. cbv zeta in H.
  destruct (monitor_entries w ct x (pending_txs x)) as [[done tasks] x1].
  cbn [fst snd] in H. destruct H as (Hdone & Htasks & (L1 & L2 & L3 & L4) & L5).
  rewrite L2, Hdone.
  rewrite (delete_completed_filter
             (fun e => completed (monitor_entry w ct x (fst e) (snd e))) _ Hnd).
  cbn [fst snd nonce sent exec_config executing pending_txs set_pending_txs].
  assert (Hmem : forall h d,
            In (h, d) (filter (fun e => negb (completed (monitor_entry w ct x (fst e) (snd e))))
                         (pending_txs x)) <->
            In (h, d) (pending_txs x) /\
            fltb (Z2SF 300) (fsub ct (pending_timestamp d)) = false /\
            ((exists e, get_transaction_receipt w h = Raise e) \/
             (exists rc, get_transaction_receipt w h = Ok rc /\
                (status rc = None \/
                 (status rc = Some 1 /\
                  exists e, from_wei_ether w (fst (calculate_actual_profit x rc))
                            = Raise e))))).
  { intros h d. rewrite filter_In. cbn [fst snd]. rewrite negb_true_iff.
    rewrite monitor_entry_completed. tauto. }
  split; [exact L1|]. split; [exact L5|]. split; [exact L4|]. split; [exact L3|].
  split; [exact Hmem|]. split.
  - intros tok Hin. destruct (Htasks tok Hin) as (h & d & Hin' & Hw).
    unfold monitor_entry in Hw.
    destruct (get_transaction_receipt w h) as [rc|] eqn:Hrc.
    2:{ destruct (still_pending_flags ct x x d) as (_ & B & _). congruence. }
    destruct (status rc) as [st|] eqn:Hst.
    2:{ destruct (still_pending_flags ct x x d) as (_ & B & _). congruence. }
    destruct (Z.eqb_spec st 1) as [->|Hne]; [|discriminate].
    destruct (calculate_actual_profit x rc) as [profit x2] eqn:Hcp.
    destruct (from_wei_ether w profit) as [u|] eqn:Hfw.
    2:{ destruct (still_pending_flags ct x2 x2 d) as (_ & B & _). congruence. }
    cbn [withdrawal] in Hw. injection Hw as <-.
    exists h, d, rc. split; [exact Hin'|]. split; [reflexivity|].
    split; [exact Hrc|]. split; [exact Hst|].
    intros Hkept. apply Hmem in Hkept.
    destruct Hkept as (_ & _ & [(e & He)|(rc' & Hrc' & [Hs|(_ & e & He)])]).
    + congruence.
    + assert (rc' = rc) by congruence. subst rc'. congruence.
    + assert (rc' = rc) by congruence. subst rc'.
      rewrite Hcp in He. cbn [fst] in He. congruence.
  - apply NoDup_filter_keys. exact Hnd.
Qed.

Lemma monitor_pass_witness :
  pending_txs (snd (monitor_transactions_step node_no_receipts (Z2SF 100)
                      executor_with_pending))
    = pending_txs executor_with_pending /\
  nonce (snd (monitor_transactions_step node_no_receipts (Z2SF 100) executor_with_pending))
    = nonce executor_with_pending.
Proof.
  destruct (monitor_pass_keeps_unsettled node_no_receipts (Z2SF 100) executor_with_pending)
    as (Hn & _).
  - repeat constructor. intros [].
  - split; [vm_compute; reflexivity|exact Hn].
Defined.

(** ** Configuration *)

Lemma split_comma_cons s : exists piece pieces, split_comma s = piece :: pieces.
Proof.
  destruct s as [|c s]; cbn [split_comma]; [eexists; eexists; reflexivity|].
  destruct (Ascii.eqb c ","%char); [eexists; eexists; reflexivity|].
  destruct (split_comma s); eexists; eexists; reflexivity.
Qed.

Lemma concat_split_comma s : String.concat "," (split_comma s) = s.
Proof.
  induction s as [|c s IH]; [reflexivity|]. cbn [split_comma].
  destruct (split_comma_cons s) as (p & ps & Hs). rewrite Hs in IH |- *.
  destruct (Ascii.eqb_spec c ","%char) as [->|Hne].
  - change (String.concat "," (EmptyString :: p :: ps))
      with (String ","%char (String.concat "," (p :: ps))).
    rewrite IH. reflexivity.
  - destruct ps as [|q qs].
    + cbn [String.concat] in IH |- *. rewrite IH. reflexivity.
    + change (String.concat "," (String c p :: q :: qs))
        with (String c (String.concat "," (p :: q :: qs))).
      rewrite IH. reflexivity.
Qed.

Lemma split_comma_pieces s p :
  In p (split_comma s) -> ~ In ","%char (list_ascii_of_string p).
Proof.
  revert p. induction s as [|c s IH]; intros p Hin; cbn [split_comma] in Hin.
  - destruct Hin as [<-|[]]. intros [].
  - destruct (Ascii.eqb_spec c ","%char) as [->|Hne].
    + destruct Hin as [<-|Hin]; [intros []|apply IH; exact Hin].
    + destruct (split_comma_cons s) as (q & qs & Hs). rewrite Hs in Hin, IH.
      destruct Hin as [<-|Hin].
      * cbn [list_ascii_of_string In]. intros [Hc|Hc]; [congruence|].
        exact (IH q (or_introl eq_refl) Hc).
      * apply IH. right. exact Hin.
Qed.

Lemma split_comma_free s :
  ~ In ","%char (list_ascii_of_string s) -> split_comma s = [s].
Proof.
  induction s as [|c s IH]; intros Hfree; [reflexivity|].
  cbn [list_ascii_of_string In] in Hfree. cbn [split_comma].
  destruct (Ascii.eqb_spec c ","%char) as [->|Hne];
    [exfalso; apply Hfree; left; reflexivity|].
  rewrite IH by (intros H; apply Hfree; right; exact H). reflexivity.
Qed.

Lemma split_comma_append s t :
  ~ In ","%char (list_ascii_of_string s) ->
  split_comma (s ++ String ","%char t) = s :: split_comma t.
Proof.
  induction s as [|c s IH]; intros Hfree.
  - cbn [append split_comma]. reflexivity.
  - cbn [list_ascii_of_string In] in Hfree. cbn [append split_comma].
    destruct (Ascii.eqb_spec c ","%char) as [->|Hne];
      [exfalso; apply Hfree; left; reflexivity|].
    rewrite IH by (intros H; apply Hfree; right; exact H). reflexivity.
Qed.

(** X14. [s.split(",")] loses nothing: the list is never empty, no piece
    contains a comma, and joining the pieces with commas gives [s] back;
    conversely a non-empty list of comma-free pieces joined with commas
    splits into that list again. *)
Theorem split_comma_round_trip :
  (forall s,
     split_comma s <> [] /\
     String.concat "," (split_comma s) = s /\
     forall p, In p (split_comma s) -> ~ In ","%char (list_ascii_of_string p)) /\
  (forall l,
     l <> [] ->
     (forall p, In p l -> ~ In ","%char (list_ascii_of_string p)) ->
     split_comma (String.concat "," l) = l).
Proof.
  split.
  - intros s. split; [|split].
    + destruct (split_comma_cons s) as (p & ps & ->). discriminate.
    + apply concat_split_comma.
    + apply split_comma_pieces.
  - induction l as [|p l IH]; intros Hne Hfree; [contradiction|].
    destruct l as [|q l].
    + cbn [String.concat]. apply split_comma_free. apply Hfree. left. reflexivity.
    + change (String.concat "," (p :: q :: l))
        with (p ++ String ","%char (String.concat "," (q :: l)))%string.
      rewrite split_comma_append by (apply Hfree; left; reflexivity).
      rewrite IH; [reflexivity|discriminate|].
      intros r Hr. apply Hfree. right. exact Hr.
Qed.

Lemma split_comma_round_trip_witness :
  split_comma (String.concat "," ["https://a.example"; "https://b.example"]%string)
    = ["https://a.example"; "https://b.example"]%string.
Proof.
  apply (proj2 split_comma_round_trip); [discriminate|].
  intros p [<-|[<-|[]]]; vm_compute; intuition discriminate.
Defined.

Lemma hd_split_comma_empty s :
  hd EmptyString (split_comma s) = EmptyString <->
  s = EmptyString \/ exists rest, s = String ","%char rest.
Proof.
  destruct s as [|c s]; cbn [split_comma].
  - split; [left; reflexivity|reflexivity].
  - destruct (Ascii.eqb_spec c ","%char) as [->|Hne]; cbn [hd].
    + split; [right; exists s; reflexivity|reflexivity].
    + destruct (split_comma_cons s) as (p & ps & ->). cbn [hd]. split; [discriminate|].
      intros [H|(rest & H)]; [discriminate|]. injection H as -> _. contradiction.
Qed.

Lemma validate_init_cases environ :
  settings_rpc_urls (Settings_init environ) <> [] /\
  token_list (Settings_init environ) <> [] /\
  (getenv environ "RPC_URLS" EmptyString = EmptyString ->
   settings_rpc_urls (Settings_init environ) = [EmptyString]) /\
  (getenv environ "TOKEN_LIST" EmptyString = EmptyString ->
   token_list (Settings_init environ) = default_tokens) /\
  (validate (Settings_init environ) = Ok true <->
   getenv environ "RPC_URLS" EmptyString <> EmptyString /\
   (forall rest, getenv environ "RPC_URLS" EmptyString <> String ","%char rest) /\
   getenv environ "PRIVATE_KEY" EmptyString <> EmptyString /\
   getenv environ "CONTRACT_ADDRESS" EmptyString <> EmptyString) /\
  (validate (Settings_init environ) = Ok true \/
   validate (Settings_init environ) = Raise ValueError).
Proof.
  unfold Settings_init. cbn [settings_rpc_urls token_list].
  set (urls := getenv environ "RPC_URLS" EmptyString).
  set (toks := getenv environ "TOKEN_LIST" EmptyString).
  set (key := getenv environ "PRIVATE_KEY" EmptyString).
  set (addr := getenv environ "CONTRACT_ADDRESS" EmptyString).
  split; [destruct (split_comma_cons urls) as (p & ps & ->); discriminate|].
  split.
  { destruct toks; cbn [is_empty]; [discriminate|].
    match goal with |- split_comma ?t <> [] =>
      destruct (split_comma_cons t) as (p & ps & ->) end. discriminate. }
  split; [intros ->; reflexivity|]. split; [intros ->; reflexivity|].
  unfold validate. cbn [settings_rpc_urls private_key contract_address].
  pose proof (hd_split_comma_empty urls) as Hhd.
  destruct (split_comma_cons urls) as (p & ps & Hs). rewrite Hs in Hhd |- *.
  cbn [hd] in Hhd.
  destruct p as [|c p]; cbn [is_empty].
  - split; [|right; reflexivity]. split; [discriminate|].
    intros (H1 & H2 & _). exfalso. destruct (proj1 Hhd eq_refl) as [H|(rest & H)];
      [contradiction|exact (H2 rest H)].
  - assert (Hurls : urls <> EmptyString /\ forall rest, urls <> String ","%char rest).
    { split.
      - intros H. assert (Hc : String c p = EmptyString) by (apply Hhd; left; exact H).
        discriminate.
      - intros rest H.
        assert (Hc : String c p = EmptyString) by (apply Hhd; right; exists rest; exact H).
        discriminate. }
    destruct key as [|kc key]; cbn [is_empty].
    + split; [|right; reflexivity]. split; [discriminate|].
      intros (_ & _ & H & _). contradiction.
    + destruct addr as [|ac addr]; cbn [is_empty].
      * split; [|right; reflexivity]. split; [discriminate|].
        intros (_ & _ & _ & H). contradiction.
      * split; [|left; reflexivity]. split; [|reflexivity].
        intros _. destruct Hurls as [U1 U2].
        split; [exact U1|]. split; [exact U2|]. split; discriminate.
Qed.


(** X15. For a configuration read from the environment, [validate]
    returns [True] exactly when [RPC_URLS] is set, non-empty and does not
    start with a comma, and [PRIVATE_KEY] and [CONTRACT_ADDRESS] are
    non-empty; in every other case it raises [ValueError], and it never
    returns [False].  The endpoint list and the token list are never
    empty: an unset [RPC_URLS] gives the one empty URL, an unset or empty
    [TOKEN_LIST] the four default tokens; so the scanner always takes the
    configured token list and never its own fallback. *)
Theorem validate_after_init environ :
  settings_rpc_urls (Settings_init environ) <> [] /\
  token_list (Settings_init environ) <> [] /\
  (getenv environ "RPC_URLS" EmptyString = EmptyString ->
   settings_rpc_urls (Settings_init environ) = [EmptyString]) /\
  (getenv environ "TOKEN_LIST" EmptyString = EmptyString ->
   token_list (Settings_init environ) = default_tokens) /\
  (validate (Settings_init environ) = Ok true <->
   getenv environ "RPC_URLS" EmptyString <> EmptyString /\
   (forall rest, getenv environ "RPC_URLS" EmptyString <> String ","%char rest) /\
   getenv environ "PRIVATE_KEY" EmptyString <> EmptyString /\
   getenv environ "CONTRACT_ADDRESS" EmptyString <> EmptyString) /\
  (validate (Settings_init environ) = Ok true \/
   validate (Settings_init environ) = Raise ValueError) /\
  (forall cfg gpu,
     tokens (scanner_of_environ cfg gpu environ) = token_list (Settings_init environ)).
Proof.
  destruct (validate_init_cases environ) as (A & B & C & D & E & F).
  split; [exact A|]. split; [exact B|]. split; [exact C|]. split; [exact D|].
  split; [exact E|]. split; [exact F|].
  intros cfg gpu. unfold scanner_of_environ, ArbitrageScanner_init. cbn [tokens].
  destruct (token_list (Settings_init environ)); [contradiction|reflexivity].
Qed.

Lemma validate_after_init_witness :
  validate (Settings_init sample_environ) = Ok true.
Proof.
  apply (proj2 (proj1 (proj2 (proj2 (proj2 (proj2 (validate_after_init sample_environ))))))).
  vm_compute. repeat split; intros; discriminate.
Defined.

(** ** Executor: the gas limit *)

Lemma F2R_f_1_15 :
  pos_fin f_1_15 = true /\ (F2R f_1_15 = 5179139571476070 / 4503599627370496)%R.
Proof.
  split; [reflexivity|]. unfold f_1_15. cbn [F2R cond_Zopp].
  change (-52) with (- (52)). rewrite bpow_neg_IZR by lia.
  change (2 ^ 52) with 4503599627370496. field.
Qed.

Lemma gas_buffer_bounds g :
  1 <= g < 2 ^ 40 ->
  exists t,
    (gf <- float_of_int g ;; int_of_float (fmul gf f_1_15)) = Ok t /\
    g <= t /\ 100 * t <= 115 * g <= 100 * (t + 1).
Proof.
  intros Hg.
  assert (H53 : 0 < g < 2 ^ 53).
  { split; [lia|]. apply Z.lt_trans with (2 ^ 40); [lia|reflexivity]. }
  destruct (Z2SF_exact g H53) as [Hpg Hvg].
  rewrite (float_of_int_exact g H53). cbn [bind].
  destruct F2R_f_1_15 as [Hpc Hvc].
  pose proof (fmul_rounds _ _ Hpg Hpc) as Hr. rewrite Hvg, Hvc in Hr.
  assert (Hgr : (1 <= IZR g <= 1099511627775)%R).
  { split; [apply IZR_le; lia|]. apply IZR_le. change (2 ^ 40) with 1099511627776 in Hg. lia. }
  assert (Hrange : (bpow 0 <= IZR g * (5179139571476070 / 4503599627370496) <= bpow 41)%R).
  { change (bpow 0) with 1%R. rewrite (bpow_IZR 41) by lia.
    change (2 ^ 41) with 2199023255552. lra. }
  destruct (rounds_in_range _ _ 0 41 Hr Hrange ltac:(lia) ltac:(lia)) as (Hp & [Hn1 Hn2] & _).
  destruct (int_of_float_floor _ (pos_fin_nonneg_fin _ Hp)) as (t & Ht & Ht1 & Ht2).
  exists t. split; [exact Ht|].
  unfold one_plus_eta in Hn1, Hn2. rewrite pow_1 in Hn1, Hn2.
  change (2 ^ 52) with 4503599627370496 in Hn1, Hn2.
  set (r := F2R (fmul (Z2SF g) f_1_15)) in *.
  assert (Hup : 100 * t <= 115 * g).
  { assert (H : 100 * t < 115 * g + 1).
    { apply lt_IZR. rewrite plus_IZR, !mult_IZR. lra. }
    lia. }
  assert (Hlo : 115 * g <= 100 * (t + 1)).
  { assert (H : 115 * g - 1 < 100 * (t + 1)).
    { apply lt_IZR. rewrite minus_IZR, !mult_IZR, plus_IZR. lra. }
    lia. }
  split; [lia|]. split; assumption.
Qed.

(** X16. The gas limit of the transaction [execute_arbitrage] submits:
    when [estimate_gas] answers [g] with [1 <= g < 2^40], the limit is
    [int(g * 1.15)], which is never below [g] and is [floor(1.15 g)] or
    one less; when the estimation raises, the limit stays 600000.  The
    priority fee is [min(2 gwei, maxFeePerGas // 10)], which never
    exceeds a non-negative [maxFeePerGas]. *)
Theorem submitted_gas_limit w x r tx x2 :
  prepare_transaction w x r = (Ok tx, x2) ->
  (forall g,
     eth_estimate_gas w
       {| tx_route := r; tx_nonce := nonce x; tx_gas := 600000;
          maxFeePerGas := maxFeePerGas tx;
          maxPriorityFeePerGas := maxPriorityFeePerGas tx;
          tx_chainId := tx_chainId tx |} = Ok g ->
     1 <= g < 2 ^ 40 ->
     g <= tx_gas tx /\ 100 * tx_gas tx <= 115 * g <= 100 * (tx_gas tx + 1)) /\
  (forall e,
     eth_estimate_gas w
       {| tx_route := r; tx_nonce := nonce x; tx_gas := 600000;
          maxFeePerGas := maxFeePerGas tx;
          maxPriorityFeePerGas := maxPriorityFeePerGas tx;
          tx_chainId := tx_chainId tx |} = Raise e ->
     tx_gas tx = 600000) /\
  maxPriorityFeePerGas tx = Z.min (2 * 10 ^ 9) (maxFeePerGas tx / 10) /\
  (0 <= maxFeePerGas tx -> 0 <= maxPriorityFeePerGas tx <= maxFeePerGas tx).
Proof.
  intros H.
  destruct (prepare_transaction_fields w x r tx x2 H) as (Hn & Hr & Hp & Hc).
  pose proof (prepare_transaction_fee w x r tx x2 H) as Hfee.
  unfold prepare_transaction in H.
  pose proof (get_gas_price_same w x) as Hg.
  destruct (get_gas_price w x) as [gp x1]. cbn [fst snd] in Hg, Hfee.
  destruct Hg as (G1 & _ & _ & G4).
  match type of H with context [build_transaction w ?t] => set (tx0 := t) in * end.
  assert (Htx0 : tx0 = {| tx_route := r; tx_nonce := nonce x; tx_gas := 600000;
                         maxFeePerGas := maxFeePerGas tx;
                         maxPriorityFeePerGas := maxPriorityFeePerGas tx;
                         tx_chainId := tx_chainId tx |}).
  { unfold tx0. rewrite Hp, Hc, Hfee, G1, G4. reflexivity. }
  rewrite <- Htx0.
  destruct (build_transaction w tx0); [|discriminate].
  unfold refine_gas in H.
  split; [|split; [|split]].
  - intros g Hest Hgr. rewrite Hest in H. cbn [bind] in H.
    destruct (gas_buffer_bounds g Hgr) as (t & Ht & Hb).
    rewrite Ht in H. injection H as <- _. cbn [tx_gas]. exact Hb.
  - intros e Hest. rewrite Hest in H. cbn [bind] in H. injection H as <- _. reflexivity.
  - exact Hp.
  - intros Hpos. rewrite Hp.
    assert (Hdiv : 0 <= maxFeePerGas tx / 10 <= maxFeePerGas tx).
    { split; [apply Z.div_pos; lia|]. apply Z.div_le_upper_bound; lia. }
    lia.
Qed.

Lemma submitted_gas_limit_witness :
  prepare_transaction node_legacy executor_0 (good_route 0)
    = (Ok sample_transaction, logger executor_0 WARNING) /\
  tx_gas sample_transaction = 600000 /\
  0 <= maxPriorityFeePerGas sample_transaction <= maxFeePerGas sample_transaction.
Proof.
  assert (Hprep : prepare_transaction node_legacy executor_0 (good_route 0)
                  = (Ok sample_transaction, logger executor_0 WARNING))
    by (vm_compute; reflexivity).
  destruct (submitted_gas_limit node_legacy executor_0 (good_route 0)
              sample_transaction (logger executor_0 WARNING) Hprep)
    as (_ & Hfail & _ & Htip).
  split; [exact Hprep|]. split.
  - apply (Hfail (RpcError false)). reflexivity.
  - apply Htip. vm_compute. discriminate.
Defined.

(** ** The routes of the accelerator path *)

Lemma gpu_route_shape s now p r :
  gpu_route s now p = Ok r ->
  exists t d0 d1,
    nth_error (tokens s) 0 = Some t /\
    nth_error (map snd (dex_configs s)) 0 = Some d0 /\
    nth_error (map snd (dex_configs s)) 1 = Some d1 /\
    r = {| token := t; amount_in := 10 ^ 18;
           dex_routers := [router d0; router d1];
           swap_data := [b_empty; b_empty];
           expected_profit := expected_profit r;
           gas_cost := 2000000;
           net_profit := net_profit r;
           timestamp := now |}.
Proof.
  unfold gpu_route, getidx. intros H.
  destruct (nth_error (tokens s) 0) as [t|]; [|discriminate]. cbn [bind] in H.
  destruct (nth_error (map snd (dex_configs s)) 0) as [d0|]; [|discriminate].
  cbn [bind] in H.
  destruct (nth_error (map snd (dex_configs s)) 1) as [d1|]; [|discriminate].
  cbn [bind] in H.
  destruct (int_of_float p) as [ep|]; [|discriminate]. cbn [bind] in H.
  destruct (int_of_float (fsub p (Z2SF 2000000))) as [np|]; [|discriminate].
  cbn [bind] in H. injection H as <-.
  exists t, d0, d1. repeat split.
Qed.

Lemma gpu_routes_from_cells s now pools routes r :
  _calculate_routes_gpu_accel s now pools = Ok routes -> In r routes ->
  exists p, gpu_route s now p = Ok r.
Proof.
  unfold _calculate_routes_gpu_accel. intros H Hin.
  destruct (pool_rows (all_pools pools)) as [rows|]; [|discriminate]. cbn [bind] in H.
  destruct (for_each_In _ r _ _ H Hin) as (i & o1 & _ & H1 & Hin1).
  destruct (for_each_In _ r _ _ H1 Hin1) as (j & o2 & _ & H2 & Hin2).
  destruct (float_gt_int (numpy_gt_big_int s) (gpu_profit rows i j)
              (min_profit_threshold (config s)))
    as [[]|]; cbn [bind] in H2; try discriminate.
  - destruct (gpu_route s now (gpu_profit rows i j)) as [r'|] eqn:Hr; [|discriminate].
    cbn [bind] in H2. injection H2 as <-. destruct Hin2 as [<-|[]].
    exists (gpu_profit rows i j). exact Hr.
  - exfalso. symmetry in H2. exact (nil_no_member r o2 H2 Hin2).
Qed.

(** X17. A route of the accelerator path says nothing about the pools
    its profit was computed from: every such route names the scanner's
    first token, the routers of the first two entries of [dex_configs]
    (with the default table [uniswap_v2] and [uniswap_v3]), empty swap
    data, the amount [10^18] and gas cost 2000000, so that any two routes
    of one scan carry the same token, routers, swap data, amount and gas
    cost. *)
Theorem accelerator_routes_ignore_pools s now pools routes r :
  gpu_available s = true ->
  _calculate_routes_gpu s now pools = Ok routes ->
  In r routes ->
  (exists t d0 d1,
     nth_error (tokens s) 0 = Some t /\
     nth_error (map snd (dex_configs s)) 0 = Some d0 /\
     nth_error (map snd (dex_configs s)) 1 = Some d1 /\
     token r = t /\ dex_routers r = [router d0; router d1]) /\
  swap_data r = [b_empty; b_empty] /\ amount_in r = 10 ^ 18 /\
  gas_cost r = 2000000 /\
  (dex_configs s = default_dex_configs ->
   dex_routers r = [router uniswap_v2; router uniswap_v3]) /\
  (forall r',
     In r' routes ->
     token r' = token r /\ dex_routers r' = dex_routers r /\
     swap_data r' = swap_data r /\ amount_in r' = amount_in r /\
     gas_cost r' = gas_cost r).
Proof.
  intros Hgpu H Hin. unfold _calculate_routes_gpu in H. rewrite Hgpu in H. cbn [negb] in H.
  destruct (gpu_routes_from_cells s now pools routes r H Hin) as (p & Hp).
  destruct (gpu_route_shape s now p r Hp) as (t & d0 & d1 & Ht & Hd0 & Hd1 & Hr).
  split; [|split; [|split; [|split; [|split]]]].
  - exists t, d0, d1. rewrite Hr. cbn [token dex_routers]. repeat split; assumption.
  - rewrite Hr. reflexivity.
  - rewrite Hr. reflexivity.
  - rewrite Hr. reflexivity.
  - intros Hd. rewrite Hd in Hd0, Hd1. cbn in Hd0, Hd1.
    injection Hd0 as <-. injection Hd1 as <-. rewrite Hr. reflexivity.
  - intros r' Hin'.
    destruct (gpu_routes_from_cells s now pools routes r' H Hin') as (p' & Hp').
    destruct (gpu_route_shape s now p' r' Hp') as (t' & d0' & d1' & Ht' & Hd0' & Hd1' & Hr').
    rewrite Hr', Hr. cbn [token dex_routers swap_data amount_in gas_cost].
    repeat split; congruence.
Qed.

Lemma accelerator_routes_ignore_pools_witness :
  swap_data route_through_empty_pool = [b_empty; b_empty] /\
  dex_routers route_through_empty_pool = [router uniswap_v2; router uniswap_v3].
Proof.
  destruct (accelerator_routes_ignore_pools (gpu_scanner (10 ^ 16)) 7
              (fetch_top_pools chain_Z_C (gpu_scanner (10 ^ 16)))
              [route_through_empty_pool] route_through_empty_pool eq_refl)
    as (_ & Hs & _ & _ & Hd & _).
  - vm_compute. reflexivity.
  - left. reflexivity.
  - split; [exact Hs|]. apply Hd. reflexivity.
Defined.
